(** * Firestore export tool: a shallow embedding and its verified properties

    The first part embeds the sources, module by module:

    - [Js]           the JavaScript built-ins the sources rely on (arrays
                     of strings, character classes and replacements,
                     plain objects, numbers, [JSON.stringify]);
    - [Config]       [src/config.js];
    - [Transformers] [src/lib/transformers.js];
    - [Store]        the Firestore client as the collector uses it;
    - [JsonExporter] [src/lib/jsonExporter.js];
    - [SqlExporter]  [src/lib/sqlExporter.js];
    - [Collector]    [src/lib/collector.js];
    - [Index]        the export driver with the resume state file;
    - [Convert]      [src/convert.js], the converter of exported JSON
                     files to SQL.

    The second part states and proves the properties: the widening laws
    ([WidenLaws]), value inference ([ValueInference]), the columns of a
    transformed document ([DocumentColumns]), path normalization
    ([PathNormalization]), pagination ([Pagination]), the flush
    discipline of the traversal ([FlushDiscipline]), re-export
    ([Reexport]) and the checkpoint ([Checkpoint]); then the names of
    columns and files ([SanitizedNames], [FileNames]), the shape of a
    transformed document ([DocumentShape]), schema merging
    ([SchemaMerging]), quoting ([SqlQuoting]), what a traversal reads
    and counts ([Traversal]), the driver ([Driver]) and the converter
    against the exporter ([Reconversion]).

    Modelling conventions.  JavaScript strings are [string]s, sequences
    of 8-bit code units; the sources only inspect ASCII characters.
    Plain objects are insertion-ordered association lists of their own
    properties; a read of a property that an object does not own sees
    the members inherited from [Object.prototype], an assignment of a
    string to [__proto__] is ignored, and a call of [hasOwnProperty] on
    an object that owns a property of that name throws.  An operation of
    the sources that can throw returns a [Completion].  Numbers are
    IEEE-754 values ([SpecFloat.spec_float]), never rounded.  Loops that
    the sources write as [while] take a fuel argument, and the theorems
    say how much fuel is enough.  What the platform provides (the clock,
    the rendering of numbers that are not small integers, of functions,
    timestamps and bytes, the failures of the store, of the writers and
    of the file system) is a parameter. *)

From Stdlib Require Import String Ascii List ZArith Lia Bool Permutation.
From Stdlib Require Import QArith SpecFloat DecimalString DecimalNat Sorted.
Import ListNotations.

Set Warnings "-register-all".

Open Scope list_scope.
Open Scope string_scope.

(* ===================================================================== *)
(** * JavaScript built-ins *)
(* ===================================================================== *)

Module Js.

(** ** Arrays of strings *)

(** [Array.prototype.indexOf] on an array of strings: the first index of
    [x], or [-1]. *)
Fixpoint indexOf_from (i : Z) (l : list string) (x : string) : Z :=
  match l with
  | [] => (-1)%Z
  | y :: l' => if String.eqb y x then i else indexOf_from (i + 1)%Z l' x
  end.

Definition indexOf (l : list string) (x : string) : Z := indexOf_from 0%Z l x.

(** [Array.prototype.includes]. *)
Definition includes (l : list string) (x : string) : bool :=
  existsb (fun y => String.eqb y x) l.

(** [Array.prototype.join]. *)
Definition join (sep : string) (l : list string) : string := String.concat sep l.

(** [Array.prototype.filter] with the two-argument callback
    [(element, index) => ...]. *)
Fixpoint filteri_from {A : Type} (i : nat) (f : A -> nat -> bool) (l : list A) : list A :=
  match l with
  | [] => []
  | x :: l' =>
      if f x i then x :: filteri_from (S i) f l' else filteri_from (S i) f l'
  end.

Definition filteri {A : Type} (f : A -> nat -> bool) (l : list A) : list A :=
  filteri_from 0 f l.

(** [Array.prototype.sort()] without comparator on an array of strings:
    ascending order of the code units.  The sorted array is unique, so
    the algorithm (here: insertion) does not matter. *)
Fixpoint sort_insert (x : string) (l : list string) : list string :=
  match l with
  | [] => [x]
  | y :: l' => if String.leb x y then x :: l else y :: sort_insert x l'
  end.

Definition Array_sort (l : list string) : list string := fold_right sort_insert [] l.

(** [Array.from(new Set(l))]: the elements of [l] without repetition, in
    the order of their first occurrence. *)
Definition Set_from (l : list string) : list string :=
  fold_left (fun s x => if includes s x then s else (s ++ [x])%list) l [].

(** ** Characters and character classes *)

Definition char_between (lo hi c : ascii) : bool :=
  (N_of_ascii lo <=? N_of_ascii c)%N && (N_of_ascii c <=? N_of_ascii hi)%N.

(** [\d] *)
Definition is_digit (c : ascii) : bool := char_between "0" "9" c.

(** [\w], that is [[A-Za-z0-9_]] *)
Definition is_word (c : ascii) : bool :=
  char_between "a" "z" c || char_between "A" "Z" c || is_digit c
  || Ascii.eqb c "_".

(** [\s] on 8-bit code units: tab, line feed, vertical tab, form feed,
    carriage return, space and the no-break space. *)
Definition is_space (c : ascii) : bool :=
  char_between "009" "013" c || Ascii.eqb c " " || Ascii.eqb c "160".

(** [String.prototype.toUpperCase] on ASCII letters. *)
Definition toUpperCase_char (c : ascii) : ascii :=
  if char_between "a" "z" c then ascii_of_N (N_of_ascii c - 32) else c.

(** ** Strings *)

Fixpoint map_chars (f : ascii -> ascii) (s : string) : string :=
  match s with
  | EmptyString => EmptyString
  | String c s' => String (f c) (map_chars f s')
  end.

Definition toUpperCase (s : string) : string := map_chars toUpperCase_char s.

(** [s.replace(/[class]/g, r)] with a one-character replacement. *)
Definition replace_class (p : ascii -> bool) (r : ascii) (s : string) : string :=
  map_chars (fun c => if p c then r else c) s.

(** [s.replace(/[class]/g, r)] with a replacement string. *)
Fixpoint replace_class_str (p : ascii -> bool) (r : string) (s : string) : string :=
  match s with
  | EmptyString => EmptyString
  | String c s' =>
      if p c then r ++ replace_class_str p r s'
      else String c (replace_class_str p r s')
  end.

(** [s.replace(/[class]+/g, r)]: every maximal run of characters of the
    class becomes one [r].  [in_run] tells that the previous character
    belonged to a run already replaced. *)
Fixpoint collapse_runs_from (in_run : bool) (p : ascii -> bool) (r : ascii)
    (s : string) : string :=
  match s with
  | EmptyString => EmptyString
  | String c s' =>
      if p c then
        if in_run then collapse_runs_from true p r s'
        else String r (collapse_runs_from true p r s')
      else String c (collapse_runs_from false p r s')
  end.

Definition collapse_runs (p : ascii -> bool) (r : ascii) (s : string) : string :=
  collapse_runs_from false p r s.

Fixpoint drop_while (p : ascii -> bool) (s : string) : string :=
  match s with
  | EmptyString => EmptyString
  | String c s' => if p c then drop_while p s' else s
  end.

Fixpoint drop_while_end (p : ascii -> bool) (s : string) : string :=
  match s with
  | EmptyString => EmptyString
  | String c s' =>
      match drop_while_end p s' with
      | EmptyString => if p c then EmptyString else String c EmptyString
      | t => String c t
      end
  end.

Definition is_underscore (c : ascii) : bool := Ascii.eqb c "_".

(** [s.replace(/^_+|_+$/g, '')] *)
Definition trim_underscores (s : string) : string :=
  drop_while_end is_underscore (drop_while is_underscore s).

(** [/[class]/.test(s)]: some character of [s] is in the class. *)
Fixpoint some_char (p : ascii -> bool) (s : string) : bool :=
  match s with
  | EmptyString => false
  | String c s' => p c || some_char p s'
  end.

(** [/^\d/.test(s)] *)
Definition starts_with_digit (s : string) : bool :=
  match s with
  | EmptyString => false
  | String c _ => is_digit c
  end.

(** [s.split(sep)] for a one-character separator; the empty string splits
    into one empty segment. *)
Fixpoint split (sep : ascii) (s : string) : list string :=
  match s with
  | EmptyString => [EmptyString]
  | String c s' =>
      if Ascii.eqb c sep then EmptyString :: split sep s'
      else match split sep s' with
           | [] => [String c EmptyString]
           | x :: r => String c x :: r
           end
  end.

(** [s.substring(0, n)] *)
Definition substring_to (n : nat) (s : string) : string := String.substring 0 n s.

(** Decimal rendering of a natural number, as a template literal
    renders an integer counter or an array length. *)
Definition nat_to_string (n : nat) : string :=
  NilEmpty.string_of_uint (Nat.to_uint n).

(** ** Plain objects: insertion-ordered own properties *)

Definition obj (A : Type) : Type := list (string * A).

Fixpoint get {A : Type} (k : string) (o : obj A) : option A :=
  match o with
  | [] => None
  | (k', v) :: o' => if String.eqb k' k then Some v else get k o'
  end.

(** [o.hasOwnProperty(k)] *)
Definition hasOwnProperty {A : Type} (o : obj A) (k : string) : bool :=
  match get k o with Some _ => true | None => false end.

(** [o[k] = v]: an existing property keeps its position, a new one is
    appended. *)
Fixpoint set {A : Type} (k : string) (v : A) (o : obj A) : obj A :=
  match o with
  | [] => [(k, v)]
  | (k', v') :: o' =>
      if String.eqb k' k then (k', v) :: o' else (k', v') :: set k v o'
  end.

(** [Object.keys(o)] *)
Definition keys {A : Type} (o : obj A) : list string := map fst o.

(** ** Plain objects: what they inherit *)

(** The members a plain object inherits from [Object.prototype]. *)
Definition Object_prototype : list string :=
  [ "constructor"; "__defineGetter__"; "__defineSetter__"; "hasOwnProperty";
    "__lookupGetter__"; "__lookupSetter__"; "isPrototypeOf";
    "propertyIsEnumerable"; "toString"; "valueOf"; "__proto__";
    "toLocaleString" ].

(** What [o[k]] evaluates to on a plain object: the value of the own
    property, else the member of that name inherited from
    [Object.prototype] (a function, or the prototype itself for
    [__proto__]), else [undefined]. *)
Inductive Property (A : Type) : Type :=
| Own (v : A)
| Inherited (member : string)
| Undefined.

Arguments Own {A} v.
Arguments Inherited {A} member.
Arguments Undefined {A}.

Definition read {A : Type} (k : string) (o : obj A) : Property A :=
  match get k o with
  | Some v => Own v
  | None => if includes Object_prototype k then Inherited k else Undefined
  end.

(** [o[k] = v] on a plain object, for a value [v] that is neither an
    object nor null: the property is defined or updated, except that
    assigning to [__proto__], which the object does not have as an own
    property, runs the inherited setter, which ignores such a value. *)
Definition assign {A : Type} (k : string) (v : A) (o : obj A) : obj A :=
  if String.eqb k "__proto__" && negb (hasOwnProperty o k) then o else set k v o.

(** ** Exceptions *)

Inductive Exception : Type :=
| TypeError_not_a_function (property : string).

(** How an evaluation ends: with a value, or by throwing. *)
Inductive Completion (A : Type) : Type :=
| Normal (a : A)
| Throw (e : Exception).

Arguments Normal {A} a.
Arguments Throw {A} e.

Definition bind {A B : Type} (c : Completion A) (f : A -> Completion B) : Completion B :=
  match c with
  | Normal a => f a
  | Throw e => Throw e
  end.

(** [l.map(f)], or a loop over [l] that collects the results of [f],
    when [f] may throw: the first exception ends the evaluation. *)
Fixpoint map_throwing {A B : Type} (f : A -> Completion B) (l : list A)
    : Completion (list B) :=
  match l with
  | [] => Normal []
  | x :: l' =>
      match f x with
      | Throw e => Throw e
      | Normal y =>
          match map_throwing f l' with
          | Throw e => Throw e
          | Normal ys => Normal (y :: ys)
          end
      end
  end.

(** The method call [o.hasOwnProperty(k)] on a plain object whose own
    properties hold values that are not functions: an own property named
    [hasOwnProperty] hides the inherited method, and the call throws. *)
Definition call_hasOwnProperty {A : Type} (o : obj A) (k : string) : Completion bool :=
  if hasOwnProperty o "hasOwnProperty"
  then Throw (TypeError_not_a_function "hasOwnProperty")
  else Normal (hasOwnProperty o k).

(** ** Numbers *)

(** A JavaScript number is an IEEE-754 double.  The embedding keeps the
    sign, mantissa and exponent of a finite value and never rounds: the
    sources only classify and compare numbers. *)
Definition number : Type := spec_float.

Definition Number_of_Z (z : Z) : number :=
  match z with
  | Z0 => S754_zero false
  | Zpos p => S754_finite false p 0
  | Zneg p => S754_finite true p 0
  end.

(** [Number.isFinite] *)
Definition Number_isFinite (x : number) : bool :=
  match x with
  | S754_zero _ | S754_finite _ _ _ => true
  | S754_infinity _ | S754_nan => false
  end.

(** The signed mantissa of a finite number. *)
Definition signed_mantissa (s : bool) (m : positive) : Z :=
  if s then Zneg m else Zpos m.

(** [Number.isInteger]: a finite [m * 2^e] is an integer when [e >= 0] or
    [2^(-e)] divides [m]. *)
Definition Number_isInteger (x : number) : bool :=
  match x with
  | S754_zero _ => true
  | S754_finite _ m e => (0 <=? e)%Z || (Zpos m mod 2 ^ (- e) =? 0)%Z
  | S754_infinity _ | S754_nan => false
  end.

(** The rational a finite number denotes (0 for the others). *)
Definition Number_value (x : number) : Q :=
  match x with
  | S754_finite s m e =>
      if (0 <=? e)%Z then inject_Z (signed_mantissa s m * 2 ^ e)
      else Qmake (signed_mantissa s m) (Z.to_pos (2 ^ (- e)))
  | _ => 0%Q
  end.

(** The integer an integer-valued number denotes. *)
Definition Number_toZ (x : number) : option Z :=
  match x with
  | S754_zero _ => Some 0%Z
  | S754_finite s m e =>
      if (0 <=? e)%Z then Some (signed_mantissa s m * 2 ^ e)%Z
      else if (Zpos m mod 2 ^ (- e) =? 0)%Z
           then Some (signed_mantissa s m / 2 ^ (- e))%Z
           else None
  | S754_infinity _ | S754_nan => None
  end.

(** [x <= y] on numbers: false when either side is NaN. *)
Definition Number_leb (x y : number) : bool :=
  match x, y with
  | S754_nan, _ | _, S754_nan => false
  | S754_infinity true, _ => true
  | _, S754_infinity false => true
  | S754_infinity false, _ => false
  | _, S754_infinity true => false
  | _, _ => Qle_bool (Number_value x) (Number_value y)
  end.

(** [x >= y] *)
Definition Number_geb (x y : number) : bool := Number_leb y x.

(** ** Values after transformation, and [JSON.stringify] *)

(** The JavaScript values the transformers hand to the exporters. *)
Inductive jsval : Type :=
| JNull
| JNumber (x : number)
| JString (s : string)
| JArray (l : list jsval)
| JObject (l : list (string * jsval)).

(** What the platform provides and the repository does not define. *)
Class Platform : Type := {
  (** [String(x)] for a finite number that is not an integer of absolute
      value below 2^53 *)
  float_toString : number -> string;
  (** [String(f)] for the built-in function of the given name *)
  Function_toString : string -> string;
  (** [timestamp.toDate().toISOString()] of a Firestore timestamp given
      by its seconds and nanoseconds *)
  Timestamp_toISOString : Z -> Z -> string;
  (** [date.toISOString()] of a [Date] given by its time value *)
  Date_toISOString : Z -> string;
  (** base64 text of a byte sequence *)
  bytes_toBase64 : list Byte.byte -> string
}.

Definition Z_to_string (z : Z) : string :=
  NilEmpty.string_of_int (Z.to_int z).

Section WithPlatform.
Context {P : Platform}.

(** [String(x)] for a finite number: an integer of absolute value below
    2^53 prints its decimal digits (negative zero prints as 0); beyond,
    the digits printed are the shortest that read back as the same
    number, which the platform provides. *)
Definition Number_toString (x : number) : string :=
  match Number_toZ x with
  | Some z =>
      if (Z.abs z <? 2 ^ 53)%Z then Z_to_string z else float_toString x
  | None => float_toString x
  end.

(** The double quote and the backslash. *)
Definition dquote : ascii := Eval cbv in ascii_of_N 34.
Definition backslash : ascii := Eval cbv in ascii_of_N 92.

(** The lowercase hexadecimal digit of [n < 16]. *)
Definition hex_digit (n : N) : ascii :=
  if (n <? 10)%N then ascii_of_N (48 + n) else ascii_of_N (87 + n).

(** The escape [JSON.stringify] writes for one code unit. *)
Definition JSON_escape_char (c : ascii) : string :=
  let n := N_of_ascii c in
  if Ascii.eqb c dquote then String backslash (String dquote EmptyString)
  else if Ascii.eqb c backslash then String backslash (String backslash EmptyString)
  else if (n =? 8)%N then "\b"
  else if (n =? 9)%N then "\t"
  else if (n =? 10)%N then "\n"
  else if (n =? 12)%N then "\f"
  else if (n =? 13)%N then "\r"
  else if (n <? 32)%N then
    "\u00" ++ String (hex_digit (n / 16)) (String (hex_digit (n mod 16)) EmptyString)
  else String c EmptyString.

Fixpoint JSON_escape (s : string) : string :=
  match s with
  | EmptyString => EmptyString
  | String c s' => JSON_escape_char c ++ JSON_escape s'
  end.

(** [JSON.stringify(s)] for a string. *)
Definition JSON_quote (s : string) : string :=
  String dquote (JSON_escape s ++ String dquote EmptyString).

(** [JSON.stringify(l)] for an array of strings. *)
Definition JSON_stringify_strings (l : list string) : string :=
  "[" ++ join "," (map JSON_quote l) ++ "]".

(** [JSON.stringify(v)] *)
Fixpoint JSON_stringify (v : jsval) : string :=
  match v with
  | JNull => "null"
  | JNumber x => if Number_isFinite x then Number_toString x else "null"
  | JString s => JSON_quote s
  | JArray l => "[" ++ join "," (map JSON_stringify l) ++ "]"
  | JObject l =>
      "{" ++ join "," (map (fun kv => JSON_quote (fst kv) ++ ":" ++ JSON_stringify (snd kv)) l)
      ++ "}"
  end.

Definition newline : string := String (ascii_of_N 10) EmptyString.

(** [JSON.stringify(v, null, 2)]; [indent] is the current indentation. *)
Fixpoint JSON_stringify_pretty (indent : string) (v : jsval) : string :=
  let inner := indent ++ "  " in
  match v with
  | JNull => "null"
  | JNumber x => if Number_isFinite x then Number_toString x else "null"
  | JString s => JSON_quote s
  | JArray [] => "[]"
  | JArray l =>
      "[" ++ newline ++ inner
      ++ join ("," ++ newline ++ inner) (map (JSON_stringify_pretty inner) l)
      ++ newline ++ indent ++ "]"
  | JObject [] => "{}"
  | JObject l =>
      "{" ++ newline ++ inner
      ++ join ("," ++ newline ++ inner)
           (map (fun kv => JSON_quote (fst kv) ++ ": " ++ JSON_stringify_pretty inner (snd kv)) l)
      ++ newline ++ indent ++ "}"
  end.

End WithPlatform.

End Js.

(* ===================================================================== *)
(** * [src/config.js] *)
(* ===================================================================== *)

Module Config.

Record SqlConfig : Type := {
  schema : option string;
  includeCreateTable : bool;
  includeDropTable : bool
}.

Record Config : Type := {
  collections : list string;
  jsonOutputDir : string;
  sqlOutputDir : string;
  sql : SqlConfig;
  batchSize : nat;
  continueOnError : bool
}.

(** The values [src/config.js] exports. *)
Definition config : Config := {|
  collections := [];
  jsonOutputDir := "./output/json";
  sqlOutputDir := "./output/sql";
  sql := {| schema := Some "dbo";
            includeCreateTable := true;
            includeDropTable := true |};
  batchSize := 500;
  continueOnError := true
|}.

End Config.

(* ===================================================================== *)
(** * [src/lib/transformers.js] *)
(* ===================================================================== *)

Module Transformers.

Import Js.

(** A Firestore field value as the Admin SDK hands it to the tool. *)
Inductive fsval : Type :=
| FNull
| FUndefined
| FBytes (b : list Byte.byte)
| FTimestamp (seconds nanoseconds : Z)
| FDate (time : Z)
| FGeoPoint (latitude longitude : number)
| FReference (path : string)
| FArray (l : list fsval)
| FMap (l : list (string * fsval))
| FBoolean (b : bool)
| FNumber (x : number)
| FString (s : string).

(** The pair [{ value, sqlType }] that [transformValue] returns. *)
Record Transformed : Type := { value : jsval; sqlType : string }.

Section WithPlatform.
Context {P : Platform}.

(** [transformValue(value, fieldName)].  The second argument only names
    the field for context and is never read, so it is left out.  The
    final fallback [String(value)] is for symbols, functions and bigints,
    which Firestore data does not contain. *)
Fixpoint transformValue (v : fsval) : Transformed :=
  match v with
  | FNull | FUndefined => {| value := JNull; sqlType := "NVARCHAR(MAX)" |}
  | FBytes b => {| value := JString (bytes_toBase64 b); sqlType := "NVARCHAR(MAX)" |}
  | FTimestamp sec nano =>
      {| value := JString (Timestamp_toISOString sec nano); sqlType := "DATETIME2" |}
  | FDate t => {| value := JString (Date_toISOString t); sqlType := "DATETIME2" |}
  | FGeoPoint lat lon =>
      {| value := JObject [("latitude", JNumber lat); ("longitude", JNumber lon)];
         sqlType := "NVARCHAR(100)" |}
  | FReference path => {| value := JString path; sqlType := "NVARCHAR(500)" |}
  | FArray l =>
      let transformedArray := map (fun item => value (transformValue item)) l in
      {| value := JString (JSON_stringify (JArray transformedArray));
         sqlType := "NVARCHAR(MAX)" |}
  | FMap l =>
      let transformedObject :=
        map (fun kv => (fst kv, value (transformValue (snd kv)))) l in
      {| value := JString (JSON_stringify (JObject transformedObject));
         sqlType := "NVARCHAR(MAX)" |}
  | FBoolean b =>
      {| value := JNumber (Number_of_Z (if b then 1 else 0)); sqlType := "BIT" |}
  | FNumber x =>
      if negb (Number_isFinite x) then {| value := JNull; sqlType := "FLOAT" |}
      else if Number_isInteger x then
        if Number_geb x (Number_of_Z (-2147483648))
           && Number_leb x (Number_of_Z 2147483647)
        then {| value := JNumber x; sqlType := "INT" |}
        else {| value := JNumber x; sqlType := "BIGINT" |}
      else {| value := JNumber x; sqlType := "FLOAT" |}
  | FString s =>
      let length := String.length s in
      if (length <=? 50)%nat then {| value := JString s; sqlType := "NVARCHAR(50)" |}
      else if (length <=? 255)%nat then {| value := JString s; sqlType := "NVARCHAR(255)" |}
      else if (length <=? 1000)%nat then {| value := JString s; sqlType := "NVARCHAR(1000)" |}
      else if (length <=? 4000)%nat then {| value := JString s; sqlType := "NVARCHAR(4000)" |}
      else {| value := JString s; sqlType := "NVARCHAR(MAX)" |}
  end.

End WithPlatform.

(** [sanitizeFieldName(fieldName)] *)
Definition sanitizeFieldName (fieldName : string) : string :=
  let sanitized :=
    collapse_runs is_underscore "_"
      (trim_underscores
         (replace_class (fun c => negb (is_word c)) "_"
            (replace_class (fun c => Ascii.eqb c ".") "_" fieldName))) in
  let sanitized :=
    if starts_with_digit sanitized then "_" ++ sanitized else sanitized in
  if String.eqb sanitized "" then "_field" else sanitized.

(** The loop of [transformDocument] that looks for a free column name:
    [while (transformedData.hasOwnProperty(finalField) && finalField !== 'id')].
    The condition calls the method on the object being filled, so it
    throws once a column named [hasOwnProperty] has been stored.  The
    loop is unrolled [fuel] times; [transformDocument] passes one more
    than the number of columns, which is always enough
    ([DocumentColumns.dedupe_exits]). *)
Fixpoint dedupe (fuel : nat) (transformedData : obj jsval)
    (sanitizedField finalField : string) (counter : nat) : Completion string :=
  match fuel with
  | O => Normal finalField
  | S fuel' =>
      match call_hasOwnProperty transformedData finalField with
      | Throw e => Throw e
      | Normal has =>
          if has && negb (String.eqb finalField "id")
          then dedupe fuel' transformedData sanitizedField
                 (sanitizedField ++ "_" ++ nat_to_string counter) (S counter)
          else Normal finalField
      end
  end.

(** The triple [{ data, schema, fieldMapping }] of [transformDocument]. *)
Record TransformedDocument : Type := {
  data : obj jsval;
  schema : obj string;
  fieldMapping : obj string
}.

Section WithPlatform.
Context {P : Platform}.

(** One iteration of the [for (const [field, value] of Object.entries(data))]
    loop of [transformDocument].  The column [finalField] never is
    [__proto__] ([DocumentShape.finalFieldOf_not_proto]), so the two
    assignments to it define or update an own property; [field] is the
    name as the document has it. *)
Definition transformField (acc : TransformedDocument) (entry : string * fsval)
    : Completion TransformedDocument :=
  let field := fst entry in
  let sanitizedField := sanitizeFieldName field in
  let t := transformValue (snd entry) in
  match dedupe (S (List.length (data acc))) (data acc) sanitizedField sanitizedField 1 with
  | Throw e => Throw e
  | Normal finalField =>
      Normal {| data := set finalField (value t) (data acc);
                schema := set finalField (sqlType t) (schema acc);
                fieldMapping := assign field finalField (fieldMapping acc) |}
  end.

(** The loop over the entries, from a given state. *)
Fixpoint transformFields (acc : TransformedDocument) (entries : obj fsval)
    : Completion TransformedDocument :=
  match entries with
  | [] => Normal acc
  | entry :: entries' =>
      match transformField acc entry with
      | Throw e => Throw e
      | Normal acc' => transformFields acc' entries'
      end
  end.

(** [transformDocument(docId, data)]; [entries] is [Object.entries(data)]. *)
Definition transformDocument (docId : string) (entries : obj fsval)
    : Completion TransformedDocument :=
  transformFields
    {| data := [("id", JString docId)];
       schema := [("id", "NVARCHAR(255)")];
       fieldMapping := [] |}
    entries.

End WithPlatform.

Definition typeHierarchy : list string :=
  [ "BIT"; "INT"; "BIGINT"; "FLOAT";
    "NVARCHAR(50)"; "NVARCHAR(100)"; "NVARCHAR(255)"; "NVARCHAR(500)";
    "NVARCHAR(1000)"; "NVARCHAR(4000)"; "NVARCHAR(MAX)"; "DATETIME2" ].

Definition numericTypes : list string := [ "BIT"; "INT"; "BIGINT"; "FLOAT" ].

(** [getWiderType(type1, type2)] *)
Definition getWiderType (type1 type2 : string) : string :=
  if String.eqb type1 type2 then type1
  else if String.eqb type1 "NVARCHAR(MAX)" || String.eqb type2 "NVARCHAR(MAX)"
  then "NVARCHAR(MAX)"
  else
    let index1 := indexOf typeHierarchy type1 in
    let index2 := indexOf typeHierarchy type2 in
    let isNumeric1 := includes numericTypes type1 in
    let isNumeric2 := includes numericTypes type2 in
    if negb (Bool.eqb isNumeric1 isNumeric2) then "NVARCHAR(MAX)"
    else if (index1 >? index2)%Z then type1 else type2.

(** [getWiderType(type1, type2)] when [type1] is not a type name but a
    member inherited from [Object.prototype]: it is equal to no string,
    it is in neither array, and its index [-1] is never above the index
    of [type2], so the last line returns [type2]. *)
Definition getWiderType_member (type2 : string) : string :=
  if String.eqb type2 "NVARCHAR(MAX)" then "NVARCHAR(MAX)"
  else
    let isNumeric1 := false in
    let isNumeric2 := includes numericTypes type2 in
    if negb (Bool.eqb isNumeric1 isNumeric2) then "NVARCHAR(MAX)"
    else type2.

(** The body of the inner loop of [mergeSchemas].  [merged] is a plain
    object: [merged[field]] is falsy for a column it neither has nor
    inherits and for an empty type name, and it is an inherited member,
    which is truthy, for a column not merged yet that is named like a
    member of [Object.prototype]. *)
Definition mergeField (merged : obj string) (entry : string * string) : obj string :=
  let field := fst entry in
  let sqlType := snd entry in
  match read field merged with
  | Undefined => assign field sqlType merged
  | Own t =>
      if String.eqb t "" then assign field sqlType merged
      else assign field (getWiderType t sqlType) merged
  | Inherited _ => assign field (getWiderType_member sqlType) merged
  end.

(** [mergeSchemas(schemas)] *)
Definition mergeSchemas (schemas : list (obj string)) : obj string :=
  fold_left (fun merged schema => fold_left mergeField schema merged) schemas [].

(** The characters [sanitizeFileName] replaces first: angle brackets,
    colon, double quote, slash, backslash, bar, question mark and star. *)
Definition is_invalid_filename_char (c : ascii) : bool :=
  existsb (Ascii.eqb c) ["<"; ">"; ":"; dquote; "/"; backslash; "|"; "?"; "*"]%char.

(** [sanitizeFileName(collectionName)] *)
Definition sanitizeFileName (collectionName : string) : string :=
  let sanitized :=
    trim_underscores
      (collapse_runs is_underscore "_"
         (collapse_runs is_space "_"
            (replace_class is_invalid_filename_char "_" collectionName))) in
  let sanitized :=
    if (200 <? String.length sanitized)%nat then substring_to 200 sanitized
    else sanitized in
  if String.eqb sanitized "" then "collection" else sanitized.

End Transformers.

(* ===================================================================== *)
(** * The document store *)
(* ===================================================================== *)

Module Store.

Import Js Transformers.

(** A document snapshot: [doc.id], [doc.data()] and [doc.ref.path]; the
    reference [doc.ref] is identified by its path. *)
Record DocumentSnapshot : Type := {
  id : string;
  data : obj fsval;
  path : string
}.

(** The Firestore client, as far as the collector uses it. *)
Record Firestore : Type := {
  (** the documents of the collection at a path, in the stable order in
      which queries return them *)
  documents : string -> list DocumentSnapshot;
  (** [docRef.listCollections()]: the names of the sub-collections of the
      document at a path *)
  listCollections : string -> list string
}.

(** [query.startAfter(lastDoc)]: the documents that follow [lastDoc]. *)
Fixpoint startAfter (lastDoc : DocumentSnapshot) (docs : list DocumentSnapshot)
    : list DocumentSnapshot :=
  match docs with
  | [] => []
  | d :: rest => if String.eqb (id d) (id lastDoc) then rest else startAfter lastDoc rest
  end.

(** [collectionRef.limit(batchSize)], with [startAfter(lastDoc)] when a
    page has been read already, then [query.get()]. *)
Definition query_get (docs : list DocumentSnapshot) (batchSize : nat)
    (lastDoc : option DocumentSnapshot) : list DocumentSnapshot :=
  firstn batchSize
    (match lastDoc with
     | None => docs
     | Some d => startAfter d docs
     end).

(** [snapshot.docs[snapshot.docs.length - 1]] *)
Fixpoint last_doc (snapshot : list DocumentSnapshot) : option DocumentSnapshot :=
  match snapshot with
  | [] => None
  | [d] => Some d
  | _ :: rest => last_doc rest
  end.

End Store.

(* ===================================================================== *)
(** * [src/lib/jsonExporter.js] *)
(* ===================================================================== *)

Module JsonExporter.

Import Js Config Transformers Store.

(** A file written by an exporter. *)
Record File : Type := {
  directory : string;
  filename : string;
  content : string
}.

Section WithPlatform.
Context {P : Platform}.

(** The object literal with the spread of the transformed data. *)
Definition transformedDocument (doc : DocumentSnapshot) : Completion jsval :=
  match transformDocument (id doc) (Store.data doc) with
  | Throw e => Throw e
  | Normal t =>
      Normal
        (JObject (fold_left (fun o kv => set (fst kv) (snd kv) o) (Transformers.data t)
                    [("_id", JString (id doc)); ("_path", JString (path doc))]))
  end.

(** [exportToJson(collectionName, documents, onProgress)]: the file it
    writes, unless the transformation of a document throws.
    [exportedAt] is the reading [new Date().toISOString()] of the clock. *)
Definition exportToJson (cfg : Config) (collectionName : string)
    (documents : list DocumentSnapshot) (exportedAt : string) : Completion File :=
  let safeCollectionName := sanitizeFileName collectionName in
  match map_throwing transformedDocument documents with
  | Throw e => Throw e
  | Normal transformedDocuments =>
      let output :=
        JObject
          [ ("collection", JString collectionName);
            ("exportedAt", JString exportedAt);
            ("count", JNumber (Number_of_Z (Z.of_nat (List.length transformedDocuments))));
            ("documents", JArray transformedDocuments) ] in
      Normal {| directory := jsonOutputDir cfg;
                filename := safeCollectionName ++ ".json";
                content := JSON_stringify_pretty "" output |}
  end.

End WithPlatform.

End JsonExporter.

(* ===================================================================== *)
(** * [src/lib/sqlExporter.js] *)
(* ===================================================================== *)

Module SqlExporter.

Import Js Config Transformers Store JsonExporter.

Definition RESERVED_WORDS : list string :=
  [
    "ADD"; "ALL"; "ALTER"; "AND"; "ANY"; "AS"; "ASC"; "AUTHORIZATION";
    "BACKUP"; "BEGIN"; "BETWEEN"; "BREAK"; "BROWSE"; "BULK"; "BY";
    "CASCADE"; "CASE"; "CHECK"; "CHECKPOINT"; "CLOSE"; "CLUSTERED";
    "COALESCE"; "COLLATE"; "COLUMN"; "COMMIT"; "COMPUTE"; "CONSTRAINT";
    "CONTAINS"; "CONTAINSTABLE"; "CONTINUE"; "CONVERT"; "CREATE"; "CROSS";
    "CURRENT"; "CURRENT_DATE"; "CURRENT_TIME"; "CURRENT_TIMESTAMP";
    "CURRENT_USER"; "CURSOR"; "DATABASE"; "DBCC"; "DEALLOCATE"; "DECLARE";
    "DEFAULT"; "DELETE"; "DENY"; "DESC"; "DISK"; "DISTINCT"; "DISTRIBUTED";
    "DOUBLE"; "DROP"; "DUMP"; "ELSE"; "END"; "ERRLVL"; "ESCAPE"; "EXCEPT";
    "EXEC"; "EXECUTE"; "EXISTS"; "EXIT"; "EXTERNAL"; "FETCH"; "FILE";
    "FILLFACTOR"; "FOR"; "FOREIGN"; "FREETEXT"; "FREETEXTTABLE"; "FROM";
    "FULL"; "FUNCTION"; "GOTO"; "GRANT"; "GROUP"; "HAVING"; "HOLDLOCK";
    "IDENTITY"; "IDENTITY_INSERT"; "IDENTITYCOL"; "IF"; "IN"; "INDEX";
    "INNER"; "INSERT"; "INTERSECT"; "INTO"; "IS"; "JOIN"; "KEY"; "KILL";
    "LEFT"; "LIKE"; "LINENO"; "LOAD"; "MERGE"; "NATIONAL"; "NOCHECK";
    "NONCLUSTERED"; "NOT"; "NULL"; "NULLIF"; "OF"; "OFF"; "OFFSETS"; "ON";
    "OPEN"; "OPENDATASOURCE"; "OPENQUERY"; "OPENROWSET"; "OPENXML";
    "OPTION"; "OR"; "ORDER"; "OUTER"; "OVER"; "PERCENT"; "PIVOT"; "PLAN";
    "PRECISION"; "PRIMARY"; "PRINT"; "PROC"; "PROCEDURE"; "PUBLIC";
    "RAISERROR"; "READ"; "READTEXT"; "RECONFIGURE"; "REFERENCES";
    "REPLICATION"; "RESTORE"; "RESTRICT"; "RETURN"; "REVERT"; "REVOKE";
    "RIGHT"; "ROLLBACK"; "ROWCOUNT"; "ROWGUIDCOL"; "RULE"; "SAVE"; "SCHEMA";
    "SECURITYAUDIT"; "SELECT"; "SEMANTICKEYPHRASETABLE";
    "SEMANTICSIMILARITYDETAILSTABLE"; "SEMANTICSIMILARITYTABLE";
    "SESSION_USER"; "SET"; "SETUSER"; "SHUTDOWN"; "SOME"; "STATISTICS";
    "SYSTEM_USER"; "TABLE"; "TABLESAMPLE"; "TEXTSIZE"; "THEN"; "TO"; "TOP";
    "TRAN"; "TRANSACTION"; "TRIGGER"; "TRUNCATE"; "TRY_CONVERT"; "TSEQUAL";
    "UNION"; "UNIQUE"; "UNPIVOT"; "UPDATE"; "UPDATETEXT"; "USE"; "USER";
    "VALUES"; "VARYING"; "VIEW"; "WAITFOR"; "WHEN"; "WHERE"; "WHILE";
    "WITH"; "WITHIN GROUP"; "WRITETEXT"; "TYPE"; "STATUS"; "NAME"; "VALUE";
    "DATA"; "LEVEL"; "DATE"; "TIME"; "TIMESTAMP"; "YEAR"; "MONTH"; "DAY";
    "HOUR"; "MINUTE"; "SECOND"; "ZONE"; "FIRST"; "LAST"; "NEXT"; "PRIOR";
    "ABSOLUTE"; "RELATIVE"; "ACTION"
  ].

(** [needsQuoting(name)] *)
Definition needsQuoting (name : string) : bool :=
  if includes RESERVED_WORDS (toUpperCase name) then true
  else if starts_with_digit name then true
  else some_char (fun c => negb (is_word c)) name.

(** [quoteName(name)] *)
Definition quoteName (name : string) : string :=
  if needsQuoting name then
    let escaped := replace_class_str (fun c => Ascii.eqb c "]") "]]" name in
    "[" ++ escaped ++ "]"
  else name.

Definition apostrophe : ascii := "'".

Section WithPlatform.
Context {P : Platform}.

(** [escapeSqlValue(value)]; [None] is [undefined], the value of a
    column the document does not have. *)
Definition escapeSqlValue (value : option jsval) : string :=
  let quoted (text : string) : string :=
    "N'" ++ replace_class_str (fun c => Ascii.eqb c apostrophe) "''" text ++ "'" in
  match value with
  | None | Some JNull => "NULL"
  | Some (JNumber x) => if Number_isFinite x then Number_toString x else "NULL"
  | Some (JString s) => quoted s
  | Some (JArray l) => quoted (JSON_stringify (JArray l))
  | Some (JObject l) => quoted (JSON_stringify (JObject l))
  end.

(** [config.sql.schema ? `[schema].` : ''] *)
Definition schemaPrefix (cfg : Config) : string :=
  match Config.schema (sql cfg) with
  | Some s => if String.eqb s "" then "" else "[" ++ s ++ "]."
  | None => ""
  end.

Definition fullTableName (cfg : Config) (tableName : string) : string :=
  schemaPrefix cfg ++ quoteName tableName.

(** [generateCreateTable(tableName, schema)] *)
Definition generateCreateTable (cfg : Config) (tableName : string)
    (schema : obj string) : string :=
  let columns :=
    join ("," ++ newline)
      (map (fun entry => "    " ++ quoteName (fst entry) ++ " " ++ snd entry) schema) in
  (if includeDropTable (sql cfg) then
     "IF OBJECT_ID('" ++ schemaPrefix cfg ++ tableName ++ "', 'U') IS NOT NULL" ++ newline
     ++ "    DROP TABLE " ++ fullTableName cfg tableName ++ ";" ++ newline
     ++ "GO" ++ newline ++ newline
   else "")
  ++ "CREATE TABLE " ++ fullTableName cfg tableName ++ " (" ++ newline
  ++ columns
  ++ newline ++ ");" ++ newline ++ "GO" ++ newline ++ newline.

(** [escapeSqlValue(value)] for a member a row inherits from
    [Object.prototype]: a function is neither a number, a boolean nor an
    object, and is written as the literal of its text; the prototype
    itself, under [__proto__], is an object without enumerable
    properties. *)
Definition escapeSqlInherited (member : string) : string :=
  let text :=
    if String.eqb member "__proto__" then "{}"
    else Function_toString (if String.eqb member "constructor" then "Object" else member) in
  "N'" ++ replace_class_str (fun c => Ascii.eqb c apostrophe) "''" text ++ "'".

(** [generateInsert(tableName, data, columns)]; [data[col]] is read on a
    plain object. *)
Definition generateInsert (cfg : Config) (tableName : string) (data : obj jsval)
    (columns : list string) : string :=
  let columnList := join ", " (map quoteName columns) in
  let valueList :=
    join ", "
      (map (fun col =>
              match read col data with
              | Own v => escapeSqlValue (Some v)
              | Inherited member => escapeSqlInherited member
              | Undefined => escapeSqlValue None
              end) columns) in
  "INSERT INTO " ++ fullTableName cfg tableName ++ " (" ++ columnList
  ++ ") VALUES (" ++ valueList ++ ");".

(** The body of the loop of [exportToSql] over the documents. *)
Definition withPath (doc : DocumentSnapshot)
    : Completion (obj jsval * obj string) :=
  match transformDocument (id doc) (Store.data doc) with
  | Throw e => Throw e
  | Normal t =>
      Normal (set "_path" (JString (path doc)) (Transformers.data t),
              set "_path" "NVARCHAR(500)" (Transformers.schema t))
  end.

(** What [exportToSql] appends to [sql] after the three comment lines,
    given the transformed documents and their schemas. *)
Definition statementsOf (cfg : Config) (safeCollectionName : string)
    (transformed : list (obj jsval * obj string)) : string :=
  let transformedDocs := map fst transformed in
  let schemas := map snd transformed in
  let mergedSchema := mergeSchemas schemas in
  let columns := keys mergedSchema in
  let createTable :=
    if includeCreateTable (sql cfg)
    then generateCreateTable cfg safeCollectionName mergedSchema
    else "" in
  let inserts :=
    String.concat ""
      (map (fun doc => generateInsert cfg safeCollectionName doc columns ++ newline)
         transformedDocs) in
  createTable ++ "-- Data" ++ newline ++ inserts ++ "GO" ++ newline.

(** [exportToSql(collectionName, documents, onProgress)]: the file it
    writes, given the reading of the clock, unless the transformation of
    a document throws. *)
Definition exportToSql (cfg : Config) (collectionName : string)
    (documents : list DocumentSnapshot) (exportedAt : string) : Completion File :=
  let safeCollectionName := sanitizeFileName collectionName in
  match map_throwing withPath documents with
  | Throw e => Throw e
  | Normal transformed =>
      let header :=
        "-- Firestore Export: " ++ collectionName ++ newline
        ++ "-- Exported at: " ++ exportedAt ++ newline
        ++ "-- Document count: " ++ nat_to_string (List.length documents)
        ++ newline ++ newline in
      Normal {| directory := sqlOutputDir cfg;
                filename := safeCollectionName ++ ".sql";
                content := header ++ statementsOf cfg safeCollectionName transformed |}
  end.

End WithPlatform.

End SqlExporter.

(* ===================================================================== *)
(** * [src/lib/collector.js] *)
(* ===================================================================== *)

Module Collector.

Import Js Transformers Store.

(** ** [collectDocuments] *)

(** The result of [collectDocuments], with the pages it fetched. *)
Record Collected : Type := {
  collected : list DocumentSnapshot;
  pages : list (list DocumentSnapshot)
}.

(** The [while (true)] loop of [collectDocuments]; [None] when [fuel]
    iterations do not reach a [break].  The progress callback has no
    effect on the result and is left out. *)
Fixpoint collect_loop (fuel : nat) (docs : list DocumentSnapshot) (batchSize : nat)
    (acc : list DocumentSnapshot) (lastDoc : option DocumentSnapshot)
    (fetched : list (list DocumentSnapshot)) : option Collected :=
  match fuel with
  | O => None
  | S fuel' =>
      let snapshot := query_get docs batchSize lastDoc in
      let fetched := (fetched ++ [snapshot])%list in
      match snapshot with
      | [] => Some {| collected := acc; pages := fetched |}
      | _ :: _ =>
          let acc := (acc ++ snapshot)%list in
          let lastDoc := last_doc snapshot in
          if (List.length snapshot <? batchSize)%nat
          then Some {| collected := acc; pages := fetched |}
          else collect_loop fuel' docs batchSize acc lastDoc fetched
      end
  end.

(** [collectDocuments(collectionRef, onProgress)] on the collection with
    the documents [docs]. *)
Definition collectDocuments (fuel : nat) (docs : list DocumentSnapshot)
    (batchSize : nat) : option Collected :=
  collect_loop fuel docs batchSize [] None [].

(** ** [normalizeCollectionPath] *)

Definition normalizeCollectionPath (path : string) : string :=
  let parts := split "/" path in
  let collectionParts := filteri (fun _ index => (index mod 2 =? 0)%nat) parts in
  join "__" collectionParts.

(** ** [streamCollections] *)

(** A record [{ id, data, path }] kept for a table. *)
Definition DocumentRecord : Type := DocumentSnapshot.

Record Results : Type := {
  totalDocs : nat;
  subcollections : nat;
  jsonFiles : nat;
  sqlFiles : nat
}.

(** What the traversal asks of the store and of the exporters. *)
Inductive Event : Type :=
| Collect (path : string)
| ListCollections (docPath : string)
| ExportToJson (normalizedPath : string) (docs : list DocumentRecord)
| ExportToSql (normalizedPath : string) (docs : list DocumentRecord).

Record QueueItem : Type := { qpath : string; depth : nat }.

(** The local state of [streamCollections]. *)
Record State : Type := {
  results : Results;
  documentsByPath : obj (list DocumentRecord);
  queue : list QueueItem;
  processedPaths : list string;
  log : list Event
}.

(** The inner loops over the documents of a collection and over the
    sub-collections of each: the paths pushed on the queue, and the
    listing requests made. *)
Definition subcollection_items (db : Firestore) (processedPaths : list string)
    (depth : nat) (doc : DocumentSnapshot) : list QueueItem :=
  map (fun p => {| qpath := p; depth := S depth |})
    (filter (fun p => negb (includes processedPaths p))
       (map (fun subcollectionName => path doc ++ "/" ++ subcollectionName)
          (listCollections db (path doc)))).

(** One iteration of [while (queue.length > 0)] after [queue.shift()]
    returned [item]; [None] when [collectDocuments] does not return. *)
Definition visit (fuel : nat) (db : Firestore) (batchSize : nat) (st : State)
    (item : QueueItem) (rest : list QueueItem) : option State :=
  if includes (processedPaths st) (qpath item) then
    Some {| results := results st; documentsByPath := documentsByPath st;
            queue := rest; processedPaths := processedPaths st; log := log st |}
  else
    let processed := (processedPaths st ++ [qpath item])%list in
    match collectDocuments fuel (documents db (qpath item)) batchSize with
    | None => None
    | Some c =>
        let docs := collected c in
        let log1 := (log st ++ [Collect (qpath item)])%list in
        match docs with
        | [] =>
            Some {| results := results st; documentsByPath := documentsByPath st;
                    queue := rest; processedPaths := processed; log := log1 |}
        | _ :: _ =>
            let normalizedPath := normalizeCollectionPath (qpath item) in
            let isNew := negb (hasOwnProperty (documentsByPath st) normalizedPath) in
            let previous :=
              match get normalizedPath (documentsByPath st) with
              | Some l => l
              | None => []
              end in
            Some {| results :=
                      {| totalDocs := totalDocs (results st) + List.length docs;
                         subcollections :=
                           if isNew && (0 <? depth item)%nat
                           then S (subcollections (results st))
                           else subcollections (results st);
                         jsonFiles := jsonFiles (results st);
                         sqlFiles := sqlFiles (results st) |};
                    documentsByPath :=
                      set normalizedPath (previous ++ docs)%list (documentsByPath st);
                    queue :=
                      (rest ++ flat_map (subcollection_items db processed (depth item)) docs)%list;
                    processedPaths := processed;
                    log := (log1 ++ map (fun d => ListCollections (path d)) docs)%list |}
        end
    end.

(** The loop [while (queue.length > 0)]; [None] when [fuel] iterations do
    not empty the queue. *)
Fixpoint traverse (fuel : nat) (db : Firestore) (batchSize : nat) (st : State)
    : option State :=
  match queue st with
  | [] => Some st
  | item :: rest =>
      match fuel with
      | O => None
      | S fuel' =>
          match visit fuel db batchSize st item rest with
          | None => None
          | Some st' => traverse fuel' db batchSize st'
          end
      end
  end.

(** Whether a call of an exporter throws (a failing write, say). *)
Record Sinks : Type := {
  json_throws : string -> list DocumentRecord -> bool;
  sql_throws : string -> list DocumentRecord -> bool
}.

(** How the export loop ends. *)
Inductive Outcome : Type :=
| Returned
| Thrown.

(** The body of the [try] block for one table: the results, the exporter
    calls made, and whether an exception reached the [catch]. *)
Definition export_table (sinks : Sinks) (format : string) (r : Results)
    (normalizedPath : string) (docs : list DocumentRecord)
    : Results * list Event * bool :=
  let wantsJson := String.eqb format "json" || String.eqb format "both" in
  let wantsSql := String.eqb format "sql" || String.eqb format "both" in
  let '(r1, log1, failed1) :=
    if wantsJson then
      if json_throws sinks normalizedPath docs
      then (r, [ExportToJson normalizedPath docs], true)
      else ({| totalDocs := totalDocs r; subcollections := subcollections r;
               jsonFiles := S (jsonFiles r); sqlFiles := sqlFiles r |},
            [ExportToJson normalizedPath docs], false)
    else (r, [], false) in
  if failed1 then (r1, log1, true)
  else if wantsSql then
    if sql_throws sinks normalizedPath docs
    then (r1, (log1 ++ [ExportToSql normalizedPath docs])%list, true)
    else ({| totalDocs := totalDocs r1; subcollections := subcollections r1;
             jsonFiles := jsonFiles r1; sqlFiles := S (sqlFiles r1) |},
          (log1 ++ [ExportToSql normalizedPath docs])%list, false)
  else (r1, log1, false).

(** The loop [for (const [normalizedPath, documents] of documentsByPath)]. *)
Fixpoint export_tables (sinks : Sinks) (continueOnError : bool) (format : string)
    (tables : obj (list DocumentRecord)) (r : Results) (log : list Event)
    : Results * list Event * Outcome :=
  match tables with
  | [] => (r, log, Returned)
  | (normalizedPath, docs) :: tables' =>
      match docs with
      | [] => export_tables sinks continueOnError format tables' r log
      | _ :: _ =>
          let '(r', calls, failed) := export_table sinks format r normalizedPath docs in
          if failed && negb continueOnError
          then (r', (log ++ calls)%list, Thrown)
          else export_tables sinks continueOnError format tables' r' (log ++ calls)%list
      end
  end.

(** What a run of [streamCollections] leaves behind. *)
Record Run : Type := {
  final : State;
  outcome : Outcome
}.

Definition initial_state (collectionName : string) : State :=
  {| results := {| totalDocs := 0; subcollections := 0; jsonFiles := 0; sqlFiles := 0 |};
     documentsByPath := [];
     queue := [{| qpath := collectionName; depth := 0 |}];
     processedPaths := [];
     log := [] |}.

(** [streamCollections(collectionName, format, onProgress)]; the state
    after the export loop holds the returned [results]. *)
Definition streamCollections (fuel : nat) (db : Firestore) (sinks : Sinks)
    (batchSize : nat) (continueOnError : bool)
    (collectionName : string) (format : string) : option Run :=
  match traverse fuel db batchSize (initial_state collectionName) with
  | None => None
  | Some st =>
      let '(r, log', out) :=
        export_tables sinks continueOnError format (documentsByPath st)
          (results st) (log st) in
      Some {| final := {| results := r; documentsByPath := documentsByPath st;
                          queue := queue st; processedPaths := processedPaths st;
                          log := log' |};
              outcome := out |}
  end.

End Collector.
(* ===================================================================== *)
(** * The export driver with the resume state file *)
(* ===================================================================== *)

Module Index.

Import Js.

(** The [lastError] entry of the state. *)
Record LastError : Type := { collection : string; error : string }.

(** The contents of the state file [.export-state.json]. *)
Record ExportState : Type := {
  format : string;
  requestedCollections : list string;
  completed : list string;
  startedAt : string;
  lastUpdated : string;
  lastError : option LastError
}.

(** The command-line options the driver reads. *)
Record Options : Type := {
  opt_format : string;
  opt_resume : bool;
  opt_reset : bool
}.

(** What the driver finds around it.  How [initializeFirebase(options.key)]
    ends ([None]: it returns; [Some message]: it throws, as it does when
    the key file is missing); how [getRootCollections()] ends (the names
    of the root collections, or the message of the error it throws); how
    [streamCollections] ends for a root collection; the successive
    readings of the clock; and how the calls of [writeFileSync] and of
    [unlinkSync] on the state file end, each call being named by the
    number of events of the run before it. *)
Record Environment : Type := {
  initializeFirebase : option string;
  getRootCollections : list string + string;
  stream : string -> option string;
  clock : nat -> string;
  writeFileSync : nat -> option string;
  unlinkSync : nat -> option string
}.

Inductive DriverEvent : Type :=
| Streamed (collectionName : string) (thrown : option string)
| Saved (state : ExportState)
| Cleared
| SaveFailed (state : ExportState) (message : string)
| ClearFailed (message : string).

(** The state file, what the driver did, and the clock readings used.
    The state file is absent, or it holds a state as [saveState] writes
    it, which [loadState] then reads back. *)
Record Machine : Type := {
  file : option ExportState;
  events : list DriverEvent;
  ticks : nat
}.

(** [loadState()] *)
Definition loadState (m : Machine) : option ExportState := file m.

(** [saveState(state)]: the call of [writeFileSync] is not guarded, and
    its error is thrown to the caller. *)
Definition saveState (env : Environment) (state : ExportState) (m : Machine)
    : Machine * option string :=
  match writeFileSync env (List.length (events m)) with
  | None =>
      ({| file := Some state; events := (events m ++ [Saved state])%list;
          ticks := ticks m |}, None)
  | Some message =>
      ({| file := file m; events := (events m ++ [SaveFailed state message])%list;
          ticks := ticks m |}, Some message)
  end.

(** [clearState()]: the call of [unlinkSync] is not guarded either. *)
Definition clearState (env : Environment) (m : Machine) : Machine * option string :=
  match file m with
  | Some _ =>
      match unlinkSync env (List.length (events m)) with
      | None =>
          ({| file := None; events := (events m ++ [Cleared])%list;
              ticks := ticks m |}, None)
      | Some message =>
          ({| file := file m; events := (events m ++ [ClearFailed message])%list;
              ticks := ticks m |}, Some message)
      end
  | None => (m, None)
  end.

(** [new Date().toISOString()] *)
Definition now (env : Environment) (m : Machine) : string * Machine :=
  (clock env (ticks m),
   {| file := file m; events := events m; ticks := S (ticks m) |}).

(** The validation of a saved state against the current options. *)
Definition sameFormat (options : Options) (savedState : ExportState) : bool :=
  String.eqb (format savedState) (opt_format options).

Definition sameCollections (collectionsToExport : list string)
    (savedState : ExportState) : bool :=
  String.eqb (JSON_stringify_strings (Array_sort (requestedCollections savedState)))
             (JSON_stringify_strings (Array_sort collectionsToExport)).

(** What the resume check decides. *)
Record ResumePlan : Type := {
  completedCollections : list string;
  resuming : bool;
  (** the requested collections afterwards: the check sorts them in place *)
  collectionsAfter : list string
}.

(** The block [if (options.resume) { ... }] of [main]. *)
Definition resumeCheck (options : Options) (collectionsToExport : list string)
    (m : Machine) : ResumePlan :=
  if opt_resume options then
    match loadState m with
    | Some savedState =>
        if sameFormat options savedState && sameCollections collectionsToExport savedState
        then {| completedCollections := Set_from (completed savedState);
                resuming := true;
                collectionsAfter := Array_sort collectionsToExport |}
        else {| completedCollections := [];
                resuming := false;
                collectionsAfter := Array_sort collectionsToExport |}
    | None => {| completedCollections := []; resuming := false;
                 collectionsAfter := collectionsToExport |}
    end
  else {| completedCollections := []; resuming := false;
          collectionsAfter := collectionsToExport |}.

(** [collectionsToExport.filter(c => !completedCollections.has(c))] *)
Definition remainingCollections (plan : ResumePlan) : list string :=
  filter (fun c => negb (includes (completedCollections plan) c)) (collectionsAfter plan).

Definition with_completed (state : ExportState) (name : string) (time : string)
    : ExportState :=
  {| format := format state;
     requestedCollections := requestedCollections state;
     completed := (completed state ++ [name])%list;
     startedAt := startedAt state;
     lastUpdated := time;
     lastError := lastError state |}.

Definition with_error (state : ExportState) (name message : string) (time : string)
    : ExportState :=
  {| format := format state;
     requestedCollections := requestedCollections state;
     completed := completed state;
     startedAt := startedAt state;
     lastUpdated := time;
     lastError := Some {| collection := name; error := message |} |}.

(** The loop over [remainingCollections]; the result tells whether an
    error was thrown out of the loop, and with which message.  The body
    is a [try] block with the call of [streamCollections] and, after it,
    the push to [completed] and the first [saveState]; the [catch] block
    records the error, saves the state again, and throws the error again
    unless [continueOnError] is set.  An error of the [saveState] of the
    [catch] block leaves the loop. *)
Fixpoint exportLoop (env : Environment) (continueOnError : bool)
    (remaining : list string) (currentState : ExportState) (m : Machine)
    : Machine * option string :=
  match remaining with
  | [] => (m, None)
  | collectionName :: rest =>
      let thrown := stream env collectionName in
      let m := {| file := file m;
                  events := (events m ++ [Streamed collectionName thrown])%list;
                  ticks := ticks m |} in
      let '(caught, currentState, m) :=
        match thrown with
        | Some message => (Some message, currentState, m)
        | None =>
            let '(time, m) := now env m in
            let currentState := with_completed currentState collectionName time in
            let '(m, failed) := saveState env currentState m in
            (failed, currentState, m)
        end in
      match caught with
      | None => exportLoop env continueOnError rest currentState m
      | Some message =>
          let '(time, m) := now env m in
          let currentState := with_error currentState collectionName message time in
          match saveState env currentState m with
          | (m, Some failure) => (m, Some failure)
          | (m, None) =>
              if continueOnError
              then exportLoop env continueOnError rest currentState m
              else (m, Some message)
          end
      end
  end.

(** The result of a run of the driver. *)
Record Exit : Type := {
  machine : Machine;
  exitCode : nat
}.

(** The collections to export: the requested ones, or the root
    collections of the store when none is requested. *)
Definition collectionsToExport (env : Environment) (requestedCollections : list string)
    : list string + string :=
  if (List.length requestedCollections =? 0)%nat
  then getRootCollections env
  else inl requestedCollections.

(** The [try] block of [main]; the result tells whether it threw. *)
Definition main_try (env : Environment) (continueOnError : bool) (options : Options)
    (requestedCollections : list string) (m : Machine) : Machine * option string :=
  match initializeFirebase env with
  | Some message => (m, Some message)
  | None =>
      match collectionsToExport env requestedCollections with
      | inr message => (m, Some message)
      | inl collectionsToExport =>
          let plan := resumeCheck options collectionsToExport m in
          let remaining := remainingCollections plan in
          if (List.length remaining =? 0)%nat && resuming plan then clearState env m
          else
            let '(started, m) :=
              if resuming plan
              then (match loadState m with
                    | Some savedState => startedAt savedState
                    | None => ""
                    end, m)
              else now env m in
            let '(updated, m) := now env m in
            let currentState :=
              {| format := opt_format options;
                 requestedCollections := collectionsAfter plan;
                 completed := completedCollections plan;
                 startedAt := started;
                 lastUpdated := updated;
                 lastError := None |} in
            match exportLoop env continueOnError remaining currentState m with
            | (m, Some message) => (m, Some message)
            | (m, None) => clearState env m
            end
      end
  end.

(** [main()], given the requested collections: the names of the option
    [--collections], or [config.collections] without it.  The
    [clearState] of [--reset] comes before the [try] block, and its error
    ends the process as an unhandled rejection; an error of the [try]
    block is caught, and the process ends with [process.exit(1)]. *)
Definition main (env : Environment) (continueOnError : bool) (options : Options)
    (requestedCollections : list string) (m : Machine) : Exit :=
  match (if opt_reset options then clearState env m else (m, None)) with
  | (m, Some _) => {| machine := m; exitCode := 1 |}
  | (m, None) =>
      match main_try env continueOnError options requestedCollections m with
      | (m, None) => {| machine := m; exitCode := 0 |}
      | (m, Some _) => {| machine := m; exitCode := 1 |}
      end
  end.

End Index.
(* ===================================================================== *)
(** * [src/convert.js] *)
(* ===================================================================== *)

Module Convert.

Import Js.

(** The words of the set [RESERVED_WORDS] of the converter. *)
Definition RESERVED_WORDS : list string :=
  [
    "ADD"; "ALL"; "ALTER"; "AND"; "ANY"; "AS"; "ASC"; "AUTHORIZATION";
    "BACKUP"; "BEGIN"; "BETWEEN"; "BREAK"; "BROWSE"; "BULK"; "BY";
    "CASCADE"; "CASE"; "CHECK"; "CHECKPOINT"; "CLOSE"; "CLUSTERED";
    "COALESCE"; "COLLATE"; "COLUMN"; "COMMIT"; "COMPUTE"; "CONSTRAINT";
    "CONTAINS"; "CONTAINSTABLE"; "CONTINUE"; "CONVERT"; "CREATE"; "CROSS";
    "CURRENT"; "CURRENT_DATE"; "CURRENT_TIME"; "CURRENT_TIMESTAMP";
    "CURRENT_USER"; "CURSOR"; "DATABASE"; "DBCC"; "DEALLOCATE"; "DECLARE";
    "DEFAULT"; "DELETE"; "DENY"; "DESC"; "DISK"; "DISTINCT"; "DISTRIBUTED";
    "DOUBLE"; "DROP"; "DUMP"; "ELSE"; "END"; "ERRLVL"; "ESCAPE"; "EXCEPT";
    "EXEC"; "EXECUTE"; "EXISTS"; "EXIT"; "EXTERNAL"; "FETCH"; "FILE";
    "FILLFACTOR"; "FOR"; "FOREIGN"; "FREETEXT"; "FREETEXTTABLE"; "FROM";
    "FULL"; "FUNCTION"; "GOTO"; "GRANT"; "GROUP"; "HAVING"; "HOLDLOCK";
    "IDENTITY"; "IDENTITY_INSERT"; "IDENTITYCOL"; "IF"; "IN"; "INDEX";
    "INNER"; "INSERT"; "INTERSECT"; "INTO"; "IS"; "JOIN"; "KEY"; "KILL";
    "LEFT"; "LIKE"; "LINENO"; "LOAD"; "MERGE"; "NATIONAL"; "NOCHECK";
    "NONCLUSTERED"; "NOT"; "NULL"; "NULLIF"; "OF"; "OFF"; "OFFSETS"; "ON";
    "OPEN"; "OPENDATASOURCE"; "OPENQUERY"; "OPENROWSET"; "OPENXML";
    "OPTION"; "OR"; "ORDER"; "OUTER"; "OVER"; "PERCENT"; "PIVOT"; "PLAN";
    "PRECISION"; "PRIMARY"; "PRINT"; "PROC"; "PROCEDURE"; "PUBLIC";
    "RAISERROR"; "READ"; "READTEXT"; "RECONFIGURE"; "REFERENCES";
    "REPLICATION"; "RESTORE"; "RESTRICT"; "RETURN"; "REVERT"; "REVOKE";
    "RIGHT"; "ROLLBACK"; "ROWCOUNT"; "ROWGUIDCOL"; "RULE"; "SAVE"; "SCHEMA";
    "SECURITYAUDIT"; "SELECT"; "SESSION_USER"; "SET"; "SETUSER"; "SHUTDOWN";
    "SOME"; "STATISTICS"; "SYSTEM_USER"; "TABLE"; "TABLESAMPLE"; "TEXTSIZE";
    "THEN"; "TO"; "TOP"; "TRAN"; "TRANSACTION"; "TRIGGER"; "TRUNCATE";
    "UNION"; "UNIQUE"; "UNPIVOT"; "UPDATE"; "UPDATETEXT"; "USE"; "USER";
    "VALUES"; "VARYING"; "VIEW"; "WAITFOR"; "WHEN"; "WHERE"; "WHILE";
    "WITH"; "WRITETEXT"; "TYPE"; "STATUS"; "NAME"; "VALUE"; "DATA"; "LEVEL"
  ].

(** A value read by [JSON.parse]. *)
Inductive json : Type :=
| JsonNull
| JsonBoolean (b : bool)
| JsonNumber (x : number)
| JsonString (s : string)
| JsonArray (l : list json)
| JsonObject (l : list (string * json)).

(** [quoteName(name)] of the converter *)
Definition quoteName (name : string) : string :=
  if includes RESERVED_WORDS (toUpperCase name)
     || some_char (fun c => negb (is_word c)) name
  then "[" ++ name ++ "]"
  else name.

Section WithPlatform.
Context {P : Platform}.

(** [JSON.stringify(v)] on a value read by [JSON.parse]. *)
Fixpoint JSON_stringify (v : json) : string :=
  match v with
  | JsonNull => "null"
  | JsonBoolean b => if b then "true" else "false"
  | JsonNumber x => if Number_isFinite x then Number_toString x else "null"
  | JsonString s => JSON_quote s
  | JsonArray l => "[" ++ join "," (map JSON_stringify l) ++ "]"
  | JsonObject l =>
      "{" ++ join "," (map (fun kv => JSON_quote (fst kv) ++ ":" ++ JSON_stringify (snd kv)) l)
      ++ "}"
  end.

(** [String(x)] for any number. *)
Definition Number_String (x : number) : string :=
  match x with
  | S754_nan => "NaN"
  | S754_infinity false => "Infinity"
  | S754_infinity true => "-Infinity"
  | _ => Number_toString x
  end.

(** [escapeSqlValue(value)] of the converter; [None] is [undefined], the
    value of a column the document does not have. *)
Definition escapeSqlValue (value : option json) : string :=
  let quoted (text : string) : string :=
    "N'" ++ replace_class_str (fun c => Ascii.eqb c "'") "''" text ++ "'" in
  match value with
  | None | Some JsonNull => "NULL"
  | Some (JsonNumber x) => Number_String x
  | Some (JsonBoolean b) => if b then "1" else "0"
  | Some (JsonString s) => quoted s
  | Some (JsonArray l) => quoted (JSON_stringify (JsonArray l))
  | Some (JsonObject l) => quoted (JSON_stringify (JsonObject l))
  end.

End WithPlatform.

(** A regular expression that is a sequence of character classes
    anchored at the start of the string. *)
Fixpoint test_prefix (classes : list (ascii -> bool)) (s : string) : bool :=
  match classes with
  | [] => true
  | p :: classes' =>
      match s with
      | EmptyString => false
      | String c s' => p c && test_prefix classes' s'
      end
  end.

(** The pattern of four digits, a dash, two digits, a dash, two digits,
    the letter T, and three groups of two digits with colons between
    them, with which [inferSqlType] recognizes a date and time. *)
Definition datetime_pattern : list (ascii -> bool) :=
  let d := is_digit in
  let lit (a : ascii) := fun c => Ascii.eqb c a in
  [ d; d; d; d; lit "-"%char; d; d; lit "-"%char; d; d; lit "T"%char;
    d; d; lit ":"%char; d; d; lit ":"%char; d; d ].

(** [inferSqlType(value)]; [None] is [undefined]. *)
Definition inferSqlType (value : option json) : string :=
  match value with
  | None | Some JsonNull => "NVARCHAR(MAX)"
  | Some (JsonBoolean _) => "BIT"
  | Some (JsonNumber x) =>
      if Number_isInteger x then
        if Number_geb x (Number_of_Z (-2147483648))
           && Number_leb x (Number_of_Z 2147483647)
        then "INT"
        else "BIGINT"
      else "FLOAT"
  | Some (JsonString s) =>
      if test_prefix datetime_pattern s then "DATETIME2"
      else
        let length := String.length s in
        if (length <=? 50)%nat then "NVARCHAR(50)"
        else if (length <=? 255)%nat then "NVARCHAR(255)"
        else if (length <=? 1000)%nat then "NVARCHAR(1000)"
        else if (length <=? 4000)%nat then "NVARCHAR(4000)"
        else "NVARCHAR(MAX)"
  | Some (JsonArray _) | Some (JsonObject _) => "NVARCHAR(MAX)"
  end.

Definition typeOrder : list string :=
  [ "BIT"; "INT"; "BIGINT"; "FLOAT";
    "NVARCHAR(50)"; "NVARCHAR(255)"; "NVARCHAR(1000)"; "NVARCHAR(4000)";
    "NVARCHAR(MAX)"; "DATETIME2" ].

Definition numericTypes : list string := [ "BIT"; "INT"; "BIGINT"; "FLOAT" ].

(** [getWiderType(type1, type2)] of the converter *)
Definition getWiderType (type1 type2 : string) : string :=
  if String.eqb type1 type2 then type1
  else if String.eqb type1 "NVARCHAR(MAX)" || String.eqb type2 "NVARCHAR(MAX)"
  then "NVARCHAR(MAX)"
  else
    let isNumeric1 := includes numericTypes type1 in
    let isNumeric2 := includes numericTypes type2 in
    if negb (Bool.eqb isNumeric1 isNumeric2) then "NVARCHAR(MAX)"
    else
      let index1 := indexOf typeOrder type1 in
      let index2 := indexOf typeOrder type2 in
      if (index1 >? index2)%Z then type1 else type2.

(** [getWiderType(type1, type2)] of the converter when [type1] is not a
    type name but a member inherited from [Object.prototype]: it is equal
    to no string, it is not in the array of the numeric types, and its
    index [-1] is never above the index of [type2]. *)
Definition getWiderType_member (type2 : string) : string :=
  if String.eqb type2 "NVARCHAR(MAX)" then "NVARCHAR(MAX)"
  else
    let isNumeric1 := false in
    let isNumeric2 := includes numericTypes type2 in
    if negb (Bool.eqb isNumeric1 isNumeric2) then "NVARCHAR(MAX)"
    else type2.

(** The body of the loop over [Object.entries(doc)] that builds the
    schema in [convertJsonToSql].  [schema] is a plain object:
    [schema[key]] is an inherited member, which is truthy, for a key not
    in the schema yet that is named like a member of [Object.prototype],
    and an assignment to [schema.__proto__] of a type name is ignored. *)
Definition schemaField (schema : obj string) (entry : string * json) : obj string :=
  let key := fst entry in
  let sqlType := inferSqlType (Some (snd entry)) in
  match read key schema with
  | Undefined => assign key sqlType schema
  | Own t =>
      if String.eqb t "" then assign key sqlType schema
      else assign key (getWiderType t sqlType) schema
  | Inherited _ => assign key (getWiderType_member sqlType) schema
  end.

(** The schema [convertJsonToSql] builds from the documents of a file,
    each an object given by its entries, in the order of
    [Object.entries]. *)
Definition buildSchema (documents : list (obj json)) : obj string :=
  fold_left (fun schema doc => fold_left schemaField doc schema) documents [].

End Convert.
(* ===================================================================== *)
(** * Concrete inputs for the examples *)
(* ===================================================================== *)

Module Examples.

Import Js Transformers Store Collector.

(** A platform for concrete evaluation.  The examples contain no
    fractional number, timestamp or byte string, so these renderings are
    never consulted. *)
Definition example_platform : Platform := {|
  float_toString := fun _ => "";
  Function_toString := fun name => "function " ++ name ++ "() { [native code] }";
  Timestamp_toISOString := fun _ _ => "";
  Date_toISOString := fun _ => "";
  bytes_toBase64 := fun _ => ""
|}.

Definition user (name : string) : DocumentSnapshot :=
  {| id := name; data := []; path := "users/" ++ name |}.

Definition order (name : string) : DocumentSnapshot :=
  {| id := name; data := []; path := "users/u1/orders/" ++ name |}.

(** [users] holds [u1] and [u2]; [u1] has the sub-collection [orders]
    with one document. *)
Definition example_db : Firestore := {|
  documents := fun p =>
    if String.eqb p "users" then [user "u1"; user "u2"]
    else if String.eqb p "users/u1/orders" then [order "o1"]
    else [];
  listCollections := fun p =>
    if String.eqb p "users/u1" then ["orders"] else []
|}.

(** Exporters that never throw. *)
Definition reliable_sinks : Sinks := {|
  json_throws := fun _ _ => false;
  sql_throws := fun _ _ => false
|}.

End Examples.

(* ===================================================================== *)
(** * Facts about plain objects and maps *)
(* ===================================================================== *)

Module ObjectFacts.

Import Js.


Section Objects.
Context {A : Type}.
Implicit Types (o : obj A) (k : string) (v : A).

Lemma get_set_same o k v : get k (set k v o) = Some v.
Proof.
  induction o as [| [k' v'] o IH]; cbn.
  - now rewrite String.eqb_refl.
  - destruct (String.eqb k' k) eqn:E; cbn; rewrite E; auto.
Qed.

Lemma get_set_other o k k' v : k <> k' -> get k' (set k v o) = get k' o.
Proof.
  intros Hne. induction o as [| [k0 v0] o IH]; cbn.
  - destruct (String.eqb_spec k k'); [contradiction | reflexivity].
  - destruct (String.eqb_spec k0 k) as [-> | Hk]; cbn.
    + destruct (String.eqb_spec k k'); [contradiction | reflexivity].
    + now rewrite IH.
Qed.

Lemma hasOwnProperty_keys o k : hasOwnProperty o k = true <-> In k (keys o).
Proof.
  unfold hasOwnProperty. induction o as [| [k' v'] o IH]; cbn.
  - split; [discriminate | tauto].
  - destruct (String.eqb_spec k' k) as [-> | Hk].
    + split; auto.
    + rewrite IH. split; [auto | intros [H | H]; [contradiction | assumption]].
Qed.

Lemma hasOwnProperty_set_same o k v : hasOwnProperty (set k v o) k = true.
Proof. unfold hasOwnProperty. now rewrite get_set_same. Qed.

Lemma hasOwnProperty_set_other o k k' v :
  k <> k' -> hasOwnProperty (set k v o) k' = hasOwnProperty o k'.
Proof. intros H. unfold hasOwnProperty. now rewrite get_set_other. Qed.

Lemma hasOwnProperty_set_mono o k k' v :
  hasOwnProperty o k' = true -> hasOwnProperty (set k v o) k' = true.
Proof.
  intros H. destruct (String.eqb_spec k k') as [-> | Hne].
  - apply hasOwnProperty_set_same.
  - now rewrite hasOwnProperty_set_other.
Qed.

Lemma keys_set o k v :
  keys (set k v o) = if hasOwnProperty o k then keys o else (keys o ++ [k])%list.
Proof.
  unfold hasOwnProperty, keys. induction o as [| [k' v'] o IH]; cbn.
  - reflexivity.
  - destruct (String.eqb_spec k' k) as [-> | Hk]; cbn.
    + reflexivity.
    + rewrite IH. now destruct (get k o).
Qed.

Lemma NoDup_snoc (l : list string) (k : string) :
  NoDup l -> ~ In k l -> NoDup (l ++ [k])%list.
Proof.
  intros Hl Hk. induction Hl as [| x l Hx Hl IH]; cbn.
  - constructor; [tauto | constructor].
  - constructor.
    + intros Hin. apply in_app_or in Hin as [Hin | [-> | []]]; [contradiction |].
      apply Hk. now left.
    + apply IH. intros Hin. apply Hk. now right.
Qed.

Lemma NoDup_keys_set o k v : NoDup (keys o) -> NoDup (keys (set k v o)).
Proof.
  intros H. rewrite keys_set. destruct (hasOwnProperty o k) eqn:E; [exact H |].
  apply NoDup_snoc; [exact H |]. intros Hin.
  apply hasOwnProperty_keys in Hin. congruence.
Qed.

Lemma Forall_values_set (Q : A -> Prop) o k v :
  Forall (fun kv => Q (snd kv)) o -> Q v -> Forall (fun kv => Q (snd kv)) (set k v o).
Proof.
  intros Ho Hv. induction Ho as [| [k' v'] o Hkv Ho IH]; cbn.
  - now repeat constructor.
  - destruct (String.eqb k' k); constructor; auto.
Qed.

Lemma get_In o k v : get k o = Some v -> In (k, v) o.
Proof.
  induction o as [| [k' v'] o IH]; cbn; [discriminate |].
  destruct (String.eqb_spec k' k) as [-> | _].
  - intros H. injection H as ->. now left.
  - intros H. right. now apply IH.
Qed.

Lemma get_assign_same o k v : k <> "__proto__" -> get k (assign k v o) = Some v.
Proof.
  intros Hk. unfold assign.
  destruct (String.eqb_spec k "__proto__") as [E | _]; [contradiction |].
  apply get_set_same.
Qed.

Lemma get_assign_other o k k' v : k <> k' -> get k' (assign k v o) = get k' o.
Proof.
  intros Hk. unfold assign.
  destruct (String.eqb k "__proto__" && negb (hasOwnProperty o k)); [reflexivity |].
  now apply get_set_other.
Qed.

(** Either the assignment is ignored, or it defines the property. *)
Lemma assign_cases o k v :
  (k = "__proto__" /\ hasOwnProperty o k = false /\ assign k v o = o)
  \/ assign k v o = set k v o.
Proof.
  unfold assign. destruct (String.eqb_spec k "__proto__") as [-> | _]; [| now right].
  destruct (hasOwnProperty o "__proto__") eqn:E; [now right | now left].
Qed.

Lemma keys_assign o k v :
  keys (assign k v o)
  = if hasOwnProperty o k then keys o
    else if String.eqb k "__proto__" then keys o else (keys o ++ [k])%list.
Proof.
  unfold assign. destruct (hasOwnProperty o k) eqn:E, (String.eqb k "__proto__");
    cbn [andb negb]; rewrite ?keys_set, ?E; reflexivity.
Qed.

Lemma Forall_values_assign (Q : A -> Prop) o k v :
  Forall (fun kv => Q (snd kv)) o -> Q v -> Forall (fun kv => Q (snd kv)) (assign k v o).
Proof.
  intros Ho Hv. destruct (assign_cases o k v) as [[_ [_ ->]] | ->];
    [exact Ho | now apply Forall_values_set].
Qed.

End Objects.

Lemma map_throwing_Normal {A B : Type} (f : A -> Completion B) (l : list A) :
  forall out, map_throwing f l = Normal out -> Forall2 (fun x y => f x = Normal y) l out.
Proof.
  induction l as [| x l IH]; intros out H; cbn [map_throwing] in H.
  - injection H as <-. constructor.
  - destruct (f x) as [y | e] eqn:Hx; [| discriminate].
    destruct (map_throwing f l) as [ys | e]; [| discriminate].
    injection H as <-. constructor; [exact Hx | now apply IH].
Qed.

End ObjectFacts.

(* ===================================================================== *)
(** * Facts about strings *)
(* ===================================================================== *)

Module StringFacts.

Lemma append_assoc (a b c : string) : (a ++ b) ++ c = a ++ (b ++ c).
Proof. induction a; cbn; [reflexivity | now f_equal]. Qed.

Lemma append_inj_l (s a b : string) : s ++ a = s ++ b -> a = b.
Proof. induction s; cbn; intros H; [assumption | injection H; auto]. Qed.

Lemma length_append (a b : string) :
  String.length (a ++ b) = (String.length a + String.length b)%nat.
Proof. induction a; cbn; auto. Qed.

End StringFacts.

(* ===================================================================== *)
(** * Schema widening: the lattice laws *)
(* ===================================================================== *)

Module WidenLaws.

Import Js Transformers.

(** The three lattice laws at one triple of types, as a boolean. *)
Definition lattice_laws_at (a b c : string) : bool :=
  String.eqb (getWiderType a a) a
  && String.eqb (getWiderType a b) (getWiderType b a)
  && String.eqb (getWiderType (getWiderType a b) c)
                (getWiderType a (getWiderType b c)).

Definition lattice_laws_on (l : list string) : bool :=
  forallb (fun a => forallb (fun b => forallb (lattice_laws_at a b) l) l) l.

Lemma lattice_laws_on_hierarchy : lattice_laws_on typeHierarchy = true.
Proof. vm_compute. reflexivity. Qed.

Lemma getWiderType_idem (a : string) : getWiderType a a = a.
Proof. unfold getWiderType. now rewrite String.eqb_refl. Qed.

Lemma lattice_laws_on_sound (l : list string) (a b c : string) :
  lattice_laws_on l = true -> In a l -> In b l -> In c l ->
  getWiderType a a = a
  /\ getWiderType a b = getWiderType b a
  /\ getWiderType (getWiderType a b) c = getWiderType a (getWiderType b c).
Proof.
  unfold lattice_laws_on. intros H Ha Hb Hc.
  rewrite forallb_forall in H. specialize (H a Ha).
  rewrite forallb_forall in H. specialize (H b Hb).
  rewrite forallb_forall in H. specialize (H c Hc).
  unfold lattice_laws_at in H.
  apply andb_prop in H as [H Hassoc].
  apply andb_prop in H as [Hidem Hcomm].
  apply String.eqb_eq in Hidem. apply String.eqb_eq in Hcomm.
  apply String.eqb_eq in Hassoc. auto.
Qed.

(** C1.  Over the twelve declared column types, [getWiderType] is
    idempotent, commutative and associative. *)
Theorem getWiderType_lattice_laws (a b c : string) :
  In a typeHierarchy -> In b typeHierarchy -> In c typeHierarchy ->
  getWiderType a a = a
  /\ getWiderType a b = getWiderType b a
  /\ getWiderType (getWiderType a b) c = getWiderType a (getWiderType b c).
Proof.
  apply lattice_laws_on_sound. exact lattice_laws_on_hierarchy.
Qed.

Lemma getWiderType_lattice_laws_witness :
  getWiderType "INT" "INT" = "INT"
  /\ getWiderType "INT" "NVARCHAR(50)" = getWiderType "NVARCHAR(50)" "INT"
  /\ getWiderType (getWiderType "INT" "NVARCHAR(50)") "DATETIME2"
     = getWiderType "INT" (getWiderType "NVARCHAR(50)" "DATETIME2").
Proof.
  apply (getWiderType_lattice_laws "INT" "NVARCHAR(50)" "DATETIME2");
    simpl; tauto.
Defined.

End WidenLaws.

(* ===================================================================== *)
(** * Value inference: numbers and geographic points *)
(* ===================================================================== *)

Module ValueInference.

Import Js Transformers.

(** ** What the number predicates mean *)

(** [x] is finite and denotes the integer [z]. *)
Definition integer_valued (x : number) (z : Z) : Prop :=
  Number_isFinite x = true /\ Qeq (Number_value x) (inject_Z z).

Lemma pow2_pos (e : Z) : (0 < 2 ^ e \/ e < 0)%Z.
Proof.
  destruct (Z_lt_le_dec e 0) as [H | H]; [now right | left].
  apply Z.pow_pos_nonneg; lia.
Qed.

Lemma Number_value_neg_exp (s : bool) (m : positive) (e : Z) (z : Z) :
  (e < 0)%Z ->
  Qeq (Number_value (S754_finite s m e)) (inject_Z z)
  <-> signed_mantissa s m = (z * 2 ^ (- e))%Z.
Proof.
  intros He. unfold Number_value.
  destruct (Z.leb_spec 0 e) as [H | _]; [lia |].
  assert (Hp : (0 < 2 ^ (- e))%Z) by (apply Z.pow_pos_nonneg; lia).
  unfold Qeq, inject_Z. cbn [Qnum Qden].
  rewrite Z2Pos.id by exact Hp. lia.
Qed.

Lemma Number_value_nonneg_exp (s : bool) (m : positive) (e : Z) :
  (0 <= e)%Z ->
  Number_value (S754_finite s m e) = inject_Z (signed_mantissa s m * 2 ^ e).
Proof.
  intros He. unfold Number_value.
  destruct (Z.leb_spec 0 e) as [_ | H]; [reflexivity | lia].
Qed.

Lemma divide_signed (s : bool) (m : positive) (d : Z) :
  (d | Zpos m)%Z <-> (d | signed_mantissa s m)%Z.
Proof.
  destruct s; cbn [signed_mantissa]; [| tauto].
  change (Zneg m) with (- Zpos m)%Z. symmetry. apply Z.divide_opp_r.
Qed.

(** [Number.isInteger] holds exactly for the finite numbers that denote
    an integer. *)
Lemma Number_isInteger_spec (x : number) :
  Number_isInteger x = true <-> exists z, integer_valued x z.
Proof.
  unfold integer_valued. destruct x as [s | s | | s m e]; cbn [Number_isInteger Number_isFinite].
  - split; [intros _; exists 0%Z; split; reflexivity | reflexivity].
  - split; [discriminate | intros [z [H _]]; discriminate].
  - split; [discriminate | intros [z [H _]]; discriminate].
  - destruct (Z_lt_le_dec e 0) as [He | He].
    + destruct (Z.leb_spec 0 e) as [H | _]; [lia |]. cbn [orb].
      assert (Hp : (2 ^ (- e) <> 0)%Z)
        by (assert (0 < 2 ^ (- e))%Z by (apply Z.pow_pos_nonneg; lia); lia).
      rewrite Z.eqb_eq, (Z.mod_divide _ _ Hp), (divide_signed s).
      split.
      * intros [z Hz]. exists z. split; [reflexivity |].
        now apply Number_value_neg_exp.
      * intros [z [_ Hz]]. exists z. now apply Number_value_neg_exp in Hz.
    + destruct (Z.leb_spec 0 e) as [_ | H]; [| lia]. cbn [orb].
      split; [| reflexivity]. intros _.
      exists (signed_mantissa s m * 2 ^ e)%Z. split; [reflexivity |].
      rewrite Number_value_nonneg_exp by exact He. reflexivity.
Qed.

Lemma Number_value_of_Z (a : Z) : Qeq (Number_value (Number_of_Z a)) (inject_Z a).
Proof.
  destruct a as [| p | p]; cbn; unfold Qeq; cbn; lia.
Qed.

Lemma Number_leb_finite (x y : number) :
  Number_isFinite x = true -> Number_isFinite y = true ->
  Number_leb x y = Qle_bool (Number_value x) (Number_value y).
Proof.
  destruct x as [? | ? | | ? ? ?], y as [? | ? | | ? ? ?];
    cbn [Number_isFinite]; try discriminate; reflexivity.
Qed.

Lemma Number_of_Z_finite (a : Z) : Number_isFinite (Number_of_Z a) = true.
Proof. destruct a; reflexivity. Qed.

(** Comparing an integer-valued number with an integer literal. *)
Lemma Number_leb_literal_r (x : number) (z a : Z) :
  integer_valued x z -> Number_leb x (Number_of_Z a) = (z <=? a)%Z.
Proof.
  intros [Hf Hz].
  rewrite Number_leb_finite by (assumption || apply Number_of_Z_finite).
  rewrite (Qleb_comp _ _ Hz _ _ (Number_value_of_Z a)).
  apply eq_true_iff_eq. rewrite Qle_bool_iff, Z.leb_le, Zle_Qle. tauto.
Qed.

Lemma Number_geb_literal_r (x : number) (z a : Z) :
  integer_valued x z -> Number_geb x (Number_of_Z a) = (a <=? z)%Z.
Proof.
  intros [Hf Hz]. unfold Number_geb.
  rewrite Number_leb_finite by (assumption || apply Number_of_Z_finite).
  rewrite (Qleb_comp _ _ (Number_value_of_Z a) _ _ Hz).
  apply eq_true_iff_eq. rewrite Qle_bool_iff, Z.leb_le, Zle_Qle. tauto.
Qed.

Section WithPlatform.
Context {P : Platform}.

(** C9.  A finite number that denotes an integer of the signed 32-bit
    range is typed INT, one that denotes an integer outside that range is
    typed BIGINT, and one that denotes no integer is typed FLOAT. *)
Theorem transformValue_numeric_tier (x : number) :
  Number_isFinite x = true ->
  (forall z, integer_valued x z -> (-2147483648 <= z <= 2147483647)%Z ->
     sqlType (transformValue (FNumber x)) = "INT")
  /\ (forall z, integer_valued x z -> (z < -2147483648 \/ 2147483647 < z)%Z ->
     sqlType (transformValue (FNumber x)) = "BIGINT")
  /\ ((forall z, ~ integer_valued x z) ->
     sqlType (transformValue (FNumber x)) = "FLOAT").
Proof.
  intros Hfin. cbn [transformValue]. rewrite Hfin. cbn [negb].
  repeat split.
  - intros z Hz Hrange.
    assert (Hint : Number_isInteger x = true)
      by (apply Number_isInteger_spec; now exists z).
    rewrite Hint, (Number_geb_literal_r x z _ Hz), (Number_leb_literal_r x z _ Hz).
    destruct (Z.leb_spec (-2147483648) z); [| lia].
    destruct (Z.leb_spec z 2147483647); [| lia]. reflexivity.
  - intros z Hz Hrange.
    assert (Hint : Number_isInteger x = true)
      by (apply Number_isInteger_spec; now exists z).
    rewrite Hint, (Number_geb_literal_r x z _ Hz), (Number_leb_literal_r x z _ Hz).
    destruct (Z.leb_spec (-2147483648) z);
      destruct (Z.leb_spec z 2147483647); try reflexivity; lia.
  - intros Hnone.
    destruct (Number_isInteger x) eqn:Hint; [| reflexivity].
    apply Number_isInteger_spec in Hint. destruct Hint as [z Hz].
    now destruct (Hnone z).
Qed.

(** C7.  For a geographic point [transformValue] infers NVARCHAR(100) and
    returns the plain object with the two coordinates, which is not a
    string: no JSON text is produced at this point. *)
Theorem transformValue_geopoint_is_object (latitude longitude : number) :
  transformValue (FGeoPoint latitude longitude)
  = {| value := JObject [("latitude", JNumber latitude);
                         ("longitude", JNumber longitude)];
       sqlType := "NVARCHAR(100)" |}
  /\ forall s, value (transformValue (FGeoPoint latitude longitude)) <> JString s.
Proof.
  split; [reflexivity | intros s; cbn; discriminate].
Qed.

(** Only the SQL exporter turns the object into JSON text, when it
    escapes the value; the JSON exporter writes it as a nested object. *)
Lemma geopoint_stringified_by_escapeSqlValue (latitude longitude : number) :
  SqlExporter.escapeSqlValue (Some (value (transformValue (FGeoPoint latitude longitude))))
  = "N'"
    ++ replace_class_str (fun c => Ascii.eqb c SqlExporter.apostrophe) "''"
         (JSON_stringify (JObject [("latitude", JNumber latitude);
                                   ("longitude", JNumber longitude)]))
    ++ "'".
Proof. reflexivity. Qed.

End WithPlatform.

(** 7 is typed INT, 2^31 is typed BIGINT and 2.5 is typed FLOAT. *)
Lemma transformValue_numeric_tier_witness :
  sqlType (@transformValue Examples.example_platform (FNumber (S754_finite false 7 0)))
  = "INT"
  /\ sqlType (@transformValue Examples.example_platform (FNumber (S754_finite false 1 31)))
     = "BIGINT"
  /\ sqlType (@transformValue Examples.example_platform (FNumber (S754_finite false 5 (-1))))
     = "FLOAT".
Proof.
  split; [| split].
  - refine (proj1 (@transformValue_numeric_tier Examples.example_platform
              (S754_finite false 7 0) eq_refl) 7%Z _ _).
    + split; reflexivity.
    + lia.
  - refine (proj1 (proj2 (@transformValue_numeric_tier Examples.example_platform
              (S754_finite false 1 31) eq_refl)) 2147483648%Z _ _).
    + split; reflexivity.
    + right. reflexivity.
  - refine (proj2 (proj2 (@transformValue_numeric_tier Examples.example_platform
              (S754_finite false 5 (-1)) eq_refl)) _).
    intros z [_ Hz]. apply Number_value_neg_exp in Hz; [| lia].
    cbn in Hz. lia.
Defined.

End ValueInference.

(* ===================================================================== *)
(** * Document transformation: the [id] column and duplicate names *)
(* ===================================================================== *)

Module DocumentColumns.

Import Js Transformers ObjectFacts StringFacts.

(** ** Candidate column names *)

Lemma nat_to_string_inj (m n : nat) : nat_to_string m = nat_to_string n -> m = n.
Proof.
  unfold nat_to_string. intros H.
  apply DecimalNat.Unsigned.to_uint_inj.
  assert (E : NilEmpty.uint_of_string (NilEmpty.string_of_uint (Nat.to_uint m))
              = NilEmpty.uint_of_string (NilEmpty.string_of_uint (Nat.to_uint n)))
    by now rewrite H.
  rewrite !NilEmpty.usu in E. now injection E.
Qed.

(** The [k]-th name the loop of [transformDocument] tries: the sanitized
    name itself, then the name with the suffixes [_1], [_2], ... *)
Definition candidate (sanitizedField : string) (k : nat) : string :=
  match k with
  | O => sanitizedField
  | S _ => sanitizedField ++ "_" ++ nat_to_string k
  end.

Lemma candidate_inj (s : string) (j k : nat) : candidate s j = candidate s k -> j = k.
Proof.
  destruct j, k; cbn [candidate]; intros H; try reflexivity.
  - apply (f_equal String.length) in H. rewrite length_append in H. cbn in H. lia.
  - apply (f_equal String.length) in H. rewrite length_append in H. cbn in H. lia.
  - apply append_inj_l in H. injection H as H. now apply nat_to_string_inj.
Qed.

Lemma suffixed_not_id (s : string) (k : nat) : s ++ "_" ++ nat_to_string k <> "id".
Proof.
  destruct s as [| c1 [| c2 [| c3 s]]]; cbn; intros H; discriminate.
Qed.

Lemma candidate_not_id (s : string) (k : nat) : s <> "id" -> candidate s k <> "id".
Proof. destruct k; cbn [candidate]; [auto | intros _; apply suffixed_not_id]. Qed.

(** ** The search for a free name always succeeds *)

Lemma candidates_bounded (td : obj jsval) (s : string) (k : nat) :
  (forall j, (j < k)%nat -> In (candidate s j) (keys td)) ->
  (k <= List.length td)%nat.
Proof.
  intros H.
  assert (Hlen : List.length (map (candidate s) (seq 0 k)) = k)
    by now rewrite length_map, length_seq.
  rewrite <- Hlen, <- (length_map fst td).
  apply NoDup_incl_length.
  - apply Finite.Injective_map_NoDup; [| apply seq_NoDup].
    intros i j. apply candidate_inj.
  - intros c Hc. apply in_map_iff in Hc as [j [<- Hj]].
    apply in_seq in Hj. apply H. lia.
Qed.

(** The search of [dedupe] when the method call does not throw. *)
Fixpoint search (fuel : nat) (transformedData : obj jsval)
    (sanitizedField finalField : string) (counter : nat) : string :=
  match fuel with
  | O => finalField
  | S fuel' =>
      if hasOwnProperty transformedData finalField
         && negb (String.eqb finalField "id")
      then search fuel' transformedData sanitizedField
             (sanitizedField ++ "_" ++ nat_to_string counter) (S counter)
      else finalField
  end.

(** The object being filled has a column that hides the method. *)
Definition shadowed (transformedData : obj jsval) : bool :=
  hasOwnProperty transformedData "hasOwnProperty".

Lemma dedupe_search fuel : forall td s f k,
  shadowed td = false -> dedupe fuel td s f k = Normal (search fuel td s f k).
Proof.
  induction fuel as [| fuel IH]; intros td s f k H; [reflexivity |].
  cbn [dedupe search]. unfold call_hasOwnProperty. unfold shadowed in H. rewrite H.
  destruct (hasOwnProperty td f && negb (String.eqb f "id")); [now apply IH | reflexivity].
Qed.

Lemma dedupe_shadowed fuel td s f k :
  shadowed td = true ->
  dedupe (S fuel) td s f k = Throw (TypeError_not_a_function "hasOwnProperty").
Proof.
  intros H. cbn [dedupe]. unfold call_hasOwnProperty. unfold shadowed in H. now rewrite H.
Qed.

(** The exit condition of the loop. *)
Definition taken (td : obj jsval) (finalField : string) : bool :=
  hasOwnProperty td finalField && negb (String.eqb finalField "id").

Lemma dedupe_spec (fuel : nat) :
  forall (k : nat) (td : obj jsval) (s : string),
    (forall j, (j < k)%nat -> In (candidate s j) (keys td)) ->
    (List.length td < k + fuel)%nat ->
    exists n, (k <= n)%nat
      /\ search fuel td s (candidate s k) (S k) = candidate s n
      /\ taken td (candidate s n) = false
      /\ forall j, (k <= j < n)%nat -> taken td (candidate s j) = true.
Proof.
  induction fuel as [| fuel IH]; intros k td s Hprev Hlen.
  - apply candidates_bounded in Hprev. lia.
  - cbn [search]. fold (taken td (candidate s k)).
    destruct (taken td (candidate s k)) eqn:Htaken.
    + destruct (IH (S k) td s) as [n [Hn [Heq [Hfree Hbetween]]]].
      * intros j Hj. destruct (Nat.eq_dec j k) as [-> | Hne].
        -- apply hasOwnProperty_keys. unfold taken in Htaken.
           now apply andb_prop in Htaken.
        -- apply Hprev. lia.
      * lia.
      * exists n. repeat split; [lia | exact Heq | exact Hfree |].
        intros j Hj. destruct (Nat.eq_dec j k) as [-> | Hne];
          [exact Htaken | apply Hbetween; lia].
    + exists k. repeat split; [lia | exact Htaken | intros j Hj; lia].
Qed.

(** The column [transformDocument] picks for a sanitized name. *)
Definition finalFieldOf (td : obj jsval) (sanitizedField : string) : string :=
  search (S (List.length td)) td sanitizedField sanitizedField 1.

Lemma finalFieldOf_spec (td : obj jsval) (s : string) :
  exists n, finalFieldOf td s = candidate s n
    /\ taken td (candidate s n) = false
    /\ forall j, (j < n)%nat -> taken td (candidate s j) = true.
Proof.
  destruct (dedupe_spec (S (List.length td)) 0 td s) as [n [_ [Heq [Hfree Hb]]]].
  - intros j Hj. lia.
  - lia.
  - exists n. repeat split; [exact Heq | exact Hfree | intros j Hj; apply Hb; lia].
Qed.

(** The loop leaves with a name that is free or is [id]. *)
Lemma dedupe_exits (td : obj jsval) (s : string) :
  taken td (finalFieldOf td s) = false.
Proof. destruct (finalFieldOf_spec td s) as [n [-> [H _]]]. exact H. Qed.

Lemma finalFieldOf_id (td : obj jsval) : finalFieldOf td "id" = "id".
Proof.
  unfold finalFieldOf. cbn [search]. rewrite String.eqb_refl.
  now rewrite andb_false_r.
Qed.

Lemma finalFieldOf_free (td : obj jsval) (s : string) :
  hasOwnProperty td s = false -> finalFieldOf td s = s.
Proof. intros H. unfold finalFieldOf. cbn [search]. now rewrite H. Qed.

Lemma finalFieldOf_other (td : obj jsval) (s : string) :
  s <> "id" ->
  finalFieldOf td s <> "id"
  /\ hasOwnProperty td (finalFieldOf td s) = false
  /\ (hasOwnProperty td s = true ->
      exists k, (1 <= k)%nat /\ finalFieldOf td s = s ++ "_" ++ nat_to_string k).
Proof.
  intros Hs. destruct (finalFieldOf_spec td s) as [n [Heq [Hfree Hbefore]]].
  assert (Hnid : candidate s n <> "id") by now apply candidate_not_id.
  rewrite Heq. repeat split.
  - exact Hnid.
  - unfold taken in Hfree. apply andb_false_iff in Hfree as [H | H]; [exact H |].
    apply negb_false_iff, String.eqb_eq in H. contradiction.
  - intros Hhas. destruct n as [| n].
    + unfold taken in Hfree. cbn [candidate] in Hfree. rewrite Hhas in Hfree.
      apply andb_false_iff in Hfree as [H | H]; [discriminate |].
      apply negb_false_iff, String.eqb_eq in H. contradiction.
    + exists (S n). split; [lia | reflexivity].
Qed.


(** ** The loop over the fields *)

Arguments finalFieldOf : simpl never.

Section WithPlatform.
Context {P : Platform}.

(** One iteration of the loop over the fields when the method call does
    not throw. *)
Definition step (acc : TransformedDocument) (entry : string * fsval)
    : TransformedDocument :=
  let c := finalFieldOf (data acc) (sanitizeFieldName (fst entry)) in
  {| data := set c (value (transformValue (snd entry))) (data acc);
     schema := set c (sqlType (transformValue (snd entry))) (schema acc);
     fieldMapping := assign (fst entry) c (fieldMapping acc) |}.

Lemma transformField_step acc entry :
  transformField acc entry
  = if shadowed (data acc) then Throw (TypeError_not_a_function "hasOwnProperty")
    else Normal (step acc entry).
Proof.
  unfold transformField. destruct (shadowed (data acc)) eqn:H.
  - now rewrite dedupe_shadowed.
  - now rewrite dedupe_search.
Qed.

(** The loop over the fields, from an arbitrary state, when no call
    throws. *)
Definition run (acc : TransformedDocument) (entries : obj fsval) : TransformedDocument :=
  fold_left step entries acc.

Definition not_id (entry : string * fsval) : Prop :=
  sanitizeFieldName (fst entry) <> "id".

Lemma run_cons acc e es : run acc (e :: es) = run (step acc e) es.
Proof. reflexivity. Qed.

Lemma step_eq acc f v :
  step acc (f, v)
  = let c := finalFieldOf (data acc) (sanitizeFieldName f) in
    {| data := set c (value (transformValue v)) (data acc);
       schema := set c (sqlType (transformValue v)) (schema acc);
       fieldMapping := assign f c (fieldMapping acc) |}.
Proof. reflexivity. Qed.

(** A column that is not [id] is never chosen again. *)
Lemma finalFieldOf_fresh (td : obj jsval) (s c : string) :
  c <> "id" -> hasOwnProperty td c = true -> finalFieldOf td s <> c.
Proof.
  intros Hc Hhas Heq. pose proof (dedupe_exits td s) as H.
  rewrite Heq in H. unfold taken in H. rewrite Hhas in H. cbn in H.
  apply negb_false_iff, String.eqb_eq in H. contradiction.
Qed.

Lemma run_columns_mono es : forall acc c,
  hasOwnProperty (data acc) c = true ->
  hasOwnProperty (data (run acc es)) c = true.
Proof.
  induction es as [| [f v] es IH]; intros acc c H; [exact H |].
  rewrite run_cons. apply IH. rewrite step_eq. cbn.
  now apply hasOwnProperty_set_mono.
Qed.

Lemma run_column_stable es : forall acc c,
  c <> "id" -> hasOwnProperty (data acc) c = true ->
  get c (data (run acc es)) = get c (data acc)
  /\ get c (schema (run acc es)) = get c (schema acc).
Proof.
  induction es as [| [f v] es IH]; intros acc c Hc H; [now split |].
  rewrite run_cons.
  pose proof (finalFieldOf_fresh (data acc) (sanitizeFieldName f) c Hc H) as Hne.
  destruct (IH (step acc (f, v)) c Hc) as [Hd Hs].
  - rewrite step_eq. cbn. now apply hasOwnProperty_set_mono.
  - rewrite Hd, Hs, step_eq. cbn.
    rewrite !get_set_other by exact Hne. now split.
Qed.

Lemma run_mapping_stable es : forall acc f,
  ~ In f (map fst es) ->
  get f (fieldMapping (run acc es)) = get f (fieldMapping acc).
Proof.
  induction es as [| [f' v] es IH]; intros acc f Hnot; [reflexivity |].
  rewrite run_cons, IH, step_eq.
  - cbn. apply get_assign_other. intros ->. apply Hnot. now left.
  - intros Hin. apply Hnot. now right.
Qed.

Lemma run_id_stable es : forall acc,
  Forall not_id es ->
  get "id" (data (run acc es)) = get "id" (data acc)
  /\ get "id" (schema (run acc es)) = get "id" (schema acc).
Proof.
  induction es as [| [f v] es IH]; intros acc Hall; [now split |].
  inversion Hall as [| e es' Hf Hes]; subst.
  rewrite run_cons. destruct (IH (step acc (f, v)) Hes) as [Hd Hs].
  rewrite Hd, Hs, step_eq. cbn.
  destruct (finalFieldOf_other (data acc) (sanitizeFieldName f) Hf) as [Hne _].
  rewrite !get_set_other by exact Hne. now split.
Qed.

(** Once a field has been handled, its sanitized name is a column. *)
Lemma step_sanitized_present acc f v :
  hasOwnProperty (data (step acc (f, v))) (sanitizeFieldName f) = true.
Proof.
  rewrite step_eq. cbn.
  destruct (hasOwnProperty (data acc) (sanitizeFieldName f)) eqn:Hhas.
  - now apply hasOwnProperty_set_mono.
  - rewrite finalFieldOf_free by exact Hhas. apply hasOwnProperty_set_same.
Qed.

(** Every mapped column exists, and two fields share a column only if it
    is [id]. *)
Definition mapping_ok (acc : TransformedDocument) : Prop :=
  (forall f c, get f (fieldMapping acc) = Some c ->
     hasOwnProperty (data acc) c = true)
  /\ (forall f1 f2 c, f1 <> f2 ->
        get f1 (fieldMapping acc) = Some c ->
        get f2 (fieldMapping acc) = Some c -> c = "id").

Lemma step_mapping_ok acc e : mapping_ok acc -> mapping_ok (step acc e).
Proof.
  destruct e as [f v]. intros [Hex Hinj]. rewrite step_eq. cbn zeta.
  set (c := finalFieldOf (data acc) (sanitizeFieldName f)).
  assert (Hclash : forall f' c', f' <> f -> get f' (fieldMapping acc) = Some c' ->
            c = c' -> c' = "id").
  { intros f' c' _ Hget <-.
    destruct (String.eqb_spec c "id") as [E | E]; [exact E |].
    exfalso. apply (finalFieldOf_fresh (data acc) (sanitizeFieldName f) c E);
      [now apply (Hex f') | reflexivity]. }
  unfold mapping_ok.
  destruct (assign_cases (fieldMapping acc) f c) as [[_ [_ Hsame]] | Hset];
    cbn [data fieldMapping].
  { (* the assignment is ignored *)
    rewrite Hsame. split.
    - intros f' c' Hget. apply hasOwnProperty_set_mono. now apply (Hex f').
    - exact Hinj. }
  rewrite Hset. split.
  - intros f' c' Hget. destruct (String.eqb_spec f f') as [<- | Hne].
    + rewrite get_set_same in Hget. injection Hget as <-.
      apply hasOwnProperty_set_same.
    + rewrite get_set_other in Hget by exact Hne.
      apply hasOwnProperty_set_mono. now apply (Hex f').
  - intros f1 f2 c' Hne H1 H2.
    destruct (String.eqb_spec f f1) as [<- | Hf1].
    + rewrite get_set_same in H1. injection H1 as H1.
      rewrite get_set_other in H2 by exact Hne.
      apply (Hclash f2 c'); auto.
    + rewrite get_set_other in H1 by exact Hf1.
      destruct (String.eqb_spec f f2) as [<- | Hf2].
      * rewrite get_set_same in H2. injection H2 as H2.
        apply (Hclash f1 c'); auto.
      * rewrite get_set_other in H2 by exact Hf2. now apply (Hinj f1 f2).
Qed.

Lemma run_mapping_ok es : forall acc, mapping_ok acc -> mapping_ok (run acc es).
Proof.
  induction es as [| e es IH]; intros acc H; [exact H |].
  rewrite run_cons. apply IH. now apply step_mapping_ok.
Qed.

Definition initial (docId : string) : TransformedDocument :=
  {| data := [("id", JString docId)];
     schema := [("id", "NVARCHAR(255)")];
     fieldMapping := [] |}.

(** The loop returns exactly when no state before a field is shadowed,
    and then with the result of the steps. *)
Fixpoint unshadowed (acc : TransformedDocument) (entries : obj fsval) : bool :=
  match entries with
  | [] => true
  | e :: es => negb (shadowed (data acc)) && unshadowed (step acc e) es
  end.

Lemma transformFields_run es : forall acc,
  transformFields acc es
  = if unshadowed acc es then Normal (run acc es)
    else Throw (TypeError_not_a_function "hasOwnProperty").
Proof.
  induction es as [| e es IH]; intros acc; [reflexivity |].
  cbn [transformFields unshadowed]. rewrite transformField_step.
  destruct (shadowed (data acc)); [reflexivity |]. cbn [negb andb].
  now rewrite IH, run_cons.
Qed.

Lemma transformDocument_run docId entries :
  transformDocument docId entries
  = if unshadowed (initial docId) entries then Normal (run (initial docId) entries)
    else Throw (TypeError_not_a_function "hasOwnProperty").
Proof. apply transformFields_run. Qed.

Lemma transformDocument_returned docId entries out :
  transformDocument docId entries = Normal out -> out = run (initial docId) entries.
Proof.
  rewrite transformDocument_run.
  destruct (unshadowed (initial docId) entries); [| discriminate].
  intros H. now injection H.
Qed.

Lemma run_app acc es1 es2 : run acc (es1 ++ es2)%list = run (run acc es1) es2.
Proof. apply fold_left_app. Qed.

Lemma NoDup_fields_split (pre post : obj fsval) f (v : fsval) :
  NoDup (map fst (pre ++ (f, v) :: post)%list) -> ~ In f (map fst post).
Proof.
  rewrite map_app. cbn. intros H. apply NoDup_remove_2 in H.
  intros Hin. apply H. apply in_or_app. now right.
Qed.

(** The column a field gets is kept, with its value and type, to the end. *)
Lemma run_field_column acc f v post :
  f <> "__proto__" ->
  ~ In f (map fst post) ->
  sanitizeFieldName f <> "id" ->
  let c := finalFieldOf (data acc) (sanitizeFieldName f) in
  let out := run acc ((f, v) :: post) in
  get f (fieldMapping out) = Some c
  /\ get c (data out) = Some (value (transformValue v))
  /\ get c (schema out) = Some (sqlType (transformValue v)).
Proof.
  intros Hproto Hnot Hs c out. subst out. rewrite run_cons.
  destruct (finalFieldOf_other (data acc) (sanitizeFieldName f) Hs) as [Hc _].
  fold c in Hc.
  rewrite run_mapping_stable by exact Hnot.
  destruct (run_column_stable post (step acc (f, v)) c Hc) as [Hd Hsch].
  - rewrite step_eq. apply hasOwnProperty_set_same.
  - rewrite Hd, Hsch, step_eq. cbn. fold c.
    now rewrite !get_set_same, get_assign_same.
Qed.

(** X24.  Whenever [transformDocument] returns, for a document whose
    fields have distinct names, none of them [__proto__]: a field whose
    sanitized name is [id] overwrites the value and the type of the [id]
    column and is mapped to [id] itself, without suffix; without such a
    field the [id] column holds the document identifier with type
    NVARCHAR(255); every other field is mapped to a column of its own,
    named by its sanitized name or by that name with a numeric suffix,
    which holds its transformed value and type; a field whose sanitized
    name was taken by an earlier field gets the suffixed form; and two
    fields share a column only when that column is [id]. *)
Theorem transformDocument_id_and_duplicates (docId : string) (entries : obj fsval)
    (out : TransformedDocument) :
  NoDup (map fst entries) ->
  ~ In "__proto__" (map fst entries) ->
  transformDocument docId entries = Normal out ->
  (forall pre f v post,
      entries = (pre ++ (f, v) :: post)%list ->
      sanitizeFieldName f = "id" -> Forall not_id post ->
      get "id" (data out) = Some (value (transformValue v))
      /\ get "id" (schema out) = Some (sqlType (transformValue v))
      /\ get f (fieldMapping out) = Some "id")
  /\ (Forall not_id entries ->
      get "id" (data out) = Some (JString docId)
      /\ get "id" (schema out) = Some "NVARCHAR(255)")
  /\ (forall f v,
      In (f, v) entries -> sanitizeFieldName f <> "id" ->
      exists c,
        get f (fieldMapping out) = Some c
        /\ c <> "id"
        /\ (c = sanitizeFieldName f
            \/ exists k, (1 <= k)%nat
                 /\ c = sanitizeFieldName f ++ "_" ++ nat_to_string k)
        /\ get c (data out) = Some (value (transformValue v))
        /\ get c (schema out) = Some (sqlType (transformValue v)))
  /\ (forall pre f0 v0 mid f v post,
      entries = (pre ++ (f0, v0) :: mid ++ (f, v) :: post)%list ->
      sanitizeFieldName f0 = sanitizeFieldName f ->
      sanitizeFieldName f <> "id" ->
      exists k, (1 <= k)%nat
        /\ get f (fieldMapping out)
           = Some (sanitizeFieldName f ++ "_" ++ nat_to_string k))
  /\ (forall f1 f2 c,
      f1 <> f2 ->
      get f1 (fieldMapping out) = Some c ->
      get f2 (fieldMapping out) = Some c -> c = "id").
Proof.
  intros Hnodup Hproto Hret. apply transformDocument_returned in Hret. subst out.
  assert (Hfield : forall pre f v post,
            entries = (pre ++ (f, v) :: post)%list -> f <> "__proto__").
  { intros pre f v post -> ->. apply Hproto. rewrite map_app. apply in_or_app.
    right. now left. }
  repeat apply conj.
  - (* a field named id *)
    intros pre f v post E Hid Hpost. pose proof (Hfield _ _ _ _ E) as Hf. subst entries.
    rewrite run_app, run_cons.
    destruct (run_id_stable post (step (run (initial docId) pre) (f, v)) Hpost)
      as [Hd Hs].
    rewrite Hd, Hs, run_mapping_stable.
    + rewrite step_eq, Hid, finalFieldOf_id. cbn.
      now rewrite !get_set_same, get_assign_same.
    + intros Hin. apply in_map_iff in Hin as [[f' v'] [Hf' Hin]]. cbn in Hf'. subst f'.
      rewrite Forall_forall in Hpost. now apply (Hpost _ Hin).
  - (* no field named id *)
    intros Hall. destruct (run_id_stable entries (initial docId) Hall) as [-> ->].
    now split.
  - (* the other fields *)
    intros f v Hin Hs. apply in_split in Hin as [pre [post E]].
    pose proof (Hfield _ _ _ _ E) as Hf. subst entries.
    pose proof (NoDup_fields_split pre post f v Hnodup) as Hnot.
    rewrite run_app.
    set (acc := run (initial docId) pre).
    destruct (run_field_column acc f v post Hf Hnot Hs) as [Hm [Hd Hsch]].
    destruct (finalFieldOf_other (data acc) (sanitizeFieldName f) Hs) as [Hc [_ Hsuf]].
    exists (finalFieldOf (data acc) (sanitizeFieldName f)).
    repeat split; try assumption.
    destruct (hasOwnProperty (data acc) (sanitizeFieldName f)) eqn:Hhas.
    + right. now apply Hsuf.
    + left. now apply finalFieldOf_free.
  - (* a name taken by an earlier field *)
    intros pre f0 v0 mid f v post E Hsame Hs.
    assert (Hf : f <> "__proto__").
    { apply (Hfield (pre ++ (f0, v0) :: mid)%list f v post).
      now rewrite E, <- app_assoc. }
    subst entries.
    assert (Hnot : ~ In f (map fst post)).
    { apply (NoDup_fields_split (pre ++ (f0, v0) :: mid)%list post f v).
      now rewrite <- app_assoc. }
    replace (pre ++ (f0, v0) :: mid ++ (f, v) :: post)%list
      with ((pre ++ (f0, v0) :: mid) ++ (f, v) :: post)%list
      by now rewrite <- app_assoc.
    rewrite run_app.
    set (acc := run (initial docId) (pre ++ (f0, v0) :: mid)%list).
    destruct (run_field_column acc f v post Hf Hnot Hs) as [Hm _].
    destruct (finalFieldOf_other (data acc) (sanitizeFieldName f) Hs) as [_ [_ Hsuf]].
    destruct Hsuf as [k [Hk Hc]].
    + subst acc. rewrite run_app, run_cons. apply run_columns_mono.
      rewrite <- Hsame. apply step_sanitized_present.
    + exists k. split; [exact Hk |]. now rewrite <- Hc.
  - (* distinct columns *)
    apply (run_mapping_ok entries (initial docId)).
    split; cbn; intros; discriminate.
Qed.

(** C10.  A document with a field named [hasOwnProperty] followed by
    another field: the first field is stored as a column of that name,
    which hides the method the loop calls for the second field, and
    [transformDocument] throws instead of returning columns. *)
Theorem transformDocument_throws_after_hasOwnProperty_field :
  transformDocument "d"
    [ ("hasOwnProperty", FNumber (Number_of_Z 1)); ("x", FNumber (Number_of_Z 2)) ]
  = Throw (TypeError_not_a_function "hasOwnProperty").
Proof. reflexivity. Qed.

End WithPlatform.

Definition example_entries : obj fsval :=
  [ ("a.b", FString "x"); ("a_b", FString "y");
    ("_id", FNumber (Number_of_Z 7)) ].

(** On a document with the fields [a.b], [a_b] and [_id]: the third
    overwrites the [id] column, the second gets the column [a_b_1]. *)
Lemma transformDocument_id_and_duplicates_witness :
  exists out,
    @transformDocument Examples.example_platform "doc1" example_entries = Normal out
    /\ get "id" (data out) = Some (JNumber (Number_of_Z 7))
    /\ exists k, (1 <= k)%nat
         /\ get "a_b" (fieldMapping out) = Some ("a_b" ++ "_" ++ nat_to_string k).
Proof.
  assert (Hnodup : NoDup (map fst example_entries)).
  { cbn. repeat constructor; cbn; intuition discriminate. }
  assert (Hproto : ~ In "__proto__" (map fst example_entries)).
  { cbn. intuition discriminate. }
  eexists. split; [reflexivity |].
  match goal with
  | |- get _ (data ?out) = _ /\ _ =>
      destruct (@transformDocument_id_and_duplicates Examples.example_platform
                  "doc1" example_entries out Hnodup Hproto eq_refl)
        as [Hid [_ [_ [Hdup _]]]]
  end.
  split.
  - apply (Hid [("a.b", FString "x"); ("a_b", FString "y")] "_id"
               (FNumber (Number_of_Z 7)) []); [reflexivity | reflexivity | constructor].
  - apply (Hdup [] "a.b" (FString "x") [] "a_b" (FString "y")
                [("_id", FNumber (Number_of_Z 7))]);
      [reflexivity | reflexivity | cbn; discriminate].
Defined.

End DocumentColumns.

(* ===================================================================== *)
(** * Path normalization *)
(* ===================================================================== *)

Module PathNormalization.

Import Js Store Collector.

(** ** Source paths *)

(** The path of a collection reached through the parent documents
    [parents], each given with the collection that holds it:
    [c1/d1/c2/d2/.../name]. *)
Definition collection_path (parents : list (string * string)) (name : string) : string :=
  join "/" (flat_map (fun p => [fst p; snd p]) parents ++ [name])%list.

(** Its collection-name sequence. *)
Definition collection_names (parents : list (string * string)) (name : string)
    : list string :=
  (map fst parents ++ [name])%list.

Fixpoint slash_free (s : string) : bool :=
  match s with
  | EmptyString => true
  | String c s' => negb (Ascii.eqb c "/") && slash_free s'
  end.

(** Collection names and document identifiers contain no slash. *)
Definition well_formed (parents : list (string * string)) (name : string) : Prop :=
  Forall (fun p => slash_free (fst p) = true /\ slash_free (snd p) = true) parents
  /\ slash_free name = true.

(** Every underscore of the name is followed by a character that is not
    an underscore: the name contains no double underscore and does not
    end with an underscore. *)
Fixpoint separable (s : string) : bool :=
  match s with
  | EmptyString => true
  | String c s' =>
      (if is_underscore c
       then match s' with
            | EmptyString => false
            | String c' _ => negb (is_underscore c')
            end
       else true)
      && separable s'
  end.

(** ** [split] undoes [join] *)

Lemma split_slash_free (x : string) : slash_free x = true -> split "/" x = [x].
Proof.
  induction x as [| c x IH]; cbn; [reflexivity |].
  intros H. apply andb_prop in H as [Hc Hx]. apply negb_true_iff in Hc.
  rewrite Hc, (IH Hx). reflexivity.
Qed.

Lemma split_segment (x t : string) :
  slash_free x = true -> split "/" (x ++ String "/" t) = x :: split "/" t.
Proof.
  induction x as [| c x IH]; cbn; [reflexivity |].
  intros H. apply andb_prop in H as [Hc Hx]. apply negb_true_iff in Hc.
  rewrite Hc, (IH Hx). reflexivity.
Qed.

Lemma split_join (segments : list string) :
  segments <> [] -> Forall (fun s => slash_free s = true) segments ->
  split "/" (join "/" segments) = segments.
Proof.
  induction segments as [| x [| y r] IH]; intros Hne Hall.
  - contradiction.
  - inversion Hall; subst. now apply split_slash_free.
  - inversion Hall as [| ? ? Hx Hrest]; subst.
    change (join "/" (x :: y :: r)) with (x ++ String "/" (join "/" (y :: r))).
    rewrite split_segment by exact Hx. f_equal. apply IH; [discriminate | exact Hrest].
Qed.

(** ** Keeping the even positions *)

Definition even_index (_ : string) (index : nat) : bool := (index mod 2 =? 0)%nat.

Lemma filteri_from_shift (l : list string) : forall i,
  filteri_from (S (S i)) even_index l = filteri_from i even_index l.
Proof.
  induction l as [| x l IH]; intros i; cbn [filteri_from]; [reflexivity |].
  assert (E : even_index x (S (S i)) = even_index x i).
  { unfold even_index. replace (S (S i)) with (i + 1 * 2)%nat by lia.
    now rewrite Nat.Div0.mod_add. }
  rewrite E, (IH (S i)). reflexivity.
Qed.

Lemma filteri_segments (parents : list (string * string)) (name : string) :
  filteri even_index (flat_map (fun p => [fst p; snd p]) parents ++ [name])%list
  = collection_names parents name.
Proof.
  unfold filteri, collection_names.
  induction parents as [| [c d] parents IH]; [reflexivity |].
  cbn [flat_map map fst snd app filteri_from].
  change (even_index c 0) with true. change (even_index d 1) with false.
  cbn iota. rewrite filteri_from_shift. f_equal. exact IH.
Qed.

(** The normalized path is the collection names joined by [__]. *)
Lemma normalizeCollectionPath_names (parents : list (string * string)) (name : string) :
  well_formed parents name ->
  normalizeCollectionPath (collection_path parents name)
  = join "__" (collection_names parents name).
Proof.
  intros [Hparents Hname]. unfold normalizeCollectionPath, collection_path.
  rewrite split_join.
  - fold even_index. now rewrite filteri_segments.
  - destruct parents; discriminate.
  - apply Forall_app. split; [| now constructor].
    induction Hparents as [| [c d] parents [Hc Hd] _ IH]; cbn; [constructor |].
    now repeat constructor.
Qed.

(** ** [join] with [__] is injective on separable names *)

(** What follows a name in a joined path: nothing, or the delimiter. *)
Definition delimited (s : string) : Prop := s = "" \/ exists s', s = "__" ++ s'.

Lemma separable_tail (c : ascii) (s : string) : separable (String c s) = true -> separable s = true.
Proof. cbn [separable]. intros H. now apply andb_prop in H. Qed.

Lemma separable_not_delimiter (x s : string) :
  separable x = true -> x <> "" -> forall s', x ++ s <> "__" ++ s'.
Proof.
  intros Hsep Hne s' Heq. destruct x as [| c x]; [contradiction |].
  cbn in Heq. injection Heq as Hc Heq. subst c.
  cbn [separable] in Hsep. change (is_underscore "_") with true in Hsep.
  destruct x as [| c' x]; [discriminate |].
  cbn in Heq. injection Heq as Hc' _. subst c'. discriminate.
Qed.

Lemma name_then_delimiter (x : string) : forall y s t,
  separable x = true -> separable y = true -> delimited s -> delimited t ->
  x ++ s = y ++ t -> x = y /\ s = t.
Proof.
  induction x as [| c x IH]; intros y s t Hx Hy Hs Ht Heq.
  - destruct y as [| d y]; [now split |].
    exfalso. destruct Hs as [-> | [s' ->]]; [discriminate |].
    apply (separable_not_delimiter (String d y) t Hy) with (s' := s');
      [discriminate | symmetry; exact Heq].
  - destruct y as [| d y].
    + exfalso. destruct Ht as [-> | [t' ->]]; [discriminate |].
      apply (separable_not_delimiter (String c x) s Hx) with (s' := t');
        [discriminate | exact Heq].
    + cbn in Heq. injection Heq as -> Heq.
      destruct (IH y s t) as [-> ->]; auto; eauto using separable_tail.
Qed.

Lemma join_cons (x : string) (r : list string) :
  join "__" (x :: r) = x ++ match r with [] => "" | _ :: _ => "__" ++ join "__" r end.
Proof.
  destruct r; cbn; [| reflexivity].
  induction x; cbn; [reflexivity | now f_equal].
Qed.

Lemma join_tail_delimited (r : list string) :
  delimited (match r with [] => "" | _ :: _ => "__" ++ join "__" r end).
Proof. destruct r; [now left | right; eauto]. Qed.

Lemma join_injective (l1 : list string) : forall l2,
  l1 <> [] -> l2 <> [] ->
  Forall (fun s => separable s = true) l1 ->
  Forall (fun s => separable s = true) l2 ->
  join "__" l1 = join "__" l2 -> l1 = l2.
Proof.
  induction l1 as [| x r1 IH]; intros l2 Hne1 Hne2 H1 H2 Heq; [contradiction |].
  destruct l2 as [| y r2]; [contradiction |].
  inversion H1 as [| ? ? Hx Hr1]; inversion H2 as [| ? ? Hy Hr2]; subst.
  rewrite !join_cons in Heq.
  apply name_then_delimiter in Heq as [-> Htail];
    auto using join_tail_delimited.
  f_equal. destruct r1 as [| x1 r1], r2 as [| y2 r2]; try discriminate; [reflexivity |].
  apply IH; try discriminate; try assumption.
  cbn [String.append] in Htail. now injection Htail.
Qed.

(** ** The invariant *)

(** C3 (amended).  For well-formed source paths: equal collection-name
    sequences give equal normalized paths, whatever the document
    identifiers; and different sequences give different normalized paths
    provided no name contains a double underscore or ends with an
    underscore. *)
Theorem normalizeCollectionPath_invariant
    (parents1 parents2 : list (string * string)) (name1 name2 : string) :
  well_formed parents1 name1 -> well_formed parents2 name2 ->
  (collection_names parents1 name1 = collection_names parents2 name2 ->
   normalizeCollectionPath (collection_path parents1 name1)
   = normalizeCollectionPath (collection_path parents2 name2))
  /\ (Forall (fun s => separable s = true) (collection_names parents1 name1) ->
      Forall (fun s => separable s = true) (collection_names parents2 name2) ->
      collection_names parents1 name1 <> collection_names parents2 name2 ->
      normalizeCollectionPath (collection_path parents1 name1)
      <> normalizeCollectionPath (collection_path parents2 name2)).
Proof.
  intros Hwf1 Hwf2.
  rewrite (normalizeCollectionPath_names _ _ Hwf1), (normalizeCollectionPath_names _ _ Hwf2).
  split.
  - now intros ->.
  - intros Hs1 Hs2 Hne Heq. apply Hne.
    apply join_injective; try assumption;
      unfold collection_names; intros E; now apply app_eq_nil in E as [_ E].
Qed.

(** [users/abc/orders] and [users/xyz/orders] are both normalized to
    [users__orders]; [users/abc/orders] and [users/abc/items] are not
    normalized to the same path. *)
Lemma normalizeCollectionPath_invariant_witness :
  normalizeCollectionPath (collection_path [("users", "abc")] "orders")
  = normalizeCollectionPath (collection_path [("users", "xyz")] "orders")
  /\ normalizeCollectionPath (collection_path [("users", "abc")] "orders")
     <> normalizeCollectionPath (collection_path [("users", "abc")] "items").
Proof.
  assert (Hwf : forall d n, slash_free d = true -> slash_free n = true ->
                  well_formed [("users", d)] n).
  { intros d n Hd Hn. split; [| exact Hn]. now repeat constructor. }
  split.
  - apply (normalizeCollectionPath_invariant [("users", "abc")] [("users", "xyz")]
             "orders" "orders"); [now apply Hwf | now apply Hwf | reflexivity].
  - apply (normalizeCollectionPath_invariant [("users", "abc")] [("users", "abc")]
             "orders" "items"); [now apply Hwf | now apply Hwf | | | ].
    + now repeat constructor.
    + now repeat constructor.
    + discriminate.
Defined.

(** C3 as stated fails: the collection [a__b] and the sub-collection [b]
    under a document of the collection [a] have different
    collection-name sequences and the same normalized path. *)
Lemma normalizeCollectionPath_not_injective :
  well_formed [] "a__b" /\ well_formed [("a", "x")] "b"
  /\ collection_names [] "a__b" <> collection_names [("a", "x")] "b"
  /\ normalizeCollectionPath (collection_path [] "a__b")
     = normalizeCollectionPath (collection_path [("a", "x")] "b").
Proof.
  repeat split; try reflexivity; try discriminate; now repeat constructor.
Qed.

End PathNormalization.
(* ===================================================================== *)
(** * Pagination *)
(* ===================================================================== *)

Module Pagination.

Import Js Store Collector.

(** [paged b docs ps]: the pages [ps] cut [docs] into full pages of [b]
    documents followed by one last page of fewer than [b]. *)
Inductive paged (b : nat) : list DocumentSnapshot -> list (list DocumentSnapshot) -> Prop :=
| paged_last (p : list DocumentSnapshot) :
    (List.length p < b)%nat -> paged b p [p]
| paged_more (p rest : list DocumentSnapshot) (ps : list (list DocumentSnapshot)) :
    List.length p = b -> paged b rest ps -> paged b (p ++ rest) (p :: ps).

Lemma paged_concat b docs ps : paged b docs ps -> concat ps = docs.
Proof.
  induction 1 as [p Hp | p rest ps Hp _ IH]; cbn.
  - apply app_nil_r.
  - now rewrite IH.
Qed.

Lemma paged_count b docs ps :
  (0 < b)%nat -> paged b docs ps -> List.length ps = S (List.length docs / b).
Proof.
  intros Hb. induction 1 as [p Hp | p rest ps Hp _ IH]; cbn [List.length].
  - now rewrite Nat.div_small.
  - rewrite IH, length_app, Hp.
    replace (b + List.length rest)%nat with (1 * b + List.length rest)%nat by lia.
    rewrite Nat.div_add_l by lia. reflexivity.
Qed.

(** Every page before the last is full and the last one is short. *)
Lemma paged_shape b docs ps :
  paged b docs ps ->
  exists full short,
    ps = (full ++ [short])%list
    /\ Forall (fun p => List.length p = b) full
    /\ (List.length short < b)%nat.
Proof.
  induction 1 as [p Hp | p rest ps Hp _ [full [short [-> [Hfull Hshort]]]]].
  - exists [], p. repeat split; [constructor | exact Hp].
  - exists (p :: full), short. repeat split; [now constructor | exact Hshort].
Qed.

(** ** The cursor *)

Lemma startAfter_split (pre post : list DocumentSnapshot) (d : DocumentSnapshot) :
  NoDup (map id (pre ++ d :: post)%list) ->
  startAfter d (pre ++ d :: post)%list = post.
Proof.
  induction pre as [| x pre IH]; cbn [app map startAfter]; intros Hnd.
  - now rewrite String.eqb_refl.
  - inversion Hnd as [| ? ? Hnotin Hnd']; subst.
    destruct (String.eqb_spec (id x) (id d)) as [E | _]; [| now apply IH].
    exfalso. apply Hnotin. rewrite E, map_app. apply in_or_app. right. now left.
Qed.

Lemma last_doc_snoc (l : list DocumentSnapshot) (d : DocumentSnapshot) :
  last_doc (l ++ [d])%list = Some d.
Proof.
  induction l as [| x l IH]; [reflexivity |].
  cbn [app]. destruct (l ++ [d])%list eqn:E; [now destruct l | exact IH].
Qed.

Lemma last_doc_app (l p : list DocumentSnapshot) :
  p <> [] -> last_doc (l ++ p)%list = last_doc p.
Proof.
  intros Hp. destruct (exists_last Hp) as [p' [d ->]].
  now rewrite app_assoc, !last_doc_snoc.
Qed.

(** With [done] read already, the next query returns the first
    [batchSize] documents of the [rest]. *)
Lemma query_get_next (done rest : list DocumentSnapshot) (b : nat) :
  NoDup (map id (done ++ rest)%list) ->
  query_get (done ++ rest)%list b (last_doc done) = firstn b rest.
Proof.
  intros Hnd. unfold query_get. destruct done as [| x done'] using rev_ind.
  - reflexivity.
  - rewrite last_doc_snoc, <- app_assoc. cbn [app].
    rewrite <- app_assoc in Hnd. now rewrite startAfter_split.
Qed.

(** ** The loop *)

Lemma collect_loop_empty fuel docs b acc lastDoc fetched :
  query_get docs b lastDoc = [] ->
  collect_loop (S fuel) docs b acc lastDoc fetched
  = Some {| collected := acc; pages := (fetched ++ [[]])%list |}.
Proof. intros H. cbn [collect_loop]. now rewrite H. Qed.

Lemma collect_loop_nonempty fuel docs b acc lastDoc fetched snapshot :
  query_get docs b lastDoc = snapshot -> snapshot <> [] ->
  collect_loop (S fuel) docs b acc lastDoc fetched
  = if (List.length snapshot <? b)%nat
    then Some {| collected := (acc ++ snapshot)%list;
                 pages := (fetched ++ [snapshot])%list |}
    else collect_loop fuel docs b (acc ++ snapshot)%list (last_doc snapshot)
           (fetched ++ [snapshot])%list.
Proof.
  intros H Hne. cbn [collect_loop]. rewrite H.
  destruct snapshot; [contradiction | reflexivity].
Qed.

Lemma collect_loop_pages (fuel : nat) :
  forall (b : nat) (done rest : list DocumentSnapshot)
         (fetched : list (list DocumentSnapshot)),
    (0 < b)%nat ->
    NoDup (map id (done ++ rest)%list) ->
    (List.length rest / b < fuel)%nat ->
    exists ps,
      collect_loop fuel (done ++ rest)%list b done (last_doc done) fetched
      = Some {| collected := (done ++ rest)%list; pages := (fetched ++ ps)%list |}
      /\ paged b rest ps.
Proof.
  induction fuel as [| fuel IH]; intros b done rest fetched Hb Hnd Hfuel; [lia |].
  pose proof (query_get_next done rest b Hnd) as Hquery.
  destruct (Nat.lt_ge_cases (List.length rest) b) as [Hshort | Hfull].
  - (* the last page *)
    rewrite firstn_all2 in Hquery by lia.
    exists [rest]. split; [| now constructor].
    destruct rest as [| d rest'].
    + rewrite (collect_loop_empty _ _ _ _ _ _ Hquery). now rewrite app_nil_r.
    + rewrite (collect_loop_nonempty _ _ _ _ _ _ _ Hquery) by discriminate.
      apply Nat.ltb_lt in Hshort. now rewrite Hshort.
  - (* a full page *)
    set (page := firstn b rest) in *.
    assert (Hlen : List.length page = b) by (unfold page; rewrite length_firstn; lia).
    assert (Hne : page <> []) by (intros E; rewrite E in Hlen; cbn in Hlen; lia).
    assert (Hsplit : rest = (page ++ skipn b rest)%list)
      by (unfold page; now rewrite firstn_skipn).
    assert (Hdocs : (done ++ rest)%list = ((done ++ page) ++ skipn b rest)%list)
      by now rewrite <- app_assoc, <- Hsplit.
    rewrite (collect_loop_nonempty _ _ _ _ _ _ _ Hquery Hne), Hlen, Nat.ltb_irrefl.
    destruct (IH b (done ++ page)%list (skipn b rest) (fetched ++ [page])%list Hb)
      as [ps [Hrun Hpaged]].
    + now rewrite <- Hdocs.
    + rewrite length_skipn.
      assert (E : (List.length rest = 1 * b + (List.length rest - b))%nat) by lia.
      rewrite E, Nat.div_add_l in Hfuel by lia. lia.
    + exists (page :: ps). split.
      * rewrite last_doc_app in Hrun by exact Hne.
        rewrite <- Hdocs in Hrun. rewrite Hrun, <- app_assoc. reflexivity.
      * rewrite Hsplit at 1. now constructor.
Qed.

(** C6.  On a finite collection whose documents have distinct
    identifiers, read in pages of at most [batchSize > 0] documents,
    [collectDocuments] terminates (any fuel above the number of full
    pages is enough) and returns the documents of the collection, each
    once and in order; every page before the last was full and the last
    one, which ends the loop, held fewer than [batchSize] documents; the
    number of fetches is one more than the number of full pages; and for
    exactly [batchSize] documents there are two fetches, the second of
    which returns the empty page. *)
Theorem collectDocuments_pagination (fuel batchSize : nat) (docs : list DocumentSnapshot) :
  (0 < batchSize)%nat ->
  NoDup (map id docs) ->
  (List.length docs / batchSize < fuel)%nat ->
  exists ps,
    collectDocuments fuel docs batchSize = Some {| collected := docs; pages := ps |}
    /\ paged batchSize docs ps
    /\ concat ps = docs
    /\ List.length ps = S (List.length docs / batchSize)
    /\ (List.length docs = batchSize -> ps = [docs; []]).
Proof.
  intros Hb Hnd Hfuel.
  destruct (collect_loop_pages fuel batchSize [] docs [] Hb Hnd Hfuel) as [ps [Hrun Hpaged]].
  exists ps. cbn [app last_doc] in Hrun. unfold collectDocuments.
  repeat split.
  - exact Hrun.
  - exact Hpaged.
  - now apply paged_concat with (b := batchSize).
  - now apply paged_count.
  - intros Hlen. clear Hrun Hfuel Hnd.
    destruct Hpaged as [p Hp | p rest ps' Hp Hrest]; [lia |].
    rewrite length_app in Hlen.
    assert (Hnil : rest = []) by (destruct rest; [reflexivity | cbn in Hlen; lia]).
    rewrite Hnil in *. rewrite app_nil_r.
    inversion Hrest as [p' Hp' E1 E2 | p' rest' ps'' Hp' Hrest' E1 E2]; [reflexivity |].
    apply app_eq_nil in E1 as [E1 _]. rewrite E1 in Hp'. cbn in Hp'. lia.
Qed.

Definition example_doc (name : string) : DocumentSnapshot :=
  {| id := name; data := []; path := "users/" ++ name |}.

(** Two documents read with a batch size of two: a full page, then the
    empty page. *)
Lemma collectDocuments_pagination_witness :
  exists ps,
    collectDocuments 2 [example_doc "u1"; example_doc "u2"] 2
    = Some {| collected := [example_doc "u1"; example_doc "u2"]; pages := ps |}
    /\ ps = [[example_doc "u1"; example_doc "u2"]; []].
Proof.
  destruct (collectDocuments_pagination 2 2 [example_doc "u1"; example_doc "u2"])
    as [ps [Hrun [_ [_ [_ Hexact]]]]].
  - lia.
  - cbn. repeat constructor; cbn; intuition discriminate.
  - cbn. lia.
  - exists ps. split; [exact Hrun | now apply Hexact].
Defined.

End Pagination.
(* ===================================================================== *)
(** * The flush discipline of the traversal *)
(* ===================================================================== *)

Module FlushDiscipline.

Import Js Store Collector ObjectFacts Pagination Examples.

(** ** Counting exporter calls *)





Definition is_store_event (e : Event) : Prop :=
  match e with
  | Collect _ | ListCollections _ => True
  | ExportToJson _ _ | ExportToSql _ _ => False
  end.

Definition wantsJson (format : string) : bool :=
  String.eqb format "json" || String.eqb format "both".

Definition wantsSql (format : string) : bool :=
  String.eqb format "sql" || String.eqb format "both".





(** ** The fuel a finite store needs *)









(** ** The traversal keeps the map well formed *)

(** The table names are distinct, no table is empty, and no exporter has
    been called. *)
Definition traversal_inv (st : State) : Prop :=
  NoDup (keys (documentsByPath st))
  /\ Forall (fun kv => snd kv <> []) (documentsByPath st)
  /\ Forall is_store_event (log st).

Lemma visit_inv fuel db b st item rest st' :
  traversal_inv st -> visit fuel db b st item rest = Some st' -> traversal_inv st'.
Proof.
  intros [Hnd [Hne Hlog]]. unfold visit.
  destruct (includes (processedPaths st) (qpath item)).
  { intros H. injection H as <-. now repeat split. }
  destruct (collectDocuments fuel (documents db (qpath item)) b) as [c |]; [| discriminate].
  destruct (collected c) as [| d docs] eqn:Hdocs; intros H; injection H as <-;
    repeat split; cbn.
  - exact Hnd.
  - exact Hne.
  - apply Forall_app. split; [exact Hlog | now repeat constructor].
  - now apply NoDup_keys_set.
  - apply (Forall_values_set (fun l => l <> [])); [exact Hne |].
    intros E. apply app_eq_nil in E as [_ E]. discriminate.
  - repeat (apply Forall_app; split); [exact Hlog | now repeat constructor |].
    constructor; [exact I |]. apply Forall_forall.
    intros e He. apply in_map_iff in He as [d' [<- _]]. exact I.
Qed.

Lemma traverse_inv fuel : forall db b st st',
  traversal_inv st -> traverse fuel db b st = Some st' ->
  traversal_inv st' /\ queue st' = [].
Proof.
  induction fuel as [| fuel IH]; intros db b st st' Hinv; cbn [traverse].
  - destruct (queue st) eqn:Hq; [| discriminate].
    intros H. injection H as <-. now split.
  - destruct (queue st) as [| item rest] eqn:Hq.
    + intros H. injection H as <-. now split.
    + destruct (visit (S fuel) db b st item rest) as [st1 |] eqn:Hvisit; [| discriminate].
      apply IH. now apply (visit_inv _ _ _ _ _ _ _ Hinv Hvisit).
Qed.

Lemma initial_state_inv collectionName : traversal_inv (initial_state collectionName).
Proof. repeat split; constructor. Qed.

(** ** The traversal of a finite store ends *)








Section FiniteStore.
Variables (db : Firestore) (batchSize : nat) (populated : list string).
Hypothesis positive_batch : (0 < batchSize)%nat.
Hypothesis distinct_ids : forall p, NoDup (map id (documents db p)).
Hypothesis collections_listed : forall p, documents db p <> [] -> In p populated.





End FiniteStore.

(** ** The export loop *)


Section ExportLoop.
Variables (sinks : Sinks) (continueOnError : bool) (format : string).






End ExportLoop.

(** ** The discipline *)


(** ** Examples *)

(** The JSON exporter fails on every table. *)
Definition failing_json_sinks : Sinks := {|
  json_throws := fun _ _ => true;
  sql_throws := fun _ _ => false
|}.

Lemma example_db_honest : forall p, NoDup (map id (documents example_db p)).
Proof.
  intros p. cbn. destruct (String.eqb p "users"); [| destruct (String.eqb p "users/u1/orders")];
    cbn; repeat (constructor; [cbn; intuition discriminate |]); constructor.
Qed.




End FlushDiscipline.
(* ===================================================================== *)
(** * Re-export: what two runs can differ in *)
(* ===================================================================== *)

Module Reexport.

Import Js Config Transformers Store JsonExporter SqlExporter Collector StringFacts.

Section WithPlatform.
Context {P : Platform}.

(** The file an exporter call leaves: none when it throws. *)
Definition written (call : Completion File) : list File :=
  match call with
  | Normal file => [file]
  | Throw _ => []
  end.

(** The files written by the exporter calls of a log.  The call at
    position [k] of the log reads the clock once, [clock k]; a call that
    throws, in the transformation of a document or in writing the file,
    leaves no artifact. *)
Fixpoint artifacts (cfg : Config) (sinks : Sinks) (clock : nat -> string)
    (k : nat) (log : list Event) : list File :=
  match log with
  | [] => []
  | ExportToJson t docs :: log' =>
      ((if json_throws sinks t docs then []
        else written (exportToJson cfg t docs (clock k)))
       ++ artifacts cfg sinks clock (S k) log')%list
  | ExportToSql t docs :: log' =>
      ((if sql_throws sinks t docs then []
        else written (exportToSql cfg t docs (clock k)))
       ++ artifacts cfg sinks clock (S k) log')%list
  | _ :: log' => artifacts cfg sinks clock (S k) log'
  end.

(** A file with one hole for the reading of the clock: the text before
    it, the way the reading is written ([JSON.stringify] in a JSON file,
    verbatim in a SQL file) and the text after it. *)
Record Template : Type := {
  t_directory : string;
  t_filename : string;
  t_before : string;
  t_quoted : bool;
  t_after : string;
  t_tick : nat
}.

Definition instantiate (clock : nat -> string) (tm : Template) : File :=
  let reading := clock (t_tick tm) in
  {| directory := t_directory tm;
     filename := t_filename tm;
     content := t_before tm
                ++ (if t_quoted tm then JSON_quote reading else reading)
                ++ t_after tm |}.

Lemma exportToJson_template (cfg : Config) (t : string) (docs : list DocumentSnapshot)
    (k : nat) :
  exists tms, Forall (fun tm => t_tick tm = k) tms
    /\ forall clock, written (exportToJson cfg t docs (clock k)) = map (instantiate clock) tms.
Proof.
  unfold exportToJson.
  destruct (map_throwing transformedDocument docs) as [transformed | e].
  2: { exists []. split; [constructor | reflexivity]. }
  set (sep := "," ++ newline ++ "  ").
  set (count := JNumber (Number_of_Z (Z.of_nat (List.length transformed)))).
  exists [ {| t_directory := jsonOutputDir cfg;
              t_filename := sanitizeFileName t ++ ".json";
              t_before := "{" ++ newline ++ "  "
                          ++ (JSON_quote "collection" ++ ": " ++ JSON_quote t)
                          ++ sep ++ JSON_quote "exportedAt" ++ ": ";
              t_quoted := true;
              t_after := sep
                         ++ (JSON_quote "count" ++ ": " ++ JSON_stringify_pretty "  " count)
                         ++ sep
                         ++ (JSON_quote "documents" ++ ": "
                             ++ JSON_stringify_pretty "  " (JArray transformed))
                         ++ newline ++ "}";
              t_tick := k |} ].
  split; [repeat constructor |]. intros clock.
  cbn [written map]. f_equal.
  unfold instantiate. cbn [t_directory t_filename t_before t_quoted t_after t_tick].
  f_equal.
  cbn [JSON_stringify_pretty map join String.concat fst snd].
  fold sep. fold count.
  change ("" ++ "  ") with "  ". change ("" ++ "}") with "}".
  rewrite !append_assoc. reflexivity.
Qed.

Lemma exportToSql_template (cfg : Config) (t : string) (docs : list DocumentSnapshot)
    (k : nat) :
  exists tms, Forall (fun tm => t_tick tm = k) tms
    /\ forall clock, written (exportToSql cfg t docs (clock k)) = map (instantiate clock) tms.
Proof.
  unfold exportToSql.
  destruct (map_throwing withPath docs) as [transformed | e].
  2: { exists []. split; [constructor | reflexivity]. }
  exists [ {| t_directory := sqlOutputDir cfg;
              t_filename := sanitizeFileName t ++ ".sql";
              t_before := "-- Firestore Export: " ++ t ++ newline ++ "-- Exported at: ";
              t_quoted := false;
              t_after := newline ++ "-- Document count: "
                         ++ nat_to_string (List.length docs) ++ newline ++ newline
                         ++ statementsOf cfg (sanitizeFileName t) transformed;
              t_tick := k |} ].
  split; [repeat constructor |]. intros clock.
  cbn [written map]. f_equal.
  unfold instantiate. cbn [t_directory t_filename t_before t_quoted t_after t_tick].
  f_equal. rewrite !append_assoc. reflexivity.
Qed.

Lemma artifacts_templates (cfg : Config) (sinks : Sinks) (log : list Event) :
  forall k, exists templates,
    forall clock, artifacts cfg sinks clock k log = map (instantiate clock) templates.
Proof.
  induction log as [| e log IH]; intros k.
  - exists []. reflexivity.
  - destruct (IH (S k)) as [tms Htms].
    destruct e as [p | p | t docs | t docs]; cbn [artifacts].
    + exists tms. exact Htms.
    + exists tms. exact Htms.
    + destruct (json_throws sinks t docs); [exists tms; exact Htms |].
      destruct (exportToJson_template cfg t docs k) as [tm [_ Htm]].
      exists (tm ++ tms)%list. intros clock. now rewrite Htm, Htms, map_app.
    + destruct (sql_throws sinks t docs); [exists tms; exact Htms |].
      destruct (exportToSql_template cfg t docs k) as [tm [_ Htm]].
      exists (tm ++ tms)%list. intros clock. now rewrite Htm, Htms, map_app.
Qed.

Lemma artifacts_ext (cfg : Config) (sinks : Sinks) (clock1 clock2 : nat -> string)
    (log : list Event) :
  (forall k, clock1 k = clock2 k) ->
  forall k, artifacts cfg sinks clock1 k log = artifacts cfg sinks clock2 k log.
Proof.
  intros Hclock. induction log as [| e log IH]; intros k; [reflexivity |].
  destruct e; cbn [artifacts]; rewrite ?Hclock, IH; reflexivity.
Qed.

(** One run of the pipeline for a root collection: the traversal and the
    flush of [streamCollections], and the files its exporter calls write
    when the clock shows [clock]. *)
Definition export_run (cfg : Config) (fuel : nat) (db : Firestore) (sinks : Sinks)
    (batchSize : nat) (continueOnError : bool) (collectionName format : string)
    (clock : nat -> string) : option (list File) :=
  match streamCollections fuel db sinks batchSize continueOnError collectionName format with
  | Some run => Some (artifacts cfg sinks clock 0 (log (final run)))
  | None => None
  end.

(** C2 (amended).  The artifacts of a run of the traversal and the flush
    are fixed by the store up to the clock: each file is a fixed text
    with one hole, filled with the reading of the clock taken when the
    file is written (the [exportedAt] field of a JSON file, the
    [Exported at] comment of a SQL file).  So a second run over the same
    store writes the same files with the same schema, rows and values,
    and byte-identical contents whenever its clock readings agree with
    those of the first. *)
Theorem reexport_differs_only_in_timestamp
    (cfg : Config) (fuel : nat) (db : Firestore) (sinks : Sinks) (batchSize : nat)
    (continueOnError : bool) (collectionName format : string)
    (clock1 : nat -> string) (files1 : list File) :
  export_run cfg fuel db sinks batchSize continueOnError collectionName format clock1
  = Some files1 ->
  (exists templates,
     forall clock,
       export_run cfg fuel db sinks batchSize continueOnError collectionName format clock
       = Some (map (instantiate clock) templates))
  /\ (forall clock2,
        (forall k, clock1 k = clock2 k) ->
        export_run cfg fuel db sinks batchSize continueOnError collectionName format clock2
        = Some files1).
Proof.
  unfold export_run.
  destruct (streamCollections fuel db sinks batchSize continueOnError collectionName format)
    as [run |]; [| discriminate].
  intros Hfiles. injection Hfiles as <-. split.
  - destruct (artifacts_templates cfg sinks (log (final run)) 0) as [tms Htms].
    exists tms. intros clock. now rewrite Htms.
  - intros clock2 Hclock. f_equal. symmetry. now apply artifacts_ext.
Qed.

End WithPlatform.

Definition morning : nat -> string := fun _ => "2024-01-15T10:30:00.000Z".
Definition evening : nat -> string := fun _ => "2024-01-15T22:30:00.000Z".

(** The four files of the example store are fixed texts with a hole for
    the reading of the clock. *)
Lemma reexport_differs_only_in_timestamp_witness :
  exists templates,
    List.length templates = 4%nat
    /\ forall clock,
         @export_run Examples.example_platform Config.config 5 Examples.example_db
           Examples.reliable_sinks 500 true "users" "both" clock
         = Some (map (instantiate clock) templates).
Proof.
  destruct (@export_run Examples.example_platform Config.config 5 Examples.example_db
              Examples.reliable_sinks 500 true "users" "both" morning)
    as [files |] eqn:Hrun; [| vm_compute in Hrun; discriminate].
  destruct (@reexport_differs_only_in_timestamp Examples.example_platform
              Config.config 5 Examples.example_db Examples.reliable_sinks
              500 true "users" "both" morning files Hrun) as [[templates Htemplates] _].
  exists templates. split; [| exact Htemplates].
  pose proof (Htemplates morning) as Hlen. rewrite Hrun in Hlen.
  injection Hlen as Hlen. apply (f_equal (@List.length File)) in Hlen.
  rewrite length_map in Hlen. rewrite <- Hlen.
  vm_compute in Hrun. injection Hrun as <-. reflexivity.
Defined.

(** C2 as stated fails: two runs over the same store that read the clock
    at different times do not write byte-identical files. *)
Lemma reexport_not_byte_identical :
  @export_run Examples.example_platform Config.config 5 Examples.example_db
    Examples.reliable_sinks 500 true "users" "both" morning
  <> @export_run Examples.example_platform Config.config 5 Examples.example_db
       Examples.reliable_sinks 500 true "users" "both" evening.
Proof. vm_compute. discriminate. Qed.

End Reexport.
(* ===================================================================== *)
(** * The checkpoint: compatibility on resume and the life of the file *)
(* ===================================================================== *)

Module Checkpoint.

Import Js Index StringFacts.

(** ** Sorting decides equality up to order *)

Definition le (a b : string) : Prop := String.leb a b = true.

Lemma compare_trans_lt (a : string) : forall b c,
  String.compare a b <> Gt -> String.compare b c <> Gt -> String.compare a c <> Gt.
Proof.
  induction a as [| x a IH]; intros [| y b] [| z c]; cbn; try congruence.
  unfold Ascii.compare.
  destruct (N.compare_spec (N_of_ascii x) (N_of_ascii y)) as [Exy | Lxy | Gxy];
    destruct (N.compare_spec (N_of_ascii y) (N_of_ascii z)) as [Eyz | Lyz | Gyz];
    try congruence;
    destruct (N.compare_spec (N_of_ascii x) (N_of_ascii z)) as [Exz | Lxz | Gxz];
    try congruence; try lia.
  apply IH.
Qed.

Lemma le_trans (a b c : string) : le a b -> le b c -> le a c.
Proof.
  unfold le, String.leb. intros Hab Hbc.
  pose proof (compare_trans_lt a b c) as H.
  destruct (String.compare a b), (String.compare b c), (String.compare a c);
    try reflexivity; try discriminate; exfalso; apply H; congruence.
Qed.

Lemma sort_insert_perm (x : string) (l : list string) :
  Permutation (x :: l) (sort_insert x l).
Proof.
  induction l as [| y l IH]; cbn; [reflexivity |].
  destruct (String.leb x y); [reflexivity |].
  rewrite perm_swap. now constructor.
Qed.

Lemma sort_perm (l : list string) : Permutation l (Array_sort l).
Proof.
  induction l as [| x l IH]; cbn; [constructor |].
  rewrite <- sort_insert_perm. now constructor.
Qed.

Lemma sort_insert_sorted (x : string) (l : list string) :
  StronglySorted le l -> StronglySorted le (sort_insert x l).
Proof.
  induction 1 as [| y l Hl IH Hy]; cbn; [repeat constructor |].
  destruct (String.leb x y) eqn:Hxy.
  - constructor; [now constructor |]. constructor; [exact Hxy |].
    revert Hy. apply Forall_impl. intros z. now apply le_trans.
  - constructor; [exact IH |].
    apply (Permutation_Forall (sort_insert_perm x l)). constructor; [| exact Hy].
    destruct (String.leb_total x y) as [H | H]; [congruence | exact H].
Qed.

Lemma sort_sorted (l : list string) : StronglySorted le (Array_sort l).
Proof.
  induction l as [| x l IH]; cbn; [constructor | now apply sort_insert_sorted].
Qed.

(** Two sorted arrays with the same elements are equal. *)
Lemma sorted_perm_eq (l1 : list string) : forall l2,
  StronglySorted le l1 -> StronglySorted le l2 -> Permutation l1 l2 -> l1 = l2.
Proof.
  induction l1 as [| a l1 IH]; intros l2 H1 H2 Hp.
  - now apply Permutation_nil in Hp.
  - destruct l2 as [| b l2]; [now apply Permutation_sym, Permutation_nil in Hp |].
    apply StronglySorted_inv in H1 as [H1 Ha]. apply StronglySorted_inv in H2 as [H2 Hb].
    rewrite Forall_forall in Ha, Hb.
    assert (Hab : a = b).
    { assert (Hin_a : In a (b :: l2)) by (apply (Permutation_in _ Hp); now left).
      assert (Hin_b : In b (a :: l1))
        by (apply (Permutation_in _ (Permutation_sym Hp)); now left).
      destruct Hin_a as [E | Hin_a]; [now symmetry |].
      destruct Hin_b as [E | Hin_b]; [exact E |].
      apply String.leb_antisym; [now apply Ha | now apply Hb]. }
    subst b. f_equal. apply IH; auto. now apply Permutation_cons_inv in Hp.
Qed.

Lemma sort_eq_iff (l1 l2 : list string) : Array_sort l1 = Array_sort l2 <-> Permutation l1 l2.
Proof.
  split.
  - intros E. rewrite (sort_perm l1), E. symmetry. apply sort_perm.
  - intros Hp. apply sorted_perm_eq; try apply sort_sorted.
    now rewrite <- (sort_perm l1), <- (sort_perm l2).
Qed.

(** ** [JSON.stringify] is injective on arrays of strings *)

(** Reads back the first code unit of an escaped string: [None] at the
    closing quote. *)
Definition unescape_head (s : string) : option (ascii * string) :=
  match s with
  | EmptyString => None
  | String c rest =>
      if Ascii.eqb c dquote then None
      else if Ascii.eqb c backslash then
        match rest with
        | String e rest' =>
            if Ascii.eqb e "u" then
              match rest' with
              | String _ (String _ (String h (String l rest''))) =>
                  let digit (d : ascii) : N :=
                    if is_digit d then (N_of_ascii d - 48)%N else (N_of_ascii d - 87)%N in
                  Some (ascii_of_N (16 * digit h + digit l)%N, rest'')
              | _ => None
              end
            else if Ascii.eqb e "b" then Some (ascii_of_N 8, rest')
            else if Ascii.eqb e "t" then Some (ascii_of_N 9, rest')
            else if Ascii.eqb e "n" then Some (ascii_of_N 10, rest')
            else if Ascii.eqb e "f" then Some (ascii_of_N 12, rest')
            else if Ascii.eqb e "r" then Some (ascii_of_N 13, rest')
            else Some (e, rest')
        | EmptyString => None
        end
      else Some (c, rest)
  end.

Lemma unescape_escape_char (c : ascii) (t : string) :
  unescape_head (JSON_escape_char c ++ t) = Some (c, t).
Proof.
  destruct c as [[] [] [] [] [] [] [] []]; reflexivity.
Qed.

Lemma JSON_escape_inj (s1 : string) : forall s2 t1 t2,
  JSON_escape s1 ++ String dquote t1 = JSON_escape s2 ++ String dquote t2 ->
  s1 = s2 /\ t1 = t2.
Proof.
  induction s1 as [| c1 s1 IH]; intros [| c2 s2] t1 t2; cbn [JSON_escape].
  - cbn. intros H. injection H as ->. now split.
  - rewrite append_assoc. intros H. apply (f_equal unescape_head) in H.
    rewrite unescape_escape_char in H. discriminate.
  - rewrite append_assoc. intros H. apply (f_equal unescape_head) in H.
    rewrite unescape_escape_char in H. discriminate.
  - rewrite !append_assoc. intros H. apply (f_equal unescape_head) in H.
    rewrite !unescape_escape_char in H. injection H as -> H.
    destruct (IH _ _ _ H) as [-> ->]. now split.
Qed.

Lemma JSON_quote_inj (s1 s2 t1 t2 : string) :
  JSON_quote s1 ++ t1 = JSON_quote s2 ++ t2 -> s1 = s2 /\ t1 = t2.
Proof.
  unfold JSON_quote. cbn [String.append]. rewrite !append_assoc. cbn [String.append].
  intros H. injection H as H. now apply JSON_escape_inj.
Qed.

(** The elements of the array and the closing bracket. *)
Definition elements_text (l : list string) : string := join "," (map JSON_quote l) ++ "]".

Lemma elements_text_cons (x : string) (l : list string) :
  elements_text (x :: l)
  = JSON_quote x ++ match l with
                    | [] => "]"
                    | _ :: _ => "," ++ elements_text l
                    end.
Proof.
  unfold elements_text. destruct l as [| y l]; [reflexivity |].
  change (join "," (map JSON_quote (x :: y :: l)))
    with (JSON_quote x ++ "," ++ join "," (map JSON_quote (y :: l))).
  now rewrite !append_assoc.
Qed.

Lemma elements_text_inj (l1 : list string) : forall l2,
  elements_text l1 = elements_text l2 -> l1 = l2.
Proof.
  induction l1 as [| x l1 IH]; intros [| y l2].
  - reflexivity.
  - rewrite elements_text_cons. discriminate.
  - rewrite elements_text_cons. discriminate.
  - rewrite !elements_text_cons. intros H.
    apply JSON_quote_inj in H as [-> H]. f_equal.
    destruct l1 as [| x1 l1], l2 as [| y2 l2]; try discriminate; [reflexivity |].
    apply IH. now injection H.
Qed.

Lemma JSON_stringify_strings_inj (l1 l2 : list string) :
  JSON_stringify_strings l1 = JSON_stringify_strings l2 -> l1 = l2.
Proof.
  unfold JSON_stringify_strings. intros H. injection H as H.
  now apply elements_text_inj.
Qed.

(** ** Compatibility on resume *)

Lemma includes_In (l : list string) (x : string) : includes l x = true <-> In x l.
Proof.
  unfold includes. rewrite existsb_exists. split.
  - intros [y [Hin E]]. apply String.eqb_eq in E. now subst.
  - intros Hin. exists x. split; [exact Hin | apply String.eqb_refl].
Qed.

Lemma Set_from_In (l : list string) (c : string) : In c (Set_from l) <-> In c l.
Proof.
  unfold Set_from.
  assert (H : forall s, In c (fold_left
              (fun s x => if includes s x then s else (s ++ [x])%list) l s)
              <-> In c s \/ In c l).
  { induction l as [| x l IH]; intros s; cbn [fold_left].
    - cbn. tauto.
    - rewrite IH. destruct (includes s x) eqn:E.
      + apply includes_In in E. cbn. split; [tauto |].
        intros [H | [<- | H]]; auto.
      + rewrite in_app_iff. cbn. tauto. }
  rewrite H. cbn. tauto.
Qed.

Lemma sameCollections_spec (collectionsToExport : list string) (savedState : ExportState) :
  sameCollections collectionsToExport savedState = true
  <-> Permutation (requestedCollections savedState) collectionsToExport.
Proof.
  unfold sameCollections. rewrite String.eqb_eq, <- sort_eq_iff. split.
  - apply JSON_stringify_strings_inj.
  - now intros ->.
Qed.

(** C5 (amended).  When a resume is requested and a state file exists,
    the persisted completed set is reused exactly when the persisted
    format is the current one and the persisted list of requested
    collections is a rearrangement of the current list (the same names
    with the same multiplicities); for lists without repetition this is
    equality of the two sets of names.  When resuming, the completed set
    is the persisted one; otherwise it is empty and every requested
    collection remains to be exported. *)
Theorem resume_compatibility (options : Options) (collectionsToExport : list string)
    (m : Machine) (savedState : ExportState) :
  opt_resume options = true ->
  loadState m = Some savedState ->
  let plan := resumeCheck options collectionsToExport m in
  (resuming plan = true
   <-> format savedState = opt_format options
       /\ Permutation (requestedCollections savedState) collectionsToExport)
  /\ (NoDup (requestedCollections savedState) -> NoDup collectionsToExport ->
      (Permutation (requestedCollections savedState) collectionsToExport
       <-> forall c, In c (requestedCollections savedState) <-> In c collectionsToExport))
  /\ (resuming plan = true ->
      forall c, In c (completedCollections plan) <-> In c (completed savedState))
  /\ (resuming plan = false ->
      completedCollections plan = []
      /\ remainingCollections plan = Array_sort collectionsToExport).
Proof.
  intros Hresume Hload plan. subst plan. unfold resumeCheck. rewrite Hresume, Hload.
  pose proof (sameCollections_spec collectionsToExport savedState) as Hsame.
  assert (Hfmt : sameFormat options savedState = true
                 <-> format savedState = opt_format options)
    by apply String.eqb_eq.
  split; [| split; [| split]].
  - destruct (sameFormat options savedState), (sameCollections collectionsToExport savedState);
      cbn; split; try discriminate; try tauto;
      intros [H1 H2]; try apply Hfmt in H1; try apply Hsame in H2; discriminate.
  - intros Hnd1 Hnd2. split.
    + intros Hp c. split; apply Permutation_in; [exact Hp | now symmetry].
    + intros Heq. now apply NoDup_Permutation.
  - destruct (sameFormat options savedState && sameCollections collectionsToExport savedState);
      cbn; [| discriminate].
    intros _ c. apply Set_from_In.
  - destruct (sameFormat options savedState && sameCollections collectionsToExport savedState);
      cbn; [discriminate |].
    intros _. split; [reflexivity |].
    unfold remainingCollections. cbn.
    induction (Array_sort collectionsToExport) as [| x l IH]; cbn; [reflexivity | now f_equal].
Qed.

Definition example_saved (requested done : list string) : ExportState :=
  {| format := "both"; requestedCollections := requested; completed := done;
     startedAt := "2024-01-15T10:30:00.000Z";
     lastUpdated := "2024-01-15T10:31:00.000Z";
     lastError := None |}.

Definition example_machine (saved : ExportState) : Machine :=
  {| file := Some saved; events := []; ticks := 0 |}.

Definition resume_options : Options :=
  {| opt_format := "both"; opt_resume := true; opt_reset := false |}.

(** A state saved for [users, orders] is reused for [orders, users]. *)
Lemma resume_compatibility_witness :
  resuming (resumeCheck resume_options ["orders"; "users"]
              (example_machine (example_saved ["users"; "orders"] ["users"]))) = true.
Proof.
  pose proof (resume_compatibility resume_options ["orders"; "users"]
                (example_machine (example_saved ["users"; "orders"] ["users"]))
                (example_saved ["users"; "orders"] ["users"]) eq_refl eq_refl) as H.
  cbv zeta in H. destruct H as [[_ H] _]. apply H.
  split; [reflexivity | apply perm_swap].
Defined.

(** C5 as stated fails: the lists [a, a] and [a] name the same set of
    collections and the formats agree, yet the saved state is not
    reused. *)
Lemma resume_refused_for_equal_sets :
  (forall c, In c (requestedCollections (example_saved ["a"; "a"] ["a"])) <-> In c ["a"])
  /\ format (example_saved ["a"; "a"] ["a"]) = opt_format resume_options
  /\ resuming (resumeCheck resume_options ["a"]
                 (example_machine (example_saved ["a"; "a"] ["a"]))) = false
  /\ completedCollections (resumeCheck resume_options ["a"]
                 (example_machine (example_saved ["a"; "a"] ["a"]))) = [].
Proof.
  repeat split; try reflexivity; cbn; tauto.
Qed.

(** ** The life of the state file *)

Definition is_save (e : DriverEvent) : bool :=
  match e with
  | Saved _ | SaveFailed _ _ => true
  | _ => false
  end.

(** One turn of the export loop: the collection, and the calls of
    [saveState] after it. *)
Definition turn_events (env : Environment) (t : string * list DriverEvent)
    : list DriverEvent :=
  Streamed (fst t) (stream env (fst t)) :: snd t.

(** [saveState] was called in the turn. *)
Definition saves_state (t : string * list DriverEvent) : Prop :=
  snd t <> [] /\ forallb is_save (snd t) = true.

(** A state saved after a collection records what happened to it. *)
Definition records_outcome (env : Environment) (t : string * list DriverEvent) : Prop :=
  forall state, In (Saved state) (snd t) ->
    match stream env (fst t) with
    | None => In (fst t) (completed state)
    | Some message =>
        lastError state = Some {| collection := fst t; error := message |}
    end.

Lemma saveState_event env state m :
  exists e,
    events (fst (saveState env state m)) = (events m ++ [e])%list
    /\ is_save e = true
    /\ (forall state', e = Saved state' -> state' = state).
Proof.
  unfold saveState. destruct (writeFileSync env (List.length (events m))) as [message |].
  - exists (SaveFailed state message). repeat split. discriminate.
  - exists (Saved state). repeat split. intros state' E. now injection E.
Qed.

(** One turn: the call of [streamCollections] and one or two calls of
    [saveState]; then either the loop goes on with the rest, or it is
    left with an error. *)
Lemma exportLoop_turn env continueOnError name rest currentState m :
  exists attempts currentState' m',
    events m' = (events m ++ turn_events env (name, attempts))%list
    /\ saves_state (name, attempts)
    /\ records_outcome env (name, attempts)
    /\ ((exportLoop env continueOnError (name :: rest) currentState m
         = exportLoop env continueOnError rest currentState' m'
         /\ (continueOnError = false -> stream env name = None))
        \/ exists message,
             exportLoop env continueOnError (name :: rest) currentState m
             = (m', Some message)).
Proof.
  remember (exportLoop env continueOnError (name :: rest) currentState m) as out eqn:Hout.
  cbn [exportLoop] in Hout. unfold now in Hout. cbn [ticks file events] in Hout.
  unfold turn_events, saves_state, records_outcome. cbn [fst snd].
  destruct (stream env name) as [message |] eqn:Hstream.
  - cbv beta iota zeta in Hout. cbn [ticks file events] in Hout.
    set (st := with_error currentState name message (clock env (ticks m))) in Hout.
    match type of Hout with
    | context [saveState env st ?m1] =>
        destruct (saveState_event env st m1) as [e [Hev [He Hst]]];
        destruct (saveState env st m1) as [m2 failed]
    end.
    cbn [fst events] in Hev.
    exists [e], st, m2. split; [now rewrite Hev, <- app_assoc |].
    split; [split; [discriminate | cbn; now rewrite He] |].
    split.
    { intros state [E | []]. apply Hst in E. subst state. reflexivity. }
    destruct failed as [failure |]; [right; now exists failure |].
    destruct continueOnError; [left | right; now exists message].
    split; [exact Hout | discriminate].
  - cbv beta iota zeta in Hout. cbn [ticks file events] in Hout.
    set (st := with_completed currentState name (clock env (ticks m))) in Hout.
    match type of Hout with
    | context [saveState env st ?m1] =>
        destruct (saveState_event env st m1) as [e [Hev [He Hst]]];
        destruct (saveState env st m1) as [m2 failed]
    end.
    cbn [fst events] in Hev.
    destruct failed as [failure |].
    + cbv beta iota zeta in Hout. cbn [ticks file events] in Hout.
      set (st' := with_error st name failure (clock env (ticks m2))) in Hout.
      match type of Hout with
      | context [saveState env st' ?m3] =>
          destruct (saveState_event env st' m3) as [e' [Hev' [He' Hst']]];
          destruct (saveState env st' m3) as [m4 failed']
      end.
      cbn [fst events] in Hev'.
      exists [e; e'], st', m4.
      split; [rewrite Hev', Hev, <- !app_assoc; reflexivity |].
      split; [split; [discriminate | cbn; now rewrite He, He'] |].
      split.
      { intros state [E | [E | []]].
        - apply Hst in E. subst state. cbn. apply in_or_app. right. now left.
        - apply Hst' in E. subst state. cbn. apply in_or_app. right. now left. }
      destruct failed' as [failure' |]; [right; now exists failure' |].
      destruct continueOnError; [left | right; now exists failure].
      split; [exact Hout |]. intros _. reflexivity.
    + exists [e], st, m2. split; [now rewrite Hev, <- app_assoc |].
      split; [split; [discriminate | cbn; now rewrite He] |].
      split.
      { intros state [E | []]. apply Hst in E. subst state.
        cbn. apply in_or_app. right. now left. }
      left. split; [exact Hout | reflexivity].
Qed.

(** After every root collection, completed or failed, the state is saved
    before the next collection is started. *)
Lemma exportLoop_saves (env : Environment) (continueOnError : bool)
    (remaining : list string) :
  forall currentState m,
  exists turns,
    events (fst (exportLoop env continueOnError remaining currentState m))
    = (events m ++ flat_map (turn_events env) turns)%list
    /\ Forall saves_state turns
    /\ Forall (records_outcome env) turns
    /\ (exists rest, remaining = (map fst turns ++ rest)%list
          /\ (snd (exportLoop env continueOnError remaining currentState m) = None
              -> rest = [])).
Proof.
  induction remaining as [| name rest IH]; intros currentState m.
  - exists []. cbn. rewrite app_nil_r. repeat split; try constructor.
    exists []. now split.
  - destruct (exportLoop_turn env continueOnError name rest currentState m)
      as [attempts [st [m1 [Hev [Hsaves [Hrec [[Hgo _] | [message Hout]]]]]]]].
    + rewrite Hgo.
      destruct (IH st m1) as [turns [Hev' [Hall [Hall' [rest' [Hrest Hdone]]]]]].
      exists ((name, attempts) :: turns). rewrite Hev', Hev.
      split; [cbn [flat_map]; now rewrite <- app_assoc |].
      split; [now constructor |]. split; [now constructor |].
      exists rest'. cbn [map fst app]. split; [now rewrite Hrest | exact Hdone].
    + rewrite Hout. cbn [fst snd].
      exists [(name, attempts)]. rewrite Hev. cbn [flat_map]. rewrite app_nil_r.
      split; [reflexivity |]. split; [now constructor |]. split; [now constructor |].
      exists rest. split; [reflexivity | discriminate].
Qed.

Lemma exportLoop_never_clears env continueOnError remaining currentState m :
  In Cleared (events (fst (exportLoop env continueOnError remaining currentState m))) ->
  In Cleared (events m).
Proof.
  destruct (exportLoop_saves env continueOnError remaining currentState m)
    as [turns [-> [Hsaves _]]].
  intros H. apply in_app_or in H as [H | H]; [exact H |].
  apply in_flat_map in H as [t [Ht [H | H]]]; [discriminate |].
  rewrite Forall_forall in Hsaves. destruct (Hsaves t Ht) as [_ Hall].
  rewrite forallb_forall in Hall. apply Hall in H. discriminate.
Qed.

(** Without [continueOnError] the loop ends normally only when every
    collection was exported. *)
Lemma exportLoop_returns_after_success env (remaining : list string) :
  forall currentState m,
    snd (exportLoop env false remaining currentState m) = None ->
    forall c, In c remaining -> stream env c = None.
Proof.
  induction remaining as [| name rest IH]; intros currentState m Hret c Hin;
    [contradiction |].
  destruct (exportLoop_turn env false name rest currentState m)
    as [attempts [st [m1 [_ [_ [_ [[Hgo Hok] | [message Hout]]]]]]]].
  - rewrite Hgo in Hret. destruct Hin as [<- | Hin]; [now apply Hok |].
    now apply (IH _ _ Hret).
  - rewrite Hout in Hret. discriminate.
Qed.

Lemma clearState_events env m :
  events (fst (clearState env m)) = events m
  \/ (snd (clearState env m) = None
      /\ events (fst (clearState env m)) = (events m ++ [Cleared])%list)
  \/ exists message,
       snd (clearState env m) = Some message
       /\ events (fst (clearState env m)) = (events m ++ [ClearFailed message])%list.
Proof.
  unfold clearState. destruct (file m); [| now left].
  destruct (unlinkSync env (List.length (events m))) as [message |].
  - right. right. now exists message.
  - right. left. now split.
Qed.

(** Without [continueOnError] and without [--reset], the state file is
    deleted only when every requested collection was completed before or
    has been exported by this run. *)
Lemma main_clears_only_after_success env options requested collectionsToExport m :
  opt_reset options = false ->
  ~ In Cleared (events m) ->
  In Cleared (events (machine (main env false options requested m))) ->
  Index.collectionsToExport env requested = inl collectionsToExport ->
  let plan := resumeCheck options collectionsToExport m in
  forall c, In c (collectionsAfter plan) ->
    In c (completedCollections plan) \/ stream env c = None.
Proof.
  intros Hreset Hfresh Hcleared Hlisted plan c Hin.
  unfold main in Hcleared. rewrite Hreset in Hcleared. unfold main_try in Hcleared.
  destruct (initializeFirebase env); [contradiction |].
  rewrite Hlisted in Hcleared. fold plan in Hcleared.
  assert (Hcases : In c (completedCollections plan) \/ In c (remainingCollections plan)).
  { destruct (includes (completedCollections plan) c) eqn:E.
    - left. now apply includes_In.
    - right. unfold remainingCollections. apply filter_In. split; [exact Hin |].
      now rewrite E. }
  destruct Hcases as [Hdone | Hrem]; [now left | right].
  destruct ((List.length (remainingCollections plan) =? 0)%nat && resuming plan) eqn:Hall.
  - apply andb_prop in Hall as [Hlen _]. apply Nat.eqb_eq in Hlen.
    destruct (remainingCollections plan); [contradiction | discriminate].
  - destruct (if resuming plan
              then (match loadState m with
                    | Some savedState => startedAt savedState
                    | None => ""
                    end, m)
              else now env m) as [started m1] eqn:Hstart.
    assert (Hev1 : events m1 = events m).
    { destruct (resuming plan); unfold now in Hstart; injection Hstart as _ <-; reflexivity. }
    unfold now in Hcleared. cbn [ticks file events] in Hcleared.
    match type of Hcleared with
    | context [exportLoop env false ?r ?st ?m2] =>
        destruct (exportLoop env false r st m2) as [m3 thrown] eqn:Hloop;
        pose proof (exportLoop_never_clears env false r st m2) as Hnever;
        pose proof (exportLoop_returns_after_success env r st m2) as Hok;
        rewrite Hloop in Hnever, Hok; cbn [fst snd] in Hnever, Hok
    end.
    destruct thrown as [message |].
    + exfalso. apply Hfresh. rewrite <- Hev1. now apply Hnever.
    + now apply Hok.
Qed.

(** The driver's own configuration, [continueOnError: true], and a
    collection whose export throws; nothing else fails. *)
Definition failing_env : Environment :=
  {| initializeFirebase := None;
     getRootCollections := inl ["users"];
     stream := fun _ => Some "permission denied";
     clock := fun _ => "2024-01-15T10:30:00.000Z";
     writeFileSync := fun _ => None;
     unlinkSync := fun _ => None |}.

Definition fresh_options : Options :=
  {| opt_format := "both"; opt_resume := false; opt_reset := false |}.

Definition no_file : Machine := {| file := None; events := []; ticks := 0 |}.

(** C4.  With [continueOnError] set, as [src/config.js] sets it, a run
    whose only collection fails saves the state with the error and then
    deletes the state file: the run ends with exit code 0 and nothing to
    resume from. *)
Theorem main_clears_state_after_failed_collection :
  main failing_env (Config.continueOnError Config.config) fresh_options ["users"] no_file
  = {| machine :=
         {| file := None;
            events :=
              [ Streamed "users" (Some "permission denied");
                Saved {| format := "both";
                         requestedCollections := ["users"];
                         completed := [];
                         startedAt := "2024-01-15T10:30:00.000Z";
                         lastUpdated := "2024-01-15T10:30:00.000Z";
                         lastError := Some {| collection := "users";
                                              error := "permission denied" |} |};
                Cleared ];
            ticks := 3 |};
       exitCode := 0 |}.
Proof. reflexivity. Qed.

End Checkpoint.
(* ===================================================================== *)
(** * Sanitized field names and file names *)
(* ===================================================================== *)

Module SanitizedNames.

Import Js Transformers SqlExporter Store Collector StringFacts.

(** Every character of the string is in the class. *)
Fixpoint all_chars (p : ascii -> bool) (s : string) : bool :=
  match s with
  | EmptyString => true
  | String c s' => p c && all_chars p s'
  end.

(** A name that SQL Server reads as a regular identifier: not empty,
    made of letters, digits and underscores, not starting with a digit. *)
Definition identifier (s : string) : Prop :=
  s <> "" /\ all_chars is_word s = true /\ starts_with_digit s = false.

(** ** Character classes through the string operations *)

Lemma all_chars_app p a b :
  all_chars p (a ++ b) = all_chars p a && all_chars p b.
Proof. induction a as [| c a IH]; cbn; [reflexivity | now rewrite IH, andb_assoc]. Qed.

Lemma all_chars_impl (p q : ascii -> bool) s :
  (forall c, p c = true -> q c = true) -> all_chars p s = true -> all_chars q s = true.
Proof.
  intros Hpq. induction s as [| c s IH]; cbn; [reflexivity |].
  intros H. apply andb_prop in H as [Hc Hs]. now rewrite (Hpq c Hc), IH.
Qed.

Lemma all_chars_replace_class (p q : ascii -> bool) (r : ascii) s :
  q r = true -> (forall c, p c = false -> q c = true) ->
  all_chars q (replace_class p r s) = true.
Proof.
  intros Hr Hkeep. unfold replace_class.
  induction s as [| c s IH]; cbn; [reflexivity |]. rewrite IH, andb_true_r.
  destruct (p c) eqn:E; [exact Hr | now apply Hkeep].
Qed.

Lemma all_chars_replace_class_keeps (p q : ascii -> bool) (r : ascii) s :
  q r = true -> all_chars q s = true -> all_chars q (replace_class p r s) = true.
Proof.
  intros Hr. unfold replace_class. induction s as [| c s IH]; cbn; [reflexivity |].
  intros H. apply andb_prop in H as [Hc Hs]. rewrite (IH Hs), andb_true_r.
  now destruct (p c).
Qed.

Lemma all_chars_collapse (p pre q : ascii -> bool) (r : ascii) s :
  q r = true -> (forall c, pre c = true -> p c = false -> q c = true) ->
  all_chars pre s = true ->
  forall f, all_chars q (collapse_runs_from f p r s) = true.
Proof.
  intros Hr Hkeep. induction s as [| c s IH]; cbn; [reflexivity |].
  intros H f. apply andb_prop in H as [Hc Hs].
  destruct (p c) eqn:E.
  - destruct f; cbn; rewrite ?Hr; now apply IH.
  - cbn. now rewrite (Hkeep c Hc E), IH.
Qed.

Lemma all_chars_drop_while p q s :
  all_chars q s = true -> all_chars q (drop_while p s) = true.
Proof.
  induction s as [| c s IH]; cbn; [reflexivity |].
  intros H. destruct (p c); [apply andb_prop in H as [_ H]; now apply IH | exact H].
Qed.

Lemma all_chars_drop_while_end p q s :
  all_chars q s = true -> all_chars q (drop_while_end p s) = true.
Proof.
  induction s as [| c s IH]; cbn; [reflexivity |].
  intros H. apply andb_prop in H as [Hc Hs]. specialize (IH Hs).
  destruct (drop_while_end p s) eqn:E.
  - destruct (p c); cbn; [reflexivity | now rewrite Hc].
  - cbn [all_chars]. now rewrite Hc.
Qed.

Lemma all_chars_substring q s : forall n m,
  all_chars q s = true -> all_chars q (String.substring n m s) = true.
Proof.
  induction s as [| c s IH]; intros n m H; [now destruct n, m |].
  cbn in H. apply andb_prop in H as [Hc Hs].
  destruct n as [| n]; cbn.
  - destruct m as [| m]; cbn; [reflexivity |]. now rewrite Hc, IH.
  - now apply IH.
Qed.

Lemma length_substring_le s : forall n m, (String.length (String.substring n m s) <= m)%nat.
Proof.
  induction s as [| c s IH]; intros n m; [destruct n, m; cbn; lia |].
  destruct n as [| n]; cbn.
  - destruct m as [| m]; cbn; [lia |]. specialize (IH 0%nat m). lia.
  - apply IH.
Qed.

(** The decimal digits of a number are digits. *)
Lemma all_chars_digits (n : nat) : all_chars is_digit (nat_to_string n) = true.
Proof.
  unfold nat_to_string. induction (Nat.to_uint n) as [| d IH | d IH | d IH | d IH | d IH
    | d IH | d IH | d IH | d IH | d IH]; cbn [NilEmpty.string_of_uint all_chars];
    rewrite ?IH; reflexivity.
Qed.

Lemma is_digit_is_word c : is_digit c = true -> is_word c = true.
Proof. unfold is_word. intros ->. now rewrite orb_true_r. Qed.

(** ** [sanitizeFieldName] *)

(** The name before the prefix for a leading digit and the default. *)
Definition cleaned (fieldName : string) : string :=
  collapse_runs is_underscore "_"
    (trim_underscores
       (replace_class (fun c => negb (is_word c)) "_"
          (replace_class (fun c => Ascii.eqb c ".") "_" fieldName))).

Lemma sanitizeFieldName_cleaned fieldName :
  sanitizeFieldName fieldName
  = if starts_with_digit (cleaned fieldName) then "_" ++ cleaned fieldName
    else if String.eqb (cleaned fieldName) "" then "_field"
    else cleaned fieldName.
Proof.
  unfold sanitizeFieldName. fold (cleaned fieldName).
  destruct (starts_with_digit (cleaned fieldName)) eqn:E; [| reflexivity].
  destruct (cleaned fieldName); [discriminate | reflexivity].
Qed.

Lemma cleaned_word fieldName : all_chars is_word (cleaned fieldName) = true.
Proof.
  unfold cleaned, collapse_runs, trim_underscores.
  apply all_chars_collapse with (pre := is_word); [reflexivity | auto |].
  apply all_chars_drop_while_end, all_chars_drop_while.
  apply all_chars_replace_class; [reflexivity |].
  intros c H. now apply negb_false_iff in H.
Qed.

Lemma sanitizeFieldName_identifier fieldName : identifier (sanitizeFieldName fieldName).
Proof.
  rewrite sanitizeFieldName_cleaned. pose proof (cleaned_word fieldName) as Hw.
  destruct (starts_with_digit (cleaned fieldName)) eqn:Hd.
  - repeat split; [discriminate | cbn; exact Hw].
  - destruct (String.eqb_spec (cleaned fieldName) "") as [E | E].
    + repeat split. discriminate.
    + repeat split; assumption.
Qed.

(** How the name begins: not with an underscore, unless it is [_field]
    or the underscore was put before a leading digit. *)
Definition safe_head (s : string) : bool :=
  match s with
  | EmptyString => false
  | String c r =>
      if is_underscore c
      then String.eqb s "_field" || starts_with_digit r
      else true
  end.

Lemma drop_while_end_head p c s :
  p c = false ->
  exists r, drop_while_end p (String c s) = String c r.
Proof.
  intros Hc. cbn. destruct (drop_while_end p s); rewrite ?Hc; eauto.
Qed.

Lemma drop_while_head p s :
  drop_while p s = "" \/ exists c r, drop_while p s = String c r /\ p c = false.
Proof.
  induction s as [| c s IH]; cbn; [now left |].
  destruct (p c) eqn:E; [exact IH | right; eauto].
Qed.

Lemma cleaned_head fieldName :
  cleaned fieldName = ""
  \/ exists c r, cleaned fieldName = String c r /\ is_underscore c = false.
Proof.
  unfold cleaned, trim_underscores, collapse_runs.
  destruct (drop_while_head is_underscore
              (replace_class (fun c => negb (is_word c)) "_"
                 (replace_class (fun c => Ascii.eqb c ".") "_" fieldName)))
    as [-> | [c [r [-> Hc]]]]; [now left |].
  destruct (drop_while_end_head is_underscore c r Hc) as [r' ->].
  right. cbn. rewrite Hc. eauto.
Qed.

Lemma sanitizeFieldName_safe_head fieldName : safe_head (sanitizeFieldName fieldName) = true.
Proof.
  rewrite sanitizeFieldName_cleaned.
  destruct (cleaned_head fieldName) as [-> | [c [r [-> Hc]]]]; [reflexivity |].
  destruct (starts_with_digit (String c r)) eqn:Hd.
  - cbn [String.append safe_head]. change (is_underscore "_") with true. cbn iota.
    rewrite Hd. apply orb_true_r.
  - cbn [String.eqb]. destruct (String.eqb (String c r) "") eqn:E;
      [apply String.eqb_eq in E; discriminate |].
    cbn [safe_head]. now rewrite Hc.
Qed.

(** X1.  Whatever the field is called, [sanitizeFieldName] returns a
    regular identifier: not empty, only letters, digits and underscores,
    no leading digit.  So [quoteName] puts such a column in brackets
    exactly when it is a reserved word, and never has a bracket to
    escape. *)
Theorem sanitizeFieldName_regular_identifier (fieldName : string) :
  let name := sanitizeFieldName fieldName in
  name <> ""
  /\ all_chars is_word name = true
  /\ starts_with_digit name = false
  /\ needsQuoting name = includes RESERVED_WORDS (toUpperCase name)
  /\ quoteName name
     = if includes RESERVED_WORDS (toUpperCase name) then "[" ++ name ++ "]" else name.
Proof.
  intros name. destruct (sanitizeFieldName_identifier fieldName) as [Hne [Hw Hd]].
  fold name in Hne, Hw, Hd.
  assert (Hsome : some_char (fun c => negb (is_word c)) name = false).
  { clear Hne Hd. induction name as [| c s IH]; cbn in *; [reflexivity |].
    apply andb_prop in Hw as [Hc Hs]. now rewrite Hc, IH. }
  assert (Hq : needsQuoting name = includes RESERVED_WORDS (toUpperCase name)).
  { unfold needsQuoting. rewrite Hd, Hsome.
    now destruct (includes RESERVED_WORDS (toUpperCase name)). }
  repeat split; try assumption.
  unfold quoteName. rewrite Hq.
  destruct (includes RESERVED_WORDS (toUpperCase name)); [| reflexivity].
  do 2 f_equal. clear -Hw. induction name as [| c s IH]; cbn in *; [reflexivity |].
  apply andb_prop in Hw as [Hc Hs].
  destruct (Ascii.eqb_spec c "]") as [-> | _]; [discriminate | now rewrite IH].
Qed.

End SanitizedNames.
(* ===================================================================== *)
(** * File names of the tables *)
(* ===================================================================== *)

Module FileNames.

Import Js Transformers Collector StringFacts SanitizedNames PathNormalization.

(** A character that may stand in a file name written by the exporters:
    none of the characters Windows refuses, and no white space. *)
Definition filename_char (c : ascii) : bool :=
  negb (is_invalid_filename_char c) && negb (is_space c).

(** ** The replacements, over a concatenation *)

Lemma replace_class_app p r a b :
  replace_class p r (a ++ b) = replace_class p r a ++ replace_class p r b.
Proof. unfold replace_class. induction a as [| c a IH]; cbn; [reflexivity | now rewrite IH]. Qed.

(** A character outside the class ends the run and is kept. *)
Lemma collapse_runs_from_keep p r c a b :
  p c = false ->
  forall f,
    collapse_runs_from f p r (a ++ String c b)
    = collapse_runs_from f p r a ++ String c (collapse_runs_from false p r b).
Proof.
  intros Hc. induction a as [| x a IH]; intros f; cbn.
  - now rewrite Hc.
  - destruct (p x); [destruct f |]; cbn; now rewrite IH.
Qed.

(** Two characters of the class in a row collapse like one. *)
Lemma collapse_runs_from_twice p r c a b :
  p c = true ->
  forall f,
    collapse_runs_from f p r (a ++ String c (String c b))
    = collapse_runs_from f p r (a ++ String c b).
Proof.
  intros Hc. induction a as [| x a IH]; intros f; cbn.
  - rewrite Hc. now destruct f.
  - destruct (p x); [destruct f |]; cbn; now rewrite IH.
Qed.

(** The name before the cut at 200 characters and the default. *)
Definition cleaned_name (collectionName : string) : string :=
  trim_underscores
    (collapse_runs is_underscore "_"
       (collapse_runs is_space "_"
          (replace_class is_invalid_filename_char "_" collectionName))).

Lemma cleaned_name_chars collectionName :
  all_chars filename_char (cleaned_name collectionName) = true.
Proof.
  unfold cleaned_name, trim_underscores, collapse_runs.
  apply all_chars_drop_while_end, all_chars_drop_while.
  apply all_chars_collapse with (pre := filename_char); [reflexivity | auto |].
  apply all_chars_collapse with (pre := fun c => negb (is_invalid_filename_char c)).
  - reflexivity.
  - intros c Hv Hs. unfold filename_char. now rewrite Hv, Hs.
  - apply all_chars_replace_class; [reflexivity |].
    intros c H. now rewrite H.
Qed.

(** The table name of a collection nested once, and the file name the
    two exporters derive from a table name. *)
Lemma double_underscore_collapses a b :
  cleaned_name (a ++ "__" ++ b) = cleaned_name (a ++ "_" ++ b).
Proof.
  unfold cleaned_name, collapse_runs. f_equal.
  rewrite !replace_class_app.
  change (replace_class is_invalid_filename_char "_" "__") with "__".
  change (replace_class is_invalid_filename_char "_" "_") with "_".
  set (A := replace_class is_invalid_filename_char "_" a).
  set (B := replace_class is_invalid_filename_char "_" b).
  change (A ++ "__" ++ B) with (A ++ String "_" (String "_" B)).
  change (A ++ "_" ++ B) with (A ++ String "_" B).
  rewrite !(collapse_runs_from_keep is_space "_" "_") by reflexivity.
  change (collapse_runs_from false is_space "_" (String "_" B))
    with (String "_" (collapse_runs_from false is_space "_" B)).
  now rewrite (collapse_runs_from_twice is_underscore "_" "_") by reflexivity.
Qed.

(** X2.  The file name [sanitizeFileName] derives from any table name is
    not empty, at most 200 characters long, and holds none of the
    characters the function is there to remove: no angle bracket, colon,
    double quote, slash, backslash, bar, question mark or star, and no
    white space. *)
Theorem sanitizeFileName_is_safe (collectionName : string) :
  let file := sanitizeFileName collectionName in
  file <> ""
  /\ (String.length file <= 200)%nat
  /\ all_chars filename_char file = true.
Proof.
  intros file. subst file. unfold sanitizeFileName. fold (cleaned_name collectionName).
  pose proof (cleaned_name_chars collectionName) as Hc.
  set (t := cleaned_name collectionName) in *.
  set (u := if (200 <? String.length t)%nat then substring_to 200 t else t).
  assert (Hu : (String.length u <= 200)%nat /\ all_chars filename_char u = true).
  { subst u. destruct (Nat.ltb_spec 200 (String.length t)) as [Hlong | Hshort].
    - split; [apply length_substring_le | now apply all_chars_substring].
    - split; [lia | exact Hc]. }
  destruct (String.eqb_spec u "") as [E | E].
  - repeat split; [discriminate | cbn; lia].
  - repeat split; [exact E | apply Hu | apply Hu].
Qed.

Lemma slash_free_app a b :
  slash_free (a ++ b) = slash_free a && slash_free b.
Proof. induction a as [| c a IH]; cbn; [reflexivity | now rewrite IH, andb_assoc]. Qed.

Lemma sanitizeFileName_cleaned_name collectionName :
  sanitizeFileName collectionName
  = let sanitized := cleaned_name collectionName in
    let sanitized :=
      if (200 <? String.length sanitized)%nat then substring_to 200 sanitized
      else sanitized in
    if String.eqb sanitized "" then "collection" else sanitized.
Proof. reflexivity. Qed.

Section WithPlatform.
Context {P : Platform}.

(** X3.  The double underscore that [normalizeCollectionPath] puts between
    a collection and its sub-collections does not survive
    [sanitizeFileName], which collapses every run of underscores.  The
    sub-collections [child] under the documents of [parent] and a root
    collection named [parent_child] are two tables, and both exporters
    write them to the same file of the same directory. *)
Theorem nested_and_root_table_share_file (cfg : Config.Config)
    (parent child doc : string)
    (documents documents' : list Store.DocumentSnapshot) (exportedAt exportedAt' : string)
    (Hparent : slash_free parent = true) (Hchild : slash_free child = true)
    (Hdoc : slash_free doc = true) :
  let nested := normalizeCollectionPath (collection_path [(parent, doc)] child) in
  let root := normalizeCollectionPath (collection_path [] (parent ++ "_" ++ child)) in
  nested = parent ++ "__" ++ child
  /\ root = parent ++ "_" ++ child
  /\ nested <> root
  /\ sanitizeFileName nested = sanitizeFileName root
  /\ (forall file file',
        JsonExporter.exportToJson cfg nested documents exportedAt = Normal file ->
        JsonExporter.exportToJson cfg root documents' exportedAt' = Normal file' ->
        JsonExporter.filename file = JsonExporter.filename file'
        /\ JsonExporter.directory file = JsonExporter.directory file')
  /\ (forall file file',
        SqlExporter.exportToSql cfg nested documents exportedAt = Normal file ->
        SqlExporter.exportToSql cfg root documents' exportedAt' = Normal file' ->
        JsonExporter.filename file = JsonExporter.filename file'
        /\ JsonExporter.directory file = JsonExporter.directory file').
Proof.
  intros nested root.
  assert (Hnested : nested = parent ++ "__" ++ child).
  { subst nested. rewrite normalizeCollectionPath_names; [reflexivity |].
    split; [constructor; [split; assumption | constructor] | assumption]. }
  assert (Hroot : root = parent ++ "_" ++ child).
  { subst root. rewrite normalizeCollectionPath_names; [reflexivity |].
    split; [constructor |]. rewrite !slash_free_app, Hparent, Hchild. reflexivity. }
  assert (Hfile : sanitizeFileName nested = sanitizeFileName root).
  { rewrite Hnested, Hroot, !sanitizeFileName_cleaned_name.
    now rewrite double_underscore_collapses. }
  split; [exact Hnested |]. split; [exact Hroot |]. split.
  - rewrite Hnested, Hroot. intros E. apply append_inj_l in E.
    apply (f_equal String.length) in E. cbn in E. lia.
  - split; [exact Hfile |].
    unfold JsonExporter.exportToJson, SqlExporter.exportToSql.
    rewrite Hfile. split; intros file file' H H'.
    + destruct (map_throwing JsonExporter.transformedDocument documents); [| discriminate].
      destruct (map_throwing JsonExporter.transformedDocument documents');
        [| discriminate].
      injection H as <-. injection H' as <-. now split.
    + destruct (map_throwing SqlExporter.withPath documents); [| discriminate].
      destruct (map_throwing SqlExporter.withPath documents'); [| discriminate].
      injection H as <-. injection H' as <-. now split.
Qed.

End WithPlatform.

Lemma nested_and_root_table_share_file_witness :
  sanitizeFileName "users__orders" = sanitizeFileName "users_orders".
Proof.
  pose proof (@nested_and_root_table_share_file Examples.example_platform Config.config
                "users" "orders" "u1" [] [] "" "" eq_refl eq_refl eq_refl) as H.
  cbv zeta in H. destruct H as [_ [_ [_ [H _]]]]. exact H.
Defined.

End FileNames.
(* ===================================================================== *)
(** * The columns of a transformed document *)
(* ===================================================================== *)

Module DocumentShape.

Import Js Transformers ObjectFacts StringFacts SanitizedNames DocumentColumns.

(** ** Names the search for a free column can return *)

Lemma starts_with_digit_app s t :
  s <> "" -> starts_with_digit (s ++ t) = starts_with_digit s.
Proof. destruct s; [congruence | reflexivity]. Qed.

Lemma candidate_identifier s k : identifier s -> identifier (candidate s k).
Proof.
  intros [Hne [Hw Hd]]. destruct k as [| k]; cbn [candidate]; [now repeat split |].
  repeat split.
  - destruct s; [congruence | discriminate].
  - rewrite !all_chars_app, Hw. cbn [all_chars andb].
    change (is_word "_") with true. cbn [andb].
    apply all_chars_impl with (p := is_digit); [apply is_digit_is_word |].
    apply all_chars_digits.
  - now rewrite starts_with_digit_app.
Qed.

Lemma safe_head_app s t :
  safe_head s = true -> s ++ t <> "_id" /\ s ++ t <> "_path".
Proof.
  destruct s as [| c r]; [discriminate |]. cbn [safe_head String.append].
  destruct (is_underscore c) eqn:Hc.
  - intros H. apply orb_prop in H as [H | H].
    + apply String.eqb_eq in H. injection H as -> ->. split; discriminate.
    + destruct r as [| d r]; [discriminate |]. cbn in H.
      split; intros E; injection E as -> E' _; subst d; discriminate.
  - intros _. split; intros E; injection E as -> _; discriminate.
Qed.

Lemma candidate_not_meta s k :
  safe_head s = true -> candidate s k <> "_id" /\ candidate s k <> "_path".
Proof.
  intros H. destruct k as [| k]; cbn [candidate].
  - assert (E : s ++ "" = s) by (clear; induction s; cbn; congruence).
    rewrite <- E. now apply safe_head_app.
  - now apply safe_head_app.
Qed.

Lemma finalFieldOf_not_proto (td : obj jsval) (fieldName : string) :
  finalFieldOf td (sanitizeFieldName fieldName) <> "__proto__".
Proof.
  destruct (finalFieldOf_spec td (sanitizeFieldName fieldName)) as [n [-> _]].
  pose proof (sanitizeFieldName_safe_head fieldName) as H.
  assert (Happ : forall t, sanitizeFieldName fieldName ++ t <> "__proto__").
  { intros t. destruct (sanitizeFieldName fieldName) as [| c r]; [discriminate |].
    cbn [safe_head String.append] in *. destruct (is_underscore c) eqn:Hc.
    - apply orb_prop in H as [H | H].
      + apply String.eqb_eq in H. injection H as -> ->. discriminate.
      + destruct r as [| d r]; [discriminate |]. cbn in H.
        intros E. injection E as -> E' _. subst d. discriminate.
    - intros E. injection E as -> _. discriminate. }
  destruct n as [| n]; cbn [candidate]; [| apply Happ].
  assert (E : sanitizeFieldName fieldName ++ "" = sanitizeFieldName fieldName)
    by (clear; induction (sanitizeFieldName fieldName); cbn; congruence).
  rewrite <- E. apply Happ.
Qed.

(** A suffixed candidate holds an underscore. *)
Lemma some_char_app p a b : some_char p (a ++ b) = some_char p a || some_char p b.
Proof. induction a as [| c a IH]; cbn; [reflexivity | now rewrite IH, orb_assoc]. Qed.

Lemma finalFieldOf_hasOwnProperty (td : obj jsval) (s : string) :
  hasOwnProperty td "hasOwnProperty" = false ->
  (finalFieldOf td s = "hasOwnProperty" <-> s = "hasOwnProperty").
Proof.
  intros Hfree. split.
  - destruct (finalFieldOf_spec td s) as [n [-> _]].
    destruct n as [| n]; cbn [candidate]; [auto |]. intros E.
    apply (f_equal (some_char is_underscore)) in E.
    rewrite !some_char_app in E. cbn in E. rewrite orb_true_r in E. discriminate.
  - intros ->. now apply finalFieldOf_free.
Qed.

(** A column of the transformed data: a regular identifier that is not
    one of the two names the exporters add, nor the name under which an
    object keeps its prototype. *)
Definition column (c : string) : Prop :=
  identifier c /\ c <> "_id" /\ c <> "_path" /\ c <> "__proto__".

Lemma finalFieldOf_column (td : obj jsval) (fieldName : string) :
  column (finalFieldOf td (sanitizeFieldName fieldName)).
Proof.
  pose proof (finalFieldOf_not_proto td fieldName) as Hproto.
  destruct (finalFieldOf_spec td (sanitizeFieldName fieldName)) as [n [E _]].
  rewrite E in *. split.
  - apply candidate_identifier, sanitizeFieldName_identifier.
  - destruct (candidate_not_meta _ n (sanitizeFieldName_safe_head fieldName)) as [H1 H2].
    auto.
Qed.

(** ** Objects with the same keys *)

Lemma hasOwnProperty_same_keys {A B : Type} (o : obj A) (o' : obj B) k :
  keys o = keys o' -> hasOwnProperty o k = hasOwnProperty o' k.
Proof.
  intros E. destruct (hasOwnProperty o k) eqn:H1, (hasOwnProperty o' k) eqn:H2;
    try reflexivity.
  - apply hasOwnProperty_keys in H1. rewrite E in H1.
    apply hasOwnProperty_keys in H1. congruence.
  - apply hasOwnProperty_keys in H2. rewrite <- E in H2.
    apply hasOwnProperty_keys in H2. congruence.
Qed.

Lemma set_fresh {A : Type} (o : obj A) k v :
  hasOwnProperty o k = false -> set k v o = (o ++ [(k, v)])%list.
Proof.
  unfold hasOwnProperty. induction o as [| [k' v'] o IH]; cbn; [reflexivity |].
  destruct (String.eqb k' k); [discriminate |]. intros H. now rewrite IH.
Qed.

Lemma not_In_hasOwnProperty {A : Type} (o : obj A) k :
  ~ In k (keys o) -> hasOwnProperty o k = false.
Proof.
  intros H. destruct (hasOwnProperty o k) eqn:E; [| reflexivity].
  apply hasOwnProperty_keys in E. contradiction.
Qed.

(** Spreading an object with distinct keys over an object that has none
    of them appends its properties. *)
Lemma spread_fresh {A : Type} (o : obj A) : forall base : obj A,
  NoDup (keys o) -> (forall k, In k (keys o) -> ~ In k (keys base)) ->
  fold_left (fun acc kv => set (fst kv) (snd kv) acc) o base = (base ++ o)%list.
Proof.
  induction o as [| [k v] o IH]; intros base Hnd Hfresh; cbn [fold_left].
  - now rewrite app_nil_r.
  - cbn [fst snd]. inversion Hnd as [| ? ? Hk Hnd']; subst.
    rewrite set_fresh by (apply not_In_hasOwnProperty, Hfresh; now left).
    rewrite IH; [now rewrite <- app_assoc | exact Hnd' |].
    intros k' Hin. unfold keys. rewrite map_app. cbn. intros Hbase.
    apply in_app_or in Hbase as [Hbase | [<- | []]].
    + apply (Hfresh k'); [now right | exact Hbase].
    + contradiction.
Qed.

Section WithPlatform.
Context {P : Platform}.

(** ** The invariant of the loop of [transformDocument] *)

Definition shaped (acc : TransformedDocument) : Prop :=
  keys (data acc) = keys (schema acc)
  /\ NoDup (keys (data acc))
  /\ (exists rest, keys (data acc) = "id" :: rest)
  /\ Forall column (keys (data acc)).

Lemma id_column : column "id".
Proof. repeat split; discriminate. Qed.

Lemma initial_shaped docId : shaped (initial docId).
Proof.
  repeat split; cbn.
  - constructor; [tauto | constructor].
  - now exists [].
  - constructor; [apply id_column | constructor].
Qed.

Lemma step_shaped acc e : shaped acc -> shaped (step acc e).
Proof.
  destruct e as [f v]. intros [Hkeys [Hnd [[rest Hid] Hcols]]].
  rewrite step_eq. cbn zeta.
  set (c := finalFieldOf (data acc) (sanitizeFieldName f)).
  unfold shaped. cbn [data schema fieldMapping]. repeat split.
  - rewrite !keys_set, <- (hasOwnProperty_same_keys (data acc) (schema acc) c Hkeys).
    now rewrite Hkeys.
  - now apply NoDup_keys_set.
  - rewrite keys_set, Hid. destruct (hasOwnProperty (data acc) c); cbn; eauto.
  - rewrite keys_set. destruct (hasOwnProperty (data acc) c); [exact Hcols |].
    apply Forall_app. split; [exact Hcols |].
    constructor; [apply finalFieldOf_column | constructor].
Qed.

Lemma run_shaped es : forall acc, shaped acc -> shaped (run acc es).
Proof.
  induction es as [| e es IH]; intros acc H; [exact H |].
  rewrite run_cons. apply IH. now apply step_shaped.
Qed.

Lemma transformDocument_shaped docId entries out :
  transformDocument docId entries = Normal out -> shaped out.
Proof.
  intros H. apply transformDocument_returned in H. subst out.
  apply run_shaped, initial_shaped.
Qed.

(** ** When the loop throws *)

Lemma step_shadowed acc f v :
  shadowed (data acc) = false ->
  shadowed (data (step acc (f, v))) = String.eqb (sanitizeFieldName f) "hasOwnProperty".
Proof.
  intros H. rewrite step_eq. cbn zeta. cbn [data]. unfold shadowed in *.
  pose proof (finalFieldOf_hasOwnProperty (data acc) (sanitizeFieldName f) H) as Hiff.
  destruct (String.eqb_spec (sanitizeFieldName f) "hasOwnProperty") as [E | E].
  - apply Hiff in E. rewrite E. apply hasOwnProperty_set_same.
  - rewrite hasOwnProperty_set_other; [exact H |].
    intros E'. apply E. now apply Hiff.
Qed.

(** Some field other than the last is stored as the column
    [hasOwnProperty]. *)
Definition hides_method (entries : obj fsval) : bool :=
  existsb (fun entry => String.eqb (sanitizeFieldName (fst entry)) "hasOwnProperty")
          (removelast entries).

Lemma unshadowed_hides es : forall acc,
  shadowed (data acc) = false ->
  unshadowed acc es = negb (hides_method es).
Proof.
  induction es as [| [f v] es IH]; intros acc H; [reflexivity |].
  cbn [unshadowed]. rewrite H. cbn [negb andb].
  destruct es as [| e es']; [reflexivity |].
  unfold hides_method. cbn [removelast existsb fst].
  pose proof (step_shadowed acc f v H) as Hstep.
  destruct (String.eqb (sanitizeFieldName f) "hasOwnProperty").
  - cbn [unshadowed]. rewrite Hstep. reflexivity.
  - rewrite (IH _ Hstep). reflexivity.
Qed.

(** X25.  [transformDocument] throws exactly when a field of the document
    other than the last has the sanitized name [hasOwnProperty]: it is
    stored as a column of the object on which the loop calls that
    method for the next field.  For every other document it returns. *)
Theorem transformDocument_throws_iff (docId : string) (entries : obj fsval) :
  (transformDocument docId entries = Throw (TypeError_not_a_function "hasOwnProperty")
   <-> hides_method entries = true)
  /\ ((exists out, transformDocument docId entries = Normal out)
      <-> hides_method entries = false).
Proof.
  rewrite transformDocument_run, (unshadowed_hides entries (initial docId) eq_refl).
  destruct (hides_method entries); cbn [negb]; split; split;
    try discriminate; try reflexivity; eauto.
  intros [out H]. discriminate.
Qed.

(** X4.  Whenever [transformDocument] returns, whatever the fields of the
    document are called, the columns of the transformed document are
    pairwise distinct regular identifiers (not empty, only letters,
    digits and underscores, no leading digit), the first of them is
    [id], there is at most one column per field besides it, and the
    schema lists the same columns in the same order. *)
Theorem transformDocument_columns (docId : string) (entries : obj fsval)
    (out : TransformedDocument)
    (Hreturned : transformDocument docId entries = Normal out) :
  keys (schema out) = keys (data out)
  /\ NoDup (keys (data out))
  /\ (exists rest, keys (data out) = "id" :: rest)
  /\ (List.length (keys (data out)) <= 1 + List.length entries)%nat
  /\ forall c, In c (keys (data out)) ->
       c <> "" /\ all_chars is_word c = true /\ starts_with_digit c = false.
Proof.
  destruct (transformDocument_shaped docId entries out Hreturned) as [Hk [Hnd [Hid Hcols]]].
  split; [now symmetry |]. split; [exact Hnd |]. split; [exact Hid |]. split.
  - apply transformDocument_returned in Hreturned. subst out.
    assert (H : forall es acc,
               (List.length (keys (data (run acc es)))
                <= List.length (keys (data acc)) + List.length es)%nat).
    { induction es as [| [f v] es IH]; intros acc; [cbn; lia |].
      rewrite run_cons. specialize (IH (step acc (f, v))).
      rewrite step_eq in IH at 2. cbn zeta in IH. cbn [data] in IH.
      rewrite keys_set in IH.
      destruct (hasOwnProperty (data acc) _) in IH;
        rewrite ?length_app in IH; cbn [List.length] in *; lia. }
    apply (H entries (initial docId)).
  - intros c Hin. rewrite Forall_forall in Hcols. apply (Hcols c Hin).
Qed.

(** X5.  Whenever [transformDocument] returns for a document, no column
    of the result is called [_id] or [_path], so the properties with
    these names that the exporters add are never overwritten by a field
    of the document and never overwrite one: the exporters return too,
    the document object of the JSON file is [_id], [_path] and then the
    columns, and the row and the schema of the SQL file are the columns
    and then [_path]. *)
Theorem exporters_metadata_is_fresh (doc : Store.DocumentSnapshot)
    (out : TransformedDocument)
    (Hreturned : transformDocument (Store.id doc) (Store.data doc) = Normal out) :
  ~ In "_id" (keys (data out))
  /\ ~ In "_path" (keys (data out))
  /\ JsonExporter.transformedDocument doc
     = Normal (JObject (("_id", JString (Store.id doc))
                        :: ("_path", JString (Store.path doc)) :: data out))
  /\ SqlExporter.withPath doc
     = Normal ((data out ++ [("_path", JString (Store.path doc))])%list,
               (schema out ++ [("_path", "NVARCHAR(500)")])%list).
Proof.
  destruct (transformDocument_shaped _ _ _ Hreturned) as [Hk [Hnd [_ Hcols]]].
  rewrite Forall_forall in Hcols.
  assert (Hid : ~ In "_id" (keys (data out))).
  { intros Hin. destruct (Hcols _ Hin) as [_ [H _]]. now apply H. }
  assert (Hpath : ~ In "_path" (keys (data out))).
  { intros Hin. destruct (Hcols _ Hin) as [_ [_ [H _]]]. now apply H. }
  split; [exact Hid |]. split; [exact Hpath |]. split.
  - unfold JsonExporter.transformedDocument. rewrite Hreturned. do 2 f_equal.
    rewrite spread_fresh; [reflexivity | exact Hnd |].
    intros k Hin [<- | [<- | []]]; contradiction.
  - unfold SqlExporter.withPath. rewrite Hreturned. do 2 f_equal.
    + apply set_fresh, not_In_hasOwnProperty, Hpath.
    + apply set_fresh, not_In_hasOwnProperty. now rewrite <- Hk.
Qed.

End WithPlatform.

Lemma transformDocument_columns_witness :
  exists out,
    @transformDocument Examples.example_platform "doc1" example_entries = Normal out
    /\ keys (schema out) = keys (data out).
Proof.
  eexists. split; [reflexivity |].
  match goal with
  | |- keys (schema ?out) = _ =>
      exact (proj1 (@transformDocument_columns Examples.example_platform
                      "doc1" example_entries out eq_refl))
  end.
Defined.

Lemma exporters_metadata_is_fresh_witness :
  exists out,
    @transformDocument Examples.example_platform "u1" [] = Normal out
    /\ ~ In "_id" (keys (data out)).
Proof.
  eexists. split; [reflexivity |].
  match goal with
  | |- ~ In _ (keys (data ?out)) =>
      exact (proj1 (@exporters_metadata_is_fresh Examples.example_platform
                      (Examples.user "u1") out eq_refl))
  end.
Defined.

End DocumentShape.
(* ===================================================================== *)
(** * Merging the schemas of the documents of a table *)
(* ===================================================================== *)

Module SchemaMerging.

Import Js Transformers ObjectFacts WidenLaws SanitizedNames DocumentColumns DocumentShape.

(** The types the schemas give to a column, in the order of the schemas. *)
Definition occurrences (field : string) (schemas : list (obj string)) : list string :=
  flat_map (fun schema => match get field schema with Some t => [t] | None => [] end)
           schemas.

(** The type [mergeSchemas] stores for a column when it first meets it,
    with type [t].  For a column named like a member of
    [Object.prototype] the test [!merged[field]] sees the inherited
    member and takes the branch of [getWiderType]. *)
Definition first_type (field t : string) : string :=
  if includes Object_prototype field then getWiderType_member t else t.

(** The first type, widened by each of the following ones.  The column
    [__proto__] is never stored. *)
Definition widest (field : string) (types : list string) : option string :=
  match types with
  | [] => None
  | t :: ts =>
      if String.eqb field "__proto__" then None
      else Some (fold_left getWiderType ts (first_type field t))
  end.

(** A schema as [Object.entries] lists it: every column once, with a type
    name that is not the empty string. *)
Definition proper (schema : obj string) : Prop :=
  NoDup (keys schema) /\ Forall (fun kv => snd kv <> "") schema.

(** A schema whose types are among the twelve declared ones. *)
Definition declared (schema : obj string) : Prop :=
  NoDup (keys schema) /\ Forall (fun kv => In (snd kv) typeHierarchy) schema.

Definition truthy (merged : obj string) : Prop :=
  Forall (fun kv => snd kv <> "") merged.

Lemma declared_proper schema : declared schema -> proper schema.
Proof.
  intros [Hnd Hty]. split; [exact Hnd |].
  eapply Forall_impl; [| exact Hty]. cbn. intros [k t] Hin E. cbn in *. subst t.
  repeat (destruct Hin as [Hin | Hin]; [discriminate |]). exact Hin.
Qed.

(** ** One column through the two loops *)

Definition widen (field : string) (acc : option string) (t : string) : option string :=
  match acc with
  | Some a => Some (getWiderType a t)
  | None => if String.eqb field "__proto__" then None else Some (first_type field t)
  end.

Lemma getWiderType_nonempty a b : a <> "" -> b <> "" -> getWiderType a b <> "".
Proof.
  intros Ha Hb. unfold getWiderType.
  repeat match goal with
         | |- context [if ?c then _ else _] => destruct c
         end; auto; discriminate.
Qed.

Lemma truthy_get merged f t : truthy merged -> get f merged = Some t -> t <> "".
Proof.
  intros H Hget. apply get_In in Hget. unfold truthy in H.
  rewrite Forall_forall in H. apply (H _ Hget).
Qed.

Lemma getWiderType_member_nonempty t : t <> "" -> getWiderType_member t <> "".
Proof.
  intros Ht. unfold getWiderType_member.
  repeat match goal with
         | |- context [if ?c then _ else _] => destruct c
         end; auto; discriminate.
Qed.

Lemma not_member_not_proto f : includes Object_prototype f = false -> f <> "__proto__".
Proof. intros H ->. discriminate. Qed.

Lemma mergeField_same merged f t :
  truthy merged -> get f (mergeField merged (f, t)) = widen f (get f merged) t.
Proof.
  intros H. unfold mergeField, read, widen, first_type. cbn [fst snd].
  destruct (get f merged) as [a |] eqn:E.
  - assert (Hown : hasOwnProperty merged f = true) by (unfold hasOwnProperty; now rewrite E).
    destruct (String.eqb_spec a "") as [-> | _]; [now apply truthy_get in E |].
    destruct (assign_cases merged f (getWiderType a t)) as [[_ [Hno _]] | ->];
      [congruence | apply get_set_same].
  - assert (Hown : hasOwnProperty merged f = false) by (unfold hasOwnProperty; now rewrite E).
    destruct (includes Object_prototype f) eqn:Hm.
    + destruct (String.eqb_spec f "__proto__") as [-> | Hf].
      * unfold assign. rewrite Hown. exact E.
      * now apply get_assign_same.
    + pose proof (not_member_not_proto f Hm) as Hf.
      destruct (String.eqb_spec f "__proto__") as [? | _]; [contradiction |].
      now apply get_assign_same.
Qed.

Lemma mergeField_other merged k f t :
  k <> f -> get f (mergeField merged (k, t)) = get f merged.
Proof.
  intros Hk. unfold mergeField. cbn [fst snd].
  destruct (read k merged) as [a | m |]; [destruct (String.eqb a "") | |];
    now apply get_assign_other.
Qed.

Lemma mergeField_truthy merged k t :
  truthy merged -> t <> "" -> truthy (mergeField merged (k, t)).
Proof.
  intros H Ht. unfold mergeField, read. cbn [fst snd].
  destruct (get k merged) as [a |] eqn:E.
  - destruct (String.eqb_spec a "") as [-> | Ha].
    + now apply (Forall_values_assign (fun t => t <> "")).
    + apply (Forall_values_assign (fun t => t <> "")); [exact H |].
      now apply getWiderType_nonempty.
  - destruct (includes Object_prototype k).
    + apply (Forall_values_assign (fun t => t <> "")); [exact H |].
      now apply getWiderType_member_nonempty.
    + now apply (Forall_values_assign (fun t => t <> "")).
Qed.

Lemma mergeField_keys merged k t :
  keys (mergeField merged (k, t))
  = if hasOwnProperty merged k then keys merged
    else if String.eqb k "__proto__" then keys merged else (keys merged ++ [k])%list.
Proof.
  unfold mergeField. cbn [fst snd].
  destruct (read k merged) as [a | m |]; [destruct (String.eqb a "") | |];
    apply keys_assign.
Qed.

Lemma get_absent {A : Type} (o : obj A) k : ~ In k (keys o) -> get k o = None.
Proof.
  intros H. apply not_In_hasOwnProperty in H. unfold hasOwnProperty in H.
  now destruct (get k o).
Qed.

(** The inner loop, over the columns of one schema. *)
Lemma merge_schema f schema : forall merged,
  proper schema -> truthy merged ->
  truthy (fold_left mergeField schema merged)
  /\ get f (fold_left mergeField schema merged)
     = match get f schema with
       | Some t => widen f (get f merged) t
       | None => get f merged
       end.
Proof.
  induction schema as [| [k t] schema IH]; intros merged [Hnd Hty] Hm; [now split |].
  cbn [fold_left]. inversion Hnd as [| ? ? Hk Hnd']; subst.
  inversion Hty as [| ? ? Ht Hty']; subst. cbn [snd] in Ht.
  destruct (IH (mergeField merged (k, t)) (conj Hnd' Hty')
              (mergeField_truthy _ _ _ Hm Ht)) as [IHt IHg].
  split; [exact IHt |]. rewrite IHg. cbn [get].
  destruct (String.eqb_spec k f) as [-> | Hkf].
  - rewrite (get_absent schema f Hk). now apply mergeField_same.
  - now rewrite mergeField_other.
Qed.

(** The outer loop, over the schemas. *)
Lemma merge_schemas f schemas : forall merged,
  Forall proper schemas -> truthy merged ->
  get f (fold_left (fun merged schema => fold_left mergeField schema merged)
           schemas merged)
  = fold_left (widen f) (occurrences f schemas) (get f merged).
Proof.
  induction schemas as [| schema schemas IH]; intros merged Hs Hm; [reflexivity |].
  inversion Hs as [| ? ? Hp Hs']; subst. cbn [fold_left occurrences flat_map].
  destruct (merge_schema f schema merged Hp Hm) as [Ht Hg].
  rewrite (IH _ Hs' Ht), Hg, fold_left_app.
  now destruct (get f schema).
Qed.

Lemma fold_widen_some f ts : forall a,
  fold_left (widen f) ts (Some a) = Some (fold_left getWiderType ts a).
Proof. induction ts as [| t ts IH]; intros a; [reflexivity | apply IH]. Qed.

Lemma fold_widen_proto ts : fold_left (widen "__proto__") ts None = None.
Proof. induction ts as [| t ts IH]; [reflexivity | exact IH]. Qed.

Lemma fold_widen_none f ts : fold_left (widen f) ts None = widest f ts.
Proof.
  destruct ts as [| t ts]; [reflexivity |]. cbn [widest].
  destruct (String.eqb_spec f "__proto__") as [-> | Hf]; [apply fold_widen_proto |].
  cbn [fold_left widen]. destruct (String.eqb_spec f "__proto__"); [contradiction |].
  apply fold_widen_some.
Qed.

Lemma mergeSchemas_get f schemas :
  Forall proper schemas ->
  get f (mergeSchemas schemas) = widest f (occurrences f schemas).
Proof.
  intros H. unfold mergeSchemas. rewrite merge_schemas; [| exact H | constructor].
  apply fold_widen_none.
Qed.

Lemma mergeSchemas_NoDup schemas : NoDup (keys (mergeSchemas schemas)).
Proof.
  unfold mergeSchemas.
  assert (H : forall merged : obj string, NoDup (keys merged) ->
            NoDup (keys (fold_left (fun merged schema => fold_left mergeField schema merged)
                           schemas merged))).
  { induction schemas as [| schema schemas IH]; intros merged Hm; [exact Hm |].
    cbn [fold_left]. apply IH. clear IH. revert merged Hm.
    induction schema as [| [k t] schema IH]; intros merged Hm; [exact Hm |].
    cbn [fold_left]. apply IH. rewrite mergeField_keys.
    destruct (hasOwnProperty merged k) eqn:E; [exact Hm |].
    destruct (String.eqb k "__proto__"); [exact Hm |].
    apply NoDup_snoc; [exact Hm |]. intros Hin.
    apply hasOwnProperty_keys in Hin. congruence. }
  apply H. constructor.
Qed.

Lemma In_keys_get {A : Type} (o : obj A) k : In k (keys o) <-> get k o <> None.
Proof.
  rewrite <- hasOwnProperty_keys. unfold hasOwnProperty.
  destruct (get k o); split; congruence.
Qed.

(** ** Closure and order *)

Definition closed_on (l : list string) : bool :=
  forallb (fun a => forallb (fun b => includes l (getWiderType a b)) l) l.

Lemma includes_iff_In l s : includes l s = true <-> In s l.
Proof.
  unfold includes. rewrite existsb_exists. split.
  - intros [x [Hin E]]. apply String.eqb_eq in E. now subst.
  - intros H. exists s. split; [exact H | apply String.eqb_refl].
Qed.

Lemma getWiderType_declared a b :
  In a typeHierarchy -> In b typeHierarchy -> In (getWiderType a b) typeHierarchy.
Proof.
  assert (H : closed_on typeHierarchy = true) by (vm_compute; reflexivity).
  unfold closed_on in H. rewrite forallb_forall in H.
  intros Ha Hb. specialize (H a Ha). rewrite forallb_forall in H.
  apply includes_iff_In, (H b Hb).
Qed.

Lemma fold_getWiderType_declared ts : forall a,
  In a typeHierarchy -> Forall (fun t => In t typeHierarchy) ts ->
  In (fold_left getWiderType ts a) typeHierarchy.
Proof.
  induction ts as [| t ts IH]; intros a Ha Hts; [exact Ha |].
  inversion Hts; subst. cbn. apply IH; [now apply getWiderType_declared | assumption].
Qed.

Definition declared_opt (acc : option string) : Prop :=
  match acc with Some a => In a typeHierarchy | None => True end.

(** On the declared types, the type a member of [Object.prototype] is
    widened to is a declared type, and widening it further does not
    depend on the order. *)
Definition member_laws_on (l : list string) : bool :=
  forallb (fun x =>
             includes l (getWiderType_member x)
             && forallb (fun y =>
                           String.eqb (getWiderType (getWiderType_member x) y)
                                      (getWiderType (getWiderType_member y) x)) l) l.

Lemma member_laws x y :
  In x typeHierarchy -> In y typeHierarchy ->
  In (getWiderType_member x) typeHierarchy
  /\ getWiderType (getWiderType_member x) y = getWiderType (getWiderType_member y) x.
Proof.
  assert (H : member_laws_on typeHierarchy = true) by (vm_compute; reflexivity).
  unfold member_laws_on in H. rewrite forallb_forall in H.
  intros Hx Hy. specialize (H x Hx). apply andb_prop in H as [H1 H2].
  rewrite forallb_forall in H2. split.
  - now apply includes_iff_In.
  - apply String.eqb_eq, (H2 y Hy).
Qed.

Lemma first_type_declared f x : In x typeHierarchy -> In (first_type f x) typeHierarchy.
Proof.
  intros Hx. unfold first_type. destruct (includes Object_prototype f); [| exact Hx].
  apply (member_laws x x Hx Hx).
Qed.

Lemma widen_swap f acc x y :
  declared_opt acc -> In x typeHierarchy -> In y typeHierarchy ->
  widen f (widen f acc x) y = widen f (widen f acc y) x.
Proof.
  intros Ha Hx Hy. destruct acc as [a |].
  - cbn [widen]. f_equal. cbn in Ha.
    destruct (lattice_laws_on_sound _ a x y lattice_laws_on_hierarchy Ha Hx Hy)
      as [_ [_ H1]].
    destruct (lattice_laws_on_sound _ a y x lattice_laws_on_hierarchy Ha Hy Hx)
      as [_ [_ H2]].
    destruct (lattice_laws_on_sound _ x y y lattice_laws_on_hierarchy Hx Hy Hy)
      as [_ [H3 _]].
    now rewrite H1, H2, H3.
  - cbn [widen]. destruct (String.eqb f "__proto__") eqn:Hf.
    + cbn [widen]. now rewrite Hf.
    + cbn [widen]. f_equal. unfold first_type.
      destruct (includes Object_prototype f).
      * apply (member_laws x y Hx Hy).
      * destruct (lattice_laws_on_sound _ x y y lattice_laws_on_hierarchy Hx Hy Hy)
          as [_ [H3 _]]. exact H3.
Qed.

Lemma widen_declared f acc x :
  declared_opt acc -> In x typeHierarchy -> declared_opt (widen f acc x).
Proof.
  intros Ha Hx. destruct acc as [a |]; cbn [widen declared_opt].
  - now apply getWiderType_declared.
  - destruct (String.eqb f "__proto__"); [exact I | now apply first_type_declared].
Qed.

(** The widest type does not depend on the order of the types. *)
Lemma fold_widen_permutation f l l' :
  Permutation l l' ->
  forall acc, declared_opt acc -> Forall (fun t => In t typeHierarchy) l ->
  fold_left (widen f) l acc = fold_left (widen f) l' acc.
Proof.
  induction 1 as [| x l l' Hp IH | x y l | l l' l'' Hp1 IH1 Hp2 IH2];
    intros acc Ha Hl.
  - reflexivity.
  - inversion Hl; subst. cbn [fold_left]. apply IH; [now apply widen_declared | assumption].
  - inversion Hl as [| ? ? Hy Hl']; subst. inversion Hl' as [| ? ? Hx Hl'']; subst.
    cbn [fold_left]. now rewrite (widen_swap f acc y x).
  - rewrite IH1 by assumption. apply IH2; [assumption |].
    eapply Permutation_Forall; eassumption.
Qed.

Lemma widest_declared f ts t :
  Forall (fun t => In t typeHierarchy) ts -> widest f ts = Some t -> In t typeHierarchy.
Proof.
  intros Hts H. destruct ts as [| t0 ts]; [discriminate |]. cbn [widest] in H.
  destruct (String.eqb f "__proto__"); [discriminate |]. injection H as <-.
  inversion Hts; subst.
  apply fold_getWiderType_declared; [now apply first_type_declared | assumption].
Qed.

Lemma widest_some f ts : f <> "__proto__" -> ts <> [] -> widest f ts <> None.
Proof.
  intros Hf Hts. destruct ts as [| t ts]; [congruence |]. cbn [widest].
  destruct (String.eqb_spec f "__proto__"); [contradiction | discriminate].
Qed.

Lemma occurrences_permutation f schemas schemas' :
  Permutation schemas schemas' ->
  Permutation (occurrences f schemas) (occurrences f schemas').
Proof.
  induction 1 as [| x l l' Hp IH | x y l | l l' l'' Hp1 IH1 Hp2 IH2];
    cbn [occurrences flat_map].
  - constructor.
  - now apply Permutation_app_head.
  - rewrite !app_assoc. apply Permutation_app_tail, Permutation_app_comm.
  - eapply Permutation_trans; eassumption.
Qed.

Lemma occurrences_declared f schemas :
  Forall declared schemas ->
  Forall (fun t => In t typeHierarchy) (occurrences f schemas).
Proof.
  induction 1 as [| schema schemas [_ Hty] Hs IH]; cbn [occurrences flat_map];
    [constructor |].
  apply Forall_app. split; [| exact IH].
  destruct (get f schema) as [t |] eqn:E; [| constructor].
  constructor; [| constructor]. apply get_In in E.
  rewrite Forall_forall in Hty. apply (Hty _ E).
Qed.

Lemma occurrences_In f schemas schema t :
  In schema schemas -> get f schema = Some t -> In t (occurrences f schemas).
Proof.
  intros Hin Hget. unfold occurrences. apply in_flat_map.
  exists schema. split; [exact Hin |]. rewrite Hget. now left.
Qed.

Section WithPlatform.
Context {P : Platform}.

Lemma transformValue_declared (v : fsval) : In (sqlType (transformValue v)) typeHierarchy.
Proof.
  destruct v; cbn [transformValue];
    repeat match goal with
           | |- context [if ?c then _ else _] => destruct c
           end; cbn; tauto.
Qed.

Lemma run_declared es : forall acc,
  Forall (fun kv => In (snd kv) typeHierarchy) (schema acc) ->
  Forall (fun kv => In (snd kv) typeHierarchy) (schema (run acc es)).
Proof.
  induction es as [| [f v] es IH]; intros acc H; [exact H |].
  rewrite run_cons. apply IH. rewrite step_eq. cbn zeta. cbn [schema].
  apply (Forall_values_set (fun t => In t typeHierarchy)); [exact H |].
  apply transformValue_declared.
Qed.

(** What a returned call of the body of the loop of [exportToSql] gives:
    a row and a schema with the same columns, none of them [__proto__],
    and declared types. *)
Lemma withPath_returned (doc : Store.DocumentSnapshot) row sch :
  SqlExporter.withPath doc = Normal (row, sch) ->
  declared sch /\ keys row = keys sch /\ ~ In "__proto__" (keys row).
Proof.
  unfold SqlExporter.withPath.
  destruct (transformDocument (Store.id doc) (Store.data doc)) as [out | e] eqn:Hout;
    [| discriminate].
  intros H. injection H as <- <-.
  pose proof (transformDocument_shaped _ _ _ Hout) as [Hk [Hnd [_ Hcols]]].
  split; [split |]; [| | split].
  - apply NoDup_keys_set. now rewrite <- Hk.
  - apply (Forall_values_set (fun t => In t typeHierarchy)); [| cbn; tauto].
    apply transformDocument_returned in Hout. subst out. apply run_declared.
    constructor; [cbn; tauto | constructor].
  - rewrite !keys_set, <- (hasOwnProperty_same_keys _ _ "_path" Hk). now rewrite Hk.
  - rewrite keys_set. intros Hin.
    assert (Hin' : In "__proto__" (keys (data out))).
    { destruct (hasOwnProperty (data out) "_path"); [exact Hin |].
      apply in_app_or in Hin as [Hin | [E | []]]; [exact Hin | discriminate]. }
    rewrite Forall_forall in Hcols. destruct (Hcols _ Hin') as [_ [_ [_ H]]]. now apply H.
Qed.

(** X8.  Whenever the transformation of the documents of a table
    returns, the schema from which [exportToSql] writes CREATE TABLE and
    the column list of every INSERT is such that: each of its types is
    one of the twelve declared types, its columns are pairwise distinct,
    and every column of every row of the table is among them, so that no
    value of a document is left out of its row. *)
Theorem exportToSql_merged_schema (documents : list Store.DocumentSnapshot)
    (transformed : list (obj jsval * obj string))
    (Hreturned : map_throwing SqlExporter.withPath documents = Normal transformed) :
  let merged := mergeSchemas (map snd transformed) in
  List.length transformed = List.length documents
  /\ (forall c t, get c merged = Some t -> In t typeHierarchy)
  /\ NoDup (keys merged)
  /\ (forall row c, In row (map fst transformed) ->
        In c (keys row) -> In c (keys merged)).
Proof.
  intros merged. apply map_throwing_Normal in Hreturned.
  assert (Hall : Forall (fun rs => declared (snd rs) /\ keys (fst rs) = keys (snd rs)
                                   /\ ~ In "__proto__" (keys (fst rs))) transformed).
  { clear merged. induction Hreturned as [| doc [row sch] docs rows H _ IH];
      constructor; [| exact IH].
    cbn [fst snd]. now apply (withPath_returned doc). }
  assert (Hdecl : Forall declared (map snd transformed)).
  { apply Forall_forall. intros sch Hin. apply in_map_iff in Hin as [rs [<- Hin]].
    rewrite Forall_forall in Hall. apply (Hall rs Hin). }
  assert (Hprop : Forall proper (map snd transformed)).
  { eapply Forall_impl; [| exact Hdecl]. apply declared_proper. }
  split; [| split; [| split]].
  - symmetry. eapply Forall2_length. exact Hreturned.
  - intros c t Hget. subst merged. rewrite (mergeSchemas_get c _ Hprop) in Hget.
    apply (widest_declared c _ t (occurrences_declared c _ Hdecl) Hget).
  - apply mergeSchemas_NoDup.
  - intros row c Hrow Hc. apply in_map_iff in Hrow as [[row' sch] [E Hin]].
    cbn [fst] in E. subst row'.
    rewrite Forall_forall in Hall. destruct (Hall _ Hin) as [_ [Hk Hproto]].
    cbn [fst snd] in Hk, Hproto.
    apply In_keys_get. subst merged. rewrite (mergeSchemas_get c _ Hprop).
    apply widest_some; [intros ->; contradiction |].
    rewrite Hk in Hc. apply In_keys_get in Hc.
    destruct (get c sch) as [t |] eqn:Hget; [| congruence].
    assert (Hocc : In t (occurrences c (map snd transformed))).
    { apply occurrences_In with (schema := sch); [| exact Hget].
      apply in_map_iff. now exists (row, sch). }
    intros E. rewrite E in Hocc. destruct Hocc.
Qed.

(** X9.  [getWiderType] ranks DATETIME2 above every sized string type.
    When a field holds a string of at most 4000 characters in one
    document and a timestamp in another, the two documents are
    transformed without an exception and the merged column is DATETIME2,
    in whichever order the two documents come, while the row of the first
    document still carries the string. *)
Theorem string_and_timestamp_merge_to_datetime
    (field s id1 path1 id2 path2 : string) (seconds nanoseconds : Z)
    (Hshort : (String.length s <= 4000)%nat)
    (Hfield : sanitizeFieldName field <> "id") :
  let doc1 := {| Store.id := id1; Store.data := [(field, FString s)];
                 Store.path := path1 |} in
  let doc2 := {| Store.id := id2;
                 Store.data := [(field, FTimestamp seconds nanoseconds)];
                 Store.path := path2 |} in
  let column := sanitizeFieldName field in
  exists row1 schema1 row2 schema2,
    SqlExporter.withPath doc1 = Normal (row1, schema1)
    /\ SqlExporter.withPath doc2 = Normal (row2, schema2)
    /\ map_throwing SqlExporter.withPath [doc1; doc2]
       = Normal [(row1, schema1); (row2, schema2)]
    /\ map_throwing SqlExporter.withPath [doc2; doc1]
       = Normal [(row2, schema2); (row1, schema1)]
    /\ get column (mergeSchemas [schema1; schema2]) = Some "DATETIME2"
    /\ get column (mergeSchemas [schema2; schema1]) = Some "DATETIME2"
    /\ get column row1 = Some (JString s).
Proof.
  intros doc1 doc2 column.
  assert (Hcol : column <> "_path").
  { subst column. pose proof (sanitizeFieldName_safe_head field) as H.
    destruct (candidate_not_meta _ 0 H) as [_ H']. exact H'. }
  assert (Hproto : column <> "__proto__").
  { subst column. pose proof (finalFieldOf_not_proto [] field) as H.
    rewrite finalFieldOf_free in H by reflexivity. exact H. }
  assert (Hfree : forall docId : string,
            finalFieldOf [("id", JString docId)] column = column).
  { intros docId. apply finalFieldOf_free. unfold hasOwnProperty. cbn [get].
    destruct (String.eqb_spec "id" column) as [E | _]; [| reflexivity].
    subst column. now rewrite <- E in Hfield. }
  assert (Hwith : forall docId p v,
            exists row sch,
              SqlExporter.withPath {| Store.id := docId; Store.data := [(field, v)];
                                      Store.path := p |} = Normal (row, sch)
              /\ get column sch = Some (sqlType (transformValue v))
              /\ get column row = Some (value (transformValue v))).
  { intros docId p v. unfold SqlExporter.withPath. cbn [Store.id Store.data Store.path].
    rewrite transformDocument_run.
    assert (Hun : unshadowed (initial docId) [(field, v)] = true) by reflexivity.
    rewrite Hun. cbn [run fold_left]. rewrite step_eq.
    cbn zeta. cbn [initial data schema]. fold column. rewrite Hfree.
    eexists. eexists. split; [reflexivity |].
    split; (rewrite get_set_other by congruence); apply get_set_same. }
  assert (Hwide : first_type column (sqlType (transformValue (FString s)))
                  = sqlType (transformValue (FString s))
                  /\ getWiderType (sqlType (transformValue (FString s))) "DATETIME2"
                     = "DATETIME2"
                  /\ getWiderType "DATETIME2" (sqlType (transformValue (FString s)))
                     = "DATETIME2").
  { unfold first_type. cbn [transformValue].
    destruct (includes Object_prototype column);
      (destruct (Nat.leb_spec (String.length s) 50); [repeat split; reflexivity |]);
      (destruct (Nat.leb_spec (String.length s) 255); [repeat split; reflexivity |]);
      (destruct (Nat.leb_spec (String.length s) 1000); [repeat split; reflexivity |]);
      (destruct (Nat.leb_spec (String.length s) 4000); [repeat split; reflexivity | lia]). }
  assert (Hstamp : first_type column "DATETIME2" = "DATETIME2").
  { unfold first_type. now destruct (includes Object_prototype column). }
  destruct (Hwith id1 path1 (FString s)) as [row1 [schema1 [H1 [Hs1 Hv1]]]].
  destruct (Hwith id2 path2 (FTimestamp seconds nanoseconds))
    as [row2 [schema2 [H2 [Hs2 _]]]].
  fold doc1 in H1. fold doc2 in H2.
  destruct (withPath_returned _ _ _ H1) as [Hd1 _].
  destruct (withPath_returned _ _ _ H2) as [Hd2 _].
  apply declared_proper in Hd1, Hd2.
  cbn [transformValue sqlType] in Hs2.
  destruct Hwide as [Hw0 [Hw1 Hw2]].
  exists row1, schema1, row2, schema2.
  split; [exact H1 |]. split; [exact H2 |].
  split; [cbn [map_throwing]; now rewrite H1, H2 |].
  split; [cbn [map_throwing]; now rewrite H1, H2 |].
  assert (Hnp : String.eqb column "__proto__" = false) by now apply String.eqb_neq.
  split; [| split].
  - rewrite (mergeSchemas_get column [schema1; schema2])
      by (constructor; [assumption | constructor; [assumption | constructor]]).
    cbn [occurrences flat_map]. rewrite Hs1, Hs2. cbn [app widest fold_left].
    rewrite Hnp, Hw0. f_equal. exact Hw1.
  - rewrite (mergeSchemas_get column [schema2; schema1])
      by (constructor; [assumption | constructor; [assumption | constructor]]).
    cbn [occurrences flat_map]. rewrite Hs1, Hs2. cbn [app widest fold_left].
    rewrite Hnp, Hstamp. f_equal. exact Hw2.
  - rewrite Hv1. f_equal. cbn [transformValue].
    repeat match goal with
           | |- context [if ?c then _ else _] => destruct c
           end; reflexivity.
Qed.

End WithPlatform.

(** X6.  For schemas that list every column once with a non-empty type
    name, [mergeSchemas] gives each column the first type it meets for
    it, widened by [getWiderType] with every later one in the order of
    the schemas.  A column named like a member of [Object.prototype]
    (such as [constructor] or [toString]) is widened already at its first
    occurrence, from the inherited member: this gives NVARCHAR(MAX) when
    its first type is numeric and the first type otherwise.  A column is
    in the merged schema exactly when some schema has it and it is not
    [__proto__], which is never stored. *)
Theorem mergeSchemas_widest_of_occurrences (schemas : list (obj string))
    (Hproper : Forall proper schemas) (field : string) :
  get field (mergeSchemas schemas) = widest field (occurrences field schemas)
  /\ (In field (keys (mergeSchemas schemas))
      <-> field <> "__proto__"
          /\ exists schema, In schema schemas /\ In field (keys schema)).
Proof.
  pose proof (mergeSchemas_get field schemas Hproper) as Hget.
  split; [exact Hget |]. rewrite In_keys_get, Hget. split.
  - intros H. destruct (occurrences field schemas) as [| t ts] eqn:E; [now destruct H |].
    split.
    + intros ->. now apply H.
    + assert (Hin : In t (occurrences field schemas)) by (rewrite E; now left).
      unfold occurrences in Hin. apply in_flat_map in Hin as [schema [Hs Ht]].
      exists schema. split; [exact Hs |]. apply In_keys_get.
      destruct (get field schema); [discriminate | destruct Ht].
  - intros [Hf [schema [Hs Hk]]]. apply In_keys_get in Hk.
    destruct (get field schema) as [t |] eqn:E; [| congruence].
    pose proof (occurrences_In field schemas schema t Hs E) as Hin.
    apply widest_some; [exact Hf |]. intros E'. rewrite E' in Hin. destruct Hin.
Qed.

(** A numeric column named [constructor] becomes NVARCHAR(MAX), and a
    column named [__proto__] is dropped. *)
Example mergeSchemas_prototype_columns :
  mergeSchemas [ [("constructor", "INT"); ("__proto__", "INT"); ("toString", "BIT")];
                 [("constructor", "INT"); ("valueOf", "NVARCHAR(50)")] ]
  = [ ("constructor", "NVARCHAR(MAX)"); ("toString", "NVARCHAR(MAX)");
      ("valueOf", "NVARCHAR(50)") ].
Proof. reflexivity. Qed.

Definition example_schemas : list (obj string) :=
  [ [("id", "NVARCHAR(255)"); ("age", "INT")];
    [("id", "NVARCHAR(255)"); ("age", "FLOAT"); ("name", "NVARCHAR(50)")] ].

Lemma example_schemas_proper : Forall proper example_schemas.
Proof.
  constructor; [| constructor; [| constructor]];
    (split;
     [ repeat (constructor; [cbn; intuition discriminate |]); constructor
     | repeat (constructor; [discriminate |]); constructor ]).
Qed.

Lemma mergeSchemas_widest_of_occurrences_witness :
  get "age" (mergeSchemas example_schemas) = Some "FLOAT".
Proof.
  exact (proj1 (mergeSchemas_widest_of_occurrences example_schemas
                  example_schemas_proper "age")).
Defined.

(** X7.  For schemas whose types are among the twelve declared ones, the
    type [mergeSchemas] gives to a column and the set of merged columns
    do not depend on the order of the schemas, that is on the order in
    which the documents of the table were read; this holds of the columns
    named like members of [Object.prototype] too. *)
Theorem mergeSchemas_order_independent (schemas schemas' : list (obj string))
    (Hdeclared : Forall declared schemas)
    (Hperm : Permutation schemas schemas') :
  (forall field, get field (mergeSchemas schemas) = get field (mergeSchemas schemas'))
  /\ Permutation (keys (mergeSchemas schemas)) (keys (mergeSchemas schemas')).
Proof.
  assert (Hdeclared' : Forall declared schemas')
    by (eapply Permutation_Forall; eassumption).
  assert (Hget : forall field,
            get field (mergeSchemas schemas) = get field (mergeSchemas schemas')).
  { intros field.
    rewrite !mergeSchemas_get
      by (eapply Forall_impl; [apply declared_proper | eassumption]).
    rewrite <- !fold_widen_none.
    apply fold_widen_permutation;
      [now apply occurrences_permutation | exact I | now apply occurrences_declared]. }
  split; [exact Hget |].
  apply NoDup_Permutation; try apply mergeSchemas_NoDup.
  intros field. rewrite !In_keys_get. now rewrite Hget.
Qed.

Lemma example_schemas_declared : Forall declared example_schemas.
Proof.
  pose proof example_schemas_proper as H.
  inversion H as [| ? ? [Hnd1 _] H']; subst. inversion H' as [| ? ? [Hnd2 _] _]; subst.
  constructor; [| constructor; [| constructor]];
    (split; [assumption |]);
    repeat (constructor; [apply includes_iff_In; reflexivity |]); constructor.
Qed.

Lemma mergeSchemas_order_independent_witness :
  get "age" (mergeSchemas example_schemas) = get "age" (mergeSchemas (rev example_schemas)).
Proof.
  exact (proj1 (mergeSchemas_order_independent example_schemas (rev example_schemas)
                  example_schemas_declared (Permutation_rev example_schemas)) "age").
Defined.

Lemma string_and_timestamp_merge_to_datetime_witness :
  exists row1 schema1 row2 schema2,
    @SqlExporter.withPath Examples.example_platform
      {| Store.id := "a"; Store.data := [("seen", FString "yesterday")];
         Store.path := "log/a" |} = Normal (row1, schema1)
    /\ @SqlExporter.withPath Examples.example_platform
         {| Store.id := "b"; Store.data := [("seen", FTimestamp 0 0)];
            Store.path := "log/b" |} = Normal (row2, schema2)
    /\ get "seen" (mergeSchemas [schema1; schema2]) = Some "DATETIME2".
Proof.
  assert (Hshort : (String.length "yesterday" <= 4000)%nat) by (cbn; lia).
  assert (Hfield : sanitizeFieldName "seen" <> "id") by (cbn; discriminate).
  destruct (@string_and_timestamp_merge_to_datetime Examples.example_platform
              "seen" "yesterday" "a" "log/a" "b" "log/b" 0 0 Hshort Hfield)
    as [row1 [schema1 [row2 [schema2 [H1 [H2 [_ [_ [H _]]]]]]]]].
  exists row1, schema1, row2, schema2. auto.
Defined.

Lemma exportToSql_merged_schema_witness :
  exists transformed,
    map_throwing (@SqlExporter.withPath Examples.example_platform)
      [Examples.user "u1"; Examples.user "u2"] = Normal transformed
    /\ NoDup (keys (mergeSchemas (map snd transformed))).
Proof.
  eexists. split; [reflexivity |].
  match goal with
  | |- NoDup (keys (mergeSchemas (map snd ?t))) =>
      exact (proj1 (proj2 (proj2
               (@exportToSql_merged_schema Examples.example_platform
                  [Examples.user "u1"; Examples.user "u2"] t eq_refl))))
  end.
Defined.

End SchemaMerging.
(* ===================================================================== *)
(** * Quoted names and string literals can be read back *)
(* ===================================================================== *)

Module SqlQuoting.

Import Js SqlExporter StringFacts.

(** The body of a delimited token in which the closing delimiter [q] is
    written twice when it is meant literally, read up to the closing
    delimiter, which has to be the last character. *)
Fixpoint undouble (q : ascii) (s : string) : option string :=
  match s with
  | EmptyString => None
  | String c r =>
      if Ascii.eqb c q then
        match r with
        | EmptyString => Some EmptyString
        | String c' r' =>
            if Ascii.eqb c' q then option_map (String q) (undouble q r') else None
        end
      else option_map (String c) (undouble q r)
  end.

(** How T-SQL reads an identifier: a bracketed one up to the closing
    bracket, any other as it stands. *)
Definition read_identifier (s : string) : option string :=
  match s with
  | EmptyString => Some s
  | String c body => if Ascii.eqb c "[" then undouble "]" body else Some s
  end.

(** How T-SQL reads a national string literal. *)
Definition read_literal (s : string) : option string :=
  match s with
  | String "N" (String c body) => if Ascii.eqb c apostrophe then undouble apostrophe body else None
  | _ => None
  end.

Lemma undouble_doubled (q : ascii) (s : string) :
  undouble q (replace_class_str (fun c => Ascii.eqb c q) (String q (String q "")) s
              ++ String q "")
  = Some s.
Proof.
  induction s as [| c s IH]; cbn [replace_class_str String.append undouble].
  - now rewrite Ascii.eqb_refl.
  - destruct (Ascii.eqb_spec c q) as [-> | Hc].
    + cbn [String.append undouble]. rewrite !Ascii.eqb_refl, IH. reflexivity.
    + cbn [String.append undouble]. destruct (Ascii.eqb_spec c q); [contradiction |].
      now rewrite IH.
Qed.

Lemma needsQuoting_bracket (r : string) : needsQuoting (String "[" r) = true.
Proof.
  unfold needsQuoting.
  destruct (includes RESERVED_WORDS (toUpperCase (String "[" r))); reflexivity.
Qed.

(** X14.  [quoteName] loses nothing: reading the quoted name the way
    T-SQL reads an identifier gives the name back, whatever characters it
    holds, so two different names are never quoted to the same text. *)
Theorem quoteName_reads_back (name : string) :
  read_identifier (quoteName name) = Some name
  /\ forall other, quoteName name = quoteName other -> name = other.
Proof.
  assert (Hread : forall n, read_identifier (quoteName n) = Some n).
  { intros n. unfold quoteName. destruct (needsQuoting n) eqn:Hq.
    - cbn zeta. cbn [String.append read_identifier]. rewrite Ascii.eqb_refl.
      apply (undouble_doubled "]").
    - destruct n as [| c r]; [reflexivity |]. cbn [read_identifier].
      destruct (Ascii.eqb_spec c "[") as [-> | _]; [| reflexivity].
      rewrite needsQuoting_bracket in Hq. discriminate. }
  split; [apply Hread |].
  intros other E. pose proof (Hread name) as H1. rewrite E, Hread in H1.
  now injection H1.
Qed.

Lemma read_literal_quoted (text : string) :
  read_literal ("N'" ++ replace_class_str (fun c => Ascii.eqb c apostrophe) "''" text ++ "'")
  = Some text.
Proof.
  cbn [String.append read_literal]. rewrite Ascii.eqb_refl.
  apply (undouble_doubled apostrophe).
Qed.

Section WithPlatform.
Context {P : Platform}.

(** X15.  [escapeSqlValue] loses nothing of a string: the literal it
    writes starts with N and an apostrophe, and read the way T-SQL reads
    a string literal it ends exactly at its last character and gives the
    string back, apostrophes included; an object or array is written as
    the literal of its JSON text. *)
Theorem escapeSqlValue_reads_back :
  (forall s, read_literal (escapeSqlValue (Some (JString s))) = Some s)
  /\ (forall l, read_literal (escapeSqlValue (Some (JObject l)))
                = Some (JSON_stringify (JObject l)))
  /\ (forall l, read_literal (escapeSqlValue (Some (JArray l)))
                = Some (JSON_stringify (JArray l)))
  /\ (forall s s', escapeSqlValue (Some (JString s)) = escapeSqlValue (Some (JString s'))
                   -> s = s').
Proof.
  split; [intros s; apply read_literal_quoted |].
  split; [intros l; apply read_literal_quoted |].
  split; [intros l; apply read_literal_quoted |].
  intros s s' E. pose proof (read_literal_quoted s) as H1.
  cbn [escapeSqlValue] in E. rewrite E, read_literal_quoted in H1. now injection H1.
Qed.

(** X22.  Whatever a field of a document holds, the text that stands for
    it in the INSERT statement is NULL, the decimal text of a finite
    number, or a string literal that T-SQL reads to its end: a number
    that is not finite is never written, and no value leaves a literal
    open. *)
Theorem cell_is_well_formed (v : Transformers.fsval) :
  let cell :=
    escapeSqlValue (Some (Transformers.value (Transformers.transformValue v))) in
  cell = "NULL"
  \/ (exists x, Number_isFinite x = true /\ cell = Number_toString x)
  \/ (exists text, read_literal cell = Some text).
Proof.
  intros cell. subst cell.
  destruct v as [| | bytes | sec nano | t | lat lon | path | l | l | b | x | s];
    cbn [Transformers.transformValue Transformers.value].
  - now left.
  - now left.
  - right. right. eexists. apply read_literal_quoted.
  - right. right. eexists. apply read_literal_quoted.
  - right. right. eexists. apply read_literal_quoted.
  - right. right. eexists. apply read_literal_quoted.
  - right. right. eexists. apply read_literal_quoted.
  - right. right. eexists. apply read_literal_quoted.
  - right. right. eexists. apply read_literal_quoted.
  - right. left. exists (Number_of_Z (if b then 1 else 0)).
    destruct b; split; reflexivity.
  - destruct (Number_isFinite x) eqn:Hfin; cbn [negb]; [| now left].
    right. left. exists x. split; [exact Hfin |].
    destruct (Number_isInteger x);
      [destruct (Number_geb x (Number_of_Z (-2147483648))
                 && Number_leb x (Number_of_Z 2147483647)) |];
      cbn [Transformers.value escapeSqlValue]; now rewrite Hfin.
  - right. right. exists s.
    repeat match goal with
           | |- context [if ?c then _ else _] => destruct c
           end; apply read_literal_quoted.
Qed.

End WithPlatform.

End SqlQuoting.
(* ===================================================================== *)
(** * What a traversal reads and counts *)
(* ===================================================================== *)

Module Traversal.

Import Js Store Collector ObjectFacts Pagination FlushDiscipline Examples.

(** The collection paths read, and the documents asked for their
    sub-collections, in the order of the requests. *)
Definition collect_paths (log : list Event) : list string :=
  flat_map (fun e => match e with Collect p => [p] | _ => [] end) log.

Definition listings (log : list Event) : list string :=
  flat_map (fun e => match e with ListCollections p => [p] | _ => [] end) log.

(** The number of records in the tables. *)
Definition rows (tables : obj (list DocumentRecord)) : nat :=
  list_sum (map (fun kv => List.length (snd kv)) tables).

(** An exporter call that returned. *)
Definition json_returned (sinks : Sinks) (e : Event) : bool :=
  match e with
  | ExportToJson t docs => negb (json_throws sinks t docs)
  | _ => false
  end.

Definition sql_returned (sinks : Sinks) (e : Event) : bool :=
  match e with
  | ExportToSql t docs => negb (sql_throws sinks t docs)
  | _ => false
  end.

(** The documents of the collections read so far that belong to a table,
    in the order in which the collections were read. *)
Definition contents (db : Firestore) (processedPaths : list string) (table : string)
    : list DocumentRecord :=
  concat (map (documents db)
            (filter (fun p => String.eqb (normalizeCollectionPath p) table)
                    processedPaths)).

(** ** Maps *)

Lemma length_set {A : Type} (o : obj A) k v :
  List.length (set k v o)
  = if hasOwnProperty o k then List.length o else S (List.length o).
Proof.
  unfold hasOwnProperty. induction o as [| [k' v'] o IH]; cbn; [reflexivity |].
  destruct (String.eqb k' k); cbn; [reflexivity |]. rewrite IH.
  now destruct (get k o).
Qed.

Lemma rows_set (o : obj (list DocumentRecord)) k docs :
  rows (set k ((match get k o with Some l => l | None => [] end) ++ docs)%list o)
  = (rows o + List.length docs)%nat.
Proof.
  unfold rows, list_sum. induction o as [| [k' v'] o IH]; cbn [set get]; [cbn; lia |].
  destruct (String.eqb k' k); cbn [map fold_right snd].
  - rewrite length_app. lia.
  - rewrite IH. lia.
Qed.

Lemma set_not_empty {A : Type} (o : obj A) k v : set k v o <> [].
Proof. destruct o as [| [k' v'] o]; cbn; [| destruct (String.eqb k' k)]; discriminate. Qed.

Lemma includes_false (l : list string) (x : string) : includes l x = false -> ~ In x l.
Proof.
  intros H Hin. apply Checkpoint.includes_In in Hin. congruence.
Qed.

(** ** What [collectDocuments] returns, when it returns *)

Lemma collect_loop_returns_all (fuel : nat) :
  forall (b : nat) (done rest : list DocumentSnapshot)
         (fetched : list (list DocumentSnapshot)) (c : Collected),
    (0 < b)%nat ->
    NoDup (map id (done ++ rest)%list) ->
    collect_loop fuel (done ++ rest)%list b done (last_doc done) fetched = Some c ->
    collected c = (done ++ rest)%list.
Proof.
  induction fuel as [| fuel IH]; intros b done rest fetched c Hb Hnd; [discriminate |].
  pose proof (query_get_next done rest b Hnd) as Hquery.
  destruct (Nat.lt_ge_cases (List.length rest) b) as [Hshort | Hfull].
  - rewrite firstn_all2 in Hquery by lia.
    destruct rest as [| d rest'].
    + rewrite (collect_loop_empty _ _ _ _ _ _ Hquery). intros H. injection H as <-.
      cbn. now rewrite app_nil_r.
    + rewrite (collect_loop_nonempty _ _ _ _ _ _ _ Hquery) by discriminate.
      apply Nat.ltb_lt in Hshort. rewrite Hshort. intros H. now injection H as <-.
  - set (page := firstn b rest) in *.
    assert (Hlen : List.length page = b) by (unfold page; rewrite length_firstn; lia).
    assert (Hne : page <> []) by (intros E; rewrite E in Hlen; cbn in Hlen; lia).
    assert (Hsplit : rest = (page ++ skipn b rest)%list)
      by (unfold page; now rewrite firstn_skipn).
    assert (Hdocs : (done ++ rest)%list = ((done ++ page) ++ skipn b rest)%list)
      by now rewrite <- app_assoc, <- Hsplit.
    rewrite (collect_loop_nonempty _ _ _ _ _ _ _ Hquery Hne), Hlen, Nat.ltb_irrefl.
    intros H. rewrite Hdocs, <- (last_doc_app done page Hne) in H.
    rewrite Hdocs.
    apply (IH b (done ++ page)%list (skipn b rest) (fetched ++ [page])%list c Hb);
      [now rewrite <- Hdocs | exact H].
Qed.

Lemma collectDocuments_returns_all fuel docs b c :
  (0 < b)%nat -> NoDup (map id docs) ->
  collectDocuments fuel docs b = Some c -> collected c = docs.
Proof.
  intros Hb Hnd H. apply (collect_loop_returns_all fuel b [] docs [] c Hb Hnd H).
Qed.

(** ** The invariant of the loop over the queue *)

Definition counting (root : string) (st : State) : Prop :=
  totalDocs (results st) = rows (documentsByPath st)
  /\ List.length (listings (log st)) = totalDocs (results st)
  /\ collect_paths (log st) = processedPaths st
  /\ NoDup (processedPaths st)
  /\ jsonFiles (results st) = 0%nat
  /\ sqlFiles (results st) = 0%nat
  /\ ((processedPaths st = [] /\ documentsByPath st = []
       /\ subcollections (results st) = 0%nat
       /\ queue st = [{| qpath := root; depth := 0 |}])
      \/ ((exists rest, processedPaths st = root :: rest)
          /\ Forall (fun item => (0 < depth item)%nat) (queue st)
          /\ subcollections (results st) = pred (List.length (documentsByPath st))
          /\ (documentsByPath st = [] -> queue st = []))).

Lemma collect_paths_app l1 l2 :
  collect_paths (l1 ++ l2) = (collect_paths l1 ++ collect_paths l2)%list.
Proof. apply flat_map_app. Qed.

Lemma listings_app l1 l2 : listings (l1 ++ l2) = (listings l1 ++ listings l2)%list.
Proof. apply flat_map_app. Qed.

Lemma collect_paths_listings (docs : list DocumentRecord) :
  collect_paths (map (fun d => ListCollections (path d)) docs) = [].
Proof. induction docs; cbn; auto. Qed.

Lemma listings_listings (docs : list DocumentRecord) :
  List.length (listings (map (fun d => ListCollections (path d)) docs)) = List.length docs.
Proof. induction docs; cbn; auto. Qed.

Lemma subcollection_items_deep db processed d (docs : list DocumentSnapshot) :
  Forall (fun item => (0 < depth item)%nat)
         (flat_map (subcollection_items db processed d) docs).
Proof.
  apply Forall_forall. intros item Hin. apply in_flat_map in Hin as [doc [_ Hin]].
  unfold subcollection_items in Hin. apply in_map_iff in Hin as [p [<- _]]. cbn. lia.
Qed.

Lemma initial_state_counting root : counting root (initial_state root).
Proof.
  unfold counting. cbn. repeat split; try constructor. now repeat split.
Qed.

Lemma visit_counting fuel db b root st item rest st' :
  counting root st -> queue st = item :: rest ->
  visit fuel db b st item rest = Some st' -> counting root st'.
Proof.
  intros [Htotal [Hlist [Hpaths [Hnd [Hj [Hs Hphase]]]]]] Hq. unfold visit.
  destruct (includes (processedPaths st) (qpath item)) eqn:Hseen.
  { intros H. injection H as <-. unfold counting. cbn.
    repeat (split; [assumption |]).
    destruct Hphase as [[Hnone _] | [Hroot [Hdeep [Hsub Hempty]]]].
    - rewrite Hnone in Hseen. discriminate.
    - right. rewrite Hq in Hdeep. inversion Hdeep; subst.
      repeat split; try assumption.
      intros E. specialize (Hempty E). congruence. }
  apply includes_false in Hseen.
  destruct (collectDocuments fuel (documents db (qpath item)) b) as [c |]; [| discriminate].
  assert (Hphase' :
            (item = {| qpath := root; depth := 0 |} /\ rest = []
             /\ processedPaths st = [] /\ documentsByPath st = []
             /\ subcollections (results st) = 0%nat)
            \/ ((exists more, processedPaths st = root :: more)
                /\ (0 < depth item)%nat
                /\ Forall (fun item => (0 < depth item)%nat) rest
                /\ subcollections (results st) = pred (List.length (documentsByPath st))
                /\ documentsByPath st <> [])).
  { destruct Hphase as [[Hnone [Htab [Hsub Hroot]]] | [Hroot [Hdeep [Hsub Hempty]]]].
    - left. rewrite Hq in Hroot. injection Hroot as -> ->. now repeat split.
    - right. rewrite Hq in Hdeep. inversion Hdeep; subst.
      repeat split; try assumption.
      intros E. specialize (Hempty E). congruence. }
  assert (Hfirst : exists more, (processedPaths st ++ [qpath item])%list = root :: more).
  { destruct Hphase' as [[-> [_ [-> _]]] | [[more ->] _]]; cbn; eauto. }
  destruct (collected c) as [| d docs] eqn:Hdocs; intros H; injection H as <-;
    unfold counting; cbn [results documentsByPath queue processedPaths log
                          totalDocs subcollections jsonFiles sqlFiles].
  - rewrite collect_paths_app, listings_app. cbn. rewrite !app_nil_r, Hpaths.
    repeat (split; [first [assumption | reflexivity | now apply NoDup_snoc] |]).
    right. split; [exact Hfirst |].
    destruct Hphase' as [[_ [-> [_ [Htab Hsub]]]] | [_ [_ [Hdeep [Hsub Hne]]]]].
    + rewrite Htab, Hsub. repeat split; constructor.
    + repeat split; try assumption. intros E. contradiction.
  - change (ListCollections (path d)
            :: map (fun d0 : DocumentSnapshot => ListCollections (path d0)) docs)
      with (map (fun d0 : DocumentSnapshot => ListCollections (path d0)) (d :: docs)).
    change (subcollection_items db (processedPaths st ++ [qpath item]) (depth item) d
            ++ flat_map (subcollection_items db (processedPaths st ++ [qpath item])
                           (depth item)) docs)%list
      with (flat_map (subcollection_items db (processedPaths st ++ [qpath item])
                        (depth item)) (d :: docs)).
    change (S (List.length docs)) with (List.length (d :: docs)).
    rewrite rows_set, !collect_paths_app, !listings_app, collect_paths_listings.
    rewrite !length_app, listings_listings. cbn [collect_paths listings flat_map app].
    rewrite !app_nil_r, Hpaths. cbn [List.length].
    split; [unfold DocumentRecord in *; lia |].
    split; [unfold DocumentRecord in *; lia |]. split; [reflexivity |].
    split; [now apply NoDup_snoc |]. split; [assumption |]. split; [assumption |].
    right. split; [exact Hfirst |]. split.
    { apply Forall_app. split; [| apply (subcollection_items_deep db _ _ (d :: docs))].
      destruct Hphase' as [[_ [-> _]] | [_ [_ [Hdeep _]]]]; [constructor | exact Hdeep]. }
    split; [| intros E; now apply set_not_empty in E].
    rewrite length_set.
    destruct Hphase' as [[-> [_ [_ [Htab Hsub]]]] | [_ [Hpos [_ [Hsub Hne]]]]].
    + rewrite Htab, Hsub. reflexivity.
    + apply Nat.ltb_lt in Hpos. rewrite Hpos, andb_true_r.
      match goal with
      | |- context [hasOwnProperty ?o ?k] => destruct (hasOwnProperty o k)
      end; cbn [negb andb Nat.pred]; [exact Hsub |].
      rewrite Hsub. destruct (documentsByPath st); [contradiction | reflexivity].
Qed.

Lemma traverse_counting fuel : forall db b root st st',
  counting root st -> traverse fuel db b st = Some st' -> counting root st'.
Proof.
  induction fuel as [| fuel IH]; intros db b root st st' Hinv; cbn [traverse].
  - destruct (queue st); [| discriminate]. intros H. now injection H as <-.
  - destruct (queue st) as [| item rest] eqn:Hq.
    + intros H. now injection H as <-.
    + destruct (visit (S fuel) db b st item rest) as [st1 |] eqn:Hvisit; [| discriminate].
      apply IH. eapply visit_counting; eassumption.
Qed.

(** ** The tables and the store *)

Definition honest (db : Firestore) : Prop :=
  forall p, NoDup (map id (documents db p)).

Definition holding (db : Firestore) (st : State) : Prop :=
  forall t,
    match get t (documentsByPath st) with
    | Some l => l = contents db (processedPaths st) t /\ l <> []
    | None => contents db (processedPaths st) t = []
    end.

Lemma contents_snoc db processed p t :
  contents db (processed ++ [p]) t
  = (contents db processed t
     ++ if String.eqb (normalizeCollectionPath p) t then documents db p else [])%list.
Proof.
  unfold contents. rewrite filter_app, map_app, concat_app. cbn [filter].
  destruct (String.eqb (normalizeCollectionPath p) t); cbn; now rewrite ?app_nil_r.
Qed.

Lemma visit_holding fuel db b st item rest st' :
  (0 < b)%nat -> honest db -> holding db st ->
  visit fuel db b st item rest = Some st' -> holding db st'.
Proof.
  intros Hb Hdb Hinv. unfold visit.
  destruct (includes (processedPaths st) (qpath item)).
  { intros H. injection H as <-. exact Hinv. }
  destruct (collectDocuments fuel (documents db (qpath item)) b) as [c |] eqn:Hc;
    [| discriminate].
  apply (collectDocuments_returns_all _ _ _ _ Hb (Hdb _)) in Hc.
  destruct (collected c) as [| d docs] eqn:Hdocs; intros H; injection H as <-;
    intros t; specialize (Hinv t); cbn [documentsByPath processedPaths];
    rewrite contents_snoc, <- Hc.
  - destruct (String.eqb _ t); rewrite app_nil_r; exact Hinv.
  - destruct (String.eqb_spec (normalizeCollectionPath (qpath item)) t) as [-> | Hne].
    + rewrite get_set_same.
      destruct (get t (documentsByPath st)) as [l |].
      * destruct Hinv as [-> _]. split; [reflexivity |].
        intros E. apply app_eq_nil in E as [_ E]. discriminate.
      * rewrite Hinv. split; [reflexivity | discriminate].
    + rewrite get_set_other by exact Hne. rewrite app_nil_r. exact Hinv.
Qed.

Lemma traverse_holding fuel : forall db b st st',
  (0 < b)%nat -> honest db -> holding db st ->
  traverse fuel db b st = Some st' -> holding db st'.
Proof.
  induction fuel as [| fuel IH]; intros db b st st' Hb Hdb Hinv; cbn [traverse].
  - destruct (queue st); [| discriminate]. intros H. now injection H as <-.
  - destruct (queue st) as [| item rest] eqn:Hq.
    + intros H. now injection H as <-.
    + destruct (visit (S fuel) db b st item rest) as [st1 |] eqn:Hvisit; [| discriminate].
      apply IH; try assumption. eapply visit_holding; eassumption.
Qed.

Definition accounted (db : Firestore) (st : State) : Prop :=
  totalDocs (results st)
  = List.length (concat (map (documents db) (processedPaths st))).

Lemma visit_accounted fuel db b st item rest st' :
  (0 < b)%nat -> honest db -> accounted db st ->
  visit fuel db b st item rest = Some st' -> accounted db st'.
Proof.
  intros Hb Hdb Hinv. unfold visit, accounted in *.
  destruct (includes (processedPaths st) (qpath item)).
  { intros H. injection H as <-. exact Hinv. }
  destruct (collectDocuments fuel (documents db (qpath item)) b) as [c |] eqn:Hc;
    [| discriminate].
  apply (collectDocuments_returns_all _ _ _ _ Hb (Hdb _)) in Hc.
  destruct (collected c) as [| d docs] eqn:Hdocs; intros H; injection H as <-;
    cbn [results totalDocs processedPaths];
    rewrite map_app, concat_app, length_app; cbn [map concat];
    rewrite app_nil_r, <- Hc, Hinv; cbn [List.length]; lia.
Qed.

Lemma traverse_accounted fuel : forall db b st st',
  (0 < b)%nat -> honest db -> accounted db st ->
  traverse fuel db b st = Some st' -> accounted db st'.
Proof.
  induction fuel as [| fuel IH]; intros db b st st' Hb Hdb Hinv; cbn [traverse].
  - destruct (queue st); [| discriminate]. intros H. now injection H as <-.
  - destruct (queue st) as [| item rest] eqn:Hq.
    + intros H. now injection H as <-.
    + destruct (visit (S fuel) db b st item rest) as [st1 |] eqn:Hvisit; [| discriminate].
      apply IH; try assumption. eapply visit_accounted; eassumption.
Qed.

(** ** The export loop *)

Lemma export_table_effect sinks format r t docs r' calls failed :
  export_table sinks format r t docs = (r', calls, failed) ->
  totalDocs r' = totalDocs r
  /\ subcollections r' = subcollections r
  /\ collect_paths calls = [] /\ listings calls = []
  /\ jsonFiles r' = (jsonFiles r + List.length (filter (json_returned sinks) calls))%nat
  /\ sqlFiles r' = (sqlFiles r + List.length (filter (sql_returned sinks) calls))%nat.
Proof.
  unfold export_table.
  destruct (String.eqb format "json" || String.eqb format "both");
    destruct (String.eqb format "sql" || String.eqb format "both");
    destruct (json_throws sinks t docs) eqn:Hj;
    destruct (sql_throws sinks t docs) eqn:Hs;
    intros H; injection H as <- <- <-; cbn; rewrite ?Hj, ?Hs; cbn;
    repeat split; lia.
Qed.

Lemma export_tables_effect sinks continueOnError format tables :
  forall r log r' log' out,
    export_tables sinks continueOnError format tables r log = (r', log', out) ->
    exists calls,
      log' = (log ++ calls)%list
      /\ totalDocs r' = totalDocs r
      /\ subcollections r' = subcollections r
      /\ collect_paths calls = [] /\ listings calls = []
      /\ jsonFiles r' = (jsonFiles r + List.length (filter (json_returned sinks) calls))%nat
      /\ sqlFiles r' = (sqlFiles r + List.length (filter (sql_returned sinks) calls))%nat.
Proof.
  induction tables as [| [t docs] tables IH]; intros r log r' log' out;
    cbn [export_tables].
  - intros H. injection H as <- <- <-. exists []. rewrite app_nil_r. cbn.
    repeat split; lia.
  - destruct docs as [| d docs']; [apply IH |].
    destruct (export_table sinks format r t (d :: docs')) as [[r1 calls1] failed] eqn:Hcall.
    destruct (export_table_effect _ _ _ _ _ _ _ _ Hcall)
      as [Ht [Hsub [Hc [Hl [Hj Hs]]]]].
    destruct (failed && negb continueOnError).
    + intros H. injection H as <- <- <-. exists calls1. now repeat split.
    + intros H. destruct (IH _ _ _ _ _ H) as [calls [-> [Ht' [Hsub' [Hc' [Hl' [Hj' Hs']]]]]]].
      exists (calls1 ++ calls)%list. rewrite app_assoc. split; [reflexivity |].
      rewrite collect_paths_app, listings_app, !filter_app, !length_app, Hc, Hl, Hc', Hl'.
      repeat split; try reflexivity; lia.
Qed.

(** Unfolding a run that returned. *)
Lemma streamCollections_returned fuel db sinks b continueOnError root format run :
  streamCollections fuel db sinks b continueOnError root format = Some run ->
  exists st calls,
    traverse fuel db b (initial_state root) = Some st
    /\ documentsByPath (final run) = documentsByPath st
    /\ processedPaths (final run) = processedPaths st
    /\ log (final run) = (log st ++ calls)%list
    /\ totalDocs (results (final run)) = totalDocs (results st)
    /\ subcollections (results (final run)) = subcollections (results st)
    /\ collect_paths calls = [] /\ listings calls = []
    /\ jsonFiles (results (final run))
       = (jsonFiles (results st) + List.length (filter (json_returned sinks) calls))%nat
    /\ sqlFiles (results (final run))
       = (sqlFiles (results st) + List.length (filter (sql_returned sinks) calls))%nat.
Proof.
  unfold streamCollections.
  destruct (traverse fuel db b (initial_state root)) as [st |] eqn:Htr; [| discriminate].
  destruct (export_tables sinks continueOnError format (documentsByPath st)
              (results st) (log st)) as [[r log'] out] eqn:Hexp.
  destruct (export_tables_effect _ _ _ _ _ _ _ _ _ Hexp) as [calls [-> H]].
  intros E. injection E as <-. exists st, calls. cbn. now repeat split.
Qed.

Lemma store_events_not_returned sinks (log : list Event) :
  Forall is_store_event log ->
  filter (json_returned sinks) log = [] /\ filter (sql_returned sinks) log = [].
Proof.
  induction 1 as [| e l He _ [IHj IHs]]; [now split |].
  destruct e; cbn in *; try contradiction; now split.
Qed.

(** X10.  Whenever [streamCollections] returns, its counters agree with
    what it did: [totalDocs] is the number of records in the tables and
    also the number of documents asked for their sub-collections, and
    [subcollections] is the number of tables other than the first (the
    one of the root collection). *)
Theorem streamCollections_counts
    (fuel : nat) (db : Firestore) (sinks : Sinks) (batchSize : nat)
    (continueOnError : bool) (collectionName format : string) (run : Run)
    (Hrun : streamCollections fuel db sinks batchSize continueOnError
              collectionName format = Some run) :
  totalDocs (results (final run)) = rows (documentsByPath (final run))
  /\ totalDocs (results (final run)) = List.length (listings (log (final run)))
  /\ subcollections (results (final run))
     = pred (List.length (documentsByPath (final run))).
Proof.
  destruct (streamCollections_returned _ _ _ _ _ _ _ _ Hrun)
    as [st [calls [Htr [-> [_ [-> [-> [-> [_ [Hl _]]]]]]]]]].
  destruct (traverse_counting _ _ _ _ _ _ (initial_state_counting collectionName) Htr)
    as [Htotal [Hlist [_ [_ [_ [_ Hphase]]]]]].
  rewrite listings_app, Hl, app_nil_r.
  split; [exact Htotal |]. split; [now symmetry |].
  destruct Hphase as [[_ [-> [-> _]]] | [_ [_ [Hsub _]]]]; [reflexivity | exact Hsub].
Qed.

Lemma streamCollections_counts_witness :
  exists run,
    streamCollections 5 example_db reliable_sinks 500 true "users" "both" = Some run
    /\ totalDocs (results (final run)) = 3%nat
    /\ subcollections (results (final run)) = 1%nat.
Proof.
  eexists. split; [vm_compute; reflexivity |].
  match goal with
  | |- totalDocs (results (final ?r)) = _ /\ _ =>
      destruct (streamCollections_counts 5 example_db reliable_sinks 500 true
                  "users" "both" r eq_refl) as [Htotal [_ Hsub]]
  end.
  split; [exact Htotal | exact Hsub].
Defined.

(** X11.  Whenever [streamCollections] returns, it has read every
    collection path it processed exactly once, in the order in which it
    recorded them as processed, and the first of them is the root
    collection. *)
Theorem streamCollections_reads_each_path_once
    (fuel : nat) (db : Firestore) (sinks : Sinks) (batchSize : nat)
    (continueOnError : bool) (collectionName format : string) (run : Run)
    (Hrun : streamCollections fuel db sinks batchSize continueOnError
              collectionName format = Some run) :
  collect_paths (log (final run)) = processedPaths (final run)
  /\ NoDup (collect_paths (log (final run)))
  /\ exists rest, collect_paths (log (final run)) = collectionName :: rest.
Proof.
  destruct (streamCollections_returned _ _ _ _ _ _ _ _ Hrun)
    as [st [calls [Htr [_ [-> [-> [_ [_ [Hc _]]]]]]]]].
  destruct (traverse_counting _ _ _ _ _ _ (initial_state_counting collectionName) Htr)
    as [_ [_ [Hpaths [Hnd [_ [_ Hphase]]]]]].
  rewrite collect_paths_app, Hc, app_nil_r, Hpaths.
  split; [reflexivity |]. split; [exact Hnd |].
  destruct Hphase as [[_ [_ [_ Hq]]] | [Hroot _]]; [| exact Hroot].
  destruct (traverse_inv _ _ _ _ _ (initial_state_inv collectionName) Htr) as [_ Hempty].
  congruence.
Qed.

Lemma streamCollections_reads_each_path_once_witness :
  exists run,
    streamCollections 5 example_db reliable_sinks 500 true "users" "both" = Some run
    /\ NoDup (collect_paths (log (final run))).
Proof.
  eexists. split; [vm_compute; reflexivity |].
  match goal with
  | |- NoDup (collect_paths (log (final ?r))) =>
      destruct (streamCollections_reads_each_path_once 5 example_db reliable_sinks 500
                  true "users" "both" r eq_refl) as [_ [Hnd _]]
  end.
  exact Hnd.
Defined.

(** X12.  Whenever [streamCollections] returns, [jsonFiles] and
    [sqlFiles] are the numbers of calls of [exportToJson] and of
    [exportToSql] that returned; a call that threw is not counted. *)
Theorem streamCollections_file_counters
    (fuel : nat) (db : Firestore) (sinks : Sinks) (batchSize : nat)
    (continueOnError : bool) (collectionName format : string) (run : Run)
    (Hrun : streamCollections fuel db sinks batchSize continueOnError
              collectionName format = Some run) :
  jsonFiles (results (final run))
  = List.length (filter (json_returned sinks) (log (final run)))
  /\ sqlFiles (results (final run))
     = List.length (filter (sql_returned sinks) (log (final run))).
Proof.
  destruct (streamCollections_returned _ _ _ _ _ _ _ _ Hrun)
    as [st [calls [Htr [_ [_ [-> [_ [_ [_ [_ [-> ->]]]]]]]]]]].
  destruct (traverse_counting _ _ _ _ _ _ (initial_state_counting collectionName) Htr)
    as [_ [_ [_ [_ [-> [-> _]]]]]].
  destruct (traverse_inv _ _ _ _ _ (initial_state_inv collectionName) Htr)
    as [[_ [_ Hstore]] _].
  destruct (store_events_not_returned sinks _ Hstore) as [Hj Hs].
  rewrite !filter_app, Hj, Hs. now split.
Qed.

Lemma streamCollections_file_counters_witness :
  exists run,
    streamCollections 5 example_db failing_json_sinks 500 true "users" "both" = Some run
    /\ jsonFiles (results (final run)) = 0%nat.
Proof.
  eexists. split; [vm_compute; reflexivity |].
  match goal with
  | |- jsonFiles (results (final ?r)) = _ =>
      destruct (streamCollections_file_counters 5 example_db failing_json_sinks 500
                  true "users" "both" r eq_refl) as [Hj _]
  end.
  exact Hj.
Defined.

(** X13.  On a store whose collections hold documents with distinct
    identifiers, read in pages of [batchSize > 0]: whenever
    [streamCollections] returns, each table holds exactly the documents
    of the processed collection paths that normalize to its name, each
    collection once and in the order in which the paths were read;
    there is a table for every name with such a document and for no
    other; and [totalDocs] is the number of documents of the processed
    collections. *)
Theorem streamCollections_tables_hold_collections
    (fuel : nat) (db : Firestore) (sinks : Sinks) (batchSize : nat)
    (continueOnError : bool) (collectionName format : string) (run : Run)
    (Hbatch : (0 < batchSize)%nat)
    (Hstore : forall p, NoDup (map id (documents db p)))
    (Hrun : streamCollections fuel db sinks batchSize continueOnError
              collectionName format = Some run) :
  (forall table,
      get table (documentsByPath (final run))
      = match contents db (processedPaths (final run)) table with
        | [] => None
        | d :: docs => Some (d :: docs)
        end)
  /\ totalDocs (results (final run))
     = List.length (concat (map (documents db) (processedPaths (final run)))).
Proof.
  destruct (streamCollections_returned _ _ _ _ _ _ _ _ Hrun)
    as [st [calls [Htr [-> [-> [_ [-> _]]]]]]].
  assert (Hinit : holding db (initial_state collectionName)) by (intros t; reflexivity).
  pose proof (traverse_holding _ _ _ _ _ Hbatch Hstore Hinit Htr) as Hhold.
  split.
  - intros table. specialize (Hhold table).
    destruct (get table (documentsByPath st)) as [l |].
    + destruct Hhold as [<- Hne]. destruct l; [contradiction | reflexivity].
    + now rewrite Hhold.
  - assert (Hzero : accounted db (initial_state collectionName)) by reflexivity.
    apply (traverse_accounted _ _ _ _ _ Hbatch Hstore Hzero Htr).
Qed.

Lemma streamCollections_tables_hold_collections_witness :
  exists run,
    streamCollections 5 example_db reliable_sinks 500 true "users" "both" = Some run
    /\ get "users__orders" (documentsByPath (final run))
       = match contents example_db (processedPaths (final run)) "users__orders" with
         | [] => None
         | d :: docs => Some (d :: docs)
         end.
Proof.
  eexists. split; [vm_compute; reflexivity |].
  match goal with
  | |- get _ (documentsByPath (final ?r)) = _ =>
      apply (proj1 (streamCollections_tables_hold_collections 5 example_db reliable_sinks
                      500 true "users" "both" r (Nat.lt_0_succ 499) example_db_honest
                      eq_refl))
  end.
Defined.

End Traversal.
(* ===================================================================== *)
(** * The driver: what a run exports and what it leaves for a resume *)
(* ===================================================================== *)

Module Driver.

Import Js Index Checkpoint.

(** The root collections handed to [streamCollections], in order. *)
Definition streamed (events : list DriverEvent) : list string :=
  flat_map (fun e => match e with Streamed c _ => [c] | _ => [] end) events.

Lemma streamed_app l1 l2 : streamed (l1 ++ l2) = (streamed l1 ++ streamed l2)%list.
Proof. apply flat_map_app. Qed.

(** ** When the file system does not fail *)

Lemma saveState_written env state m :
  (forall k, writeFileSync env k = None) ->
  saveState env state m
  = ({| file := Some state; events := (events m ++ [Saved state])%list;
        ticks := ticks m |}, None).
Proof. intros H. unfold saveState. now rewrite H. Qed.

Lemma clearState_streamed env m :
  streamed (events (fst (clearState env m))) = streamed (events m).
Proof.
  destruct (clearState_events env m) as [E | [[_ E] | [message [_ E]]]]; rewrite E;
    [reflexivity | |]; rewrite streamed_app; cbn; apply app_nil_r.
Qed.

Lemma clearState_unlinked env m :
  (forall k, unlinkSync env k = None) ->
  snd (clearState env m) = None /\ file (fst (clearState env m)) = None.
Proof.
  intros H. unfold clearState. destruct (file m) eqn:E; [| now split].
  rewrite H. now split.
Qed.

(** ** The plan *)

Lemma collectionsAfter_permutation options collectionsToExport m :
  Permutation (collectionsAfter (resumeCheck options collectionsToExport m))
              collectionsToExport.
Proof.
  unfold resumeCheck.
  destruct (opt_resume options); [| reflexivity].
  destruct (loadState m) as [savedState |]; [| reflexivity].
  destruct (sameFormat options savedState && sameCollections collectionsToExport savedState);
    cbn [collectionsAfter]; symmetry; apply sort_perm.
Qed.

Lemma remainingCollections_In plan c :
  In c (remainingCollections plan)
  <-> In c (collectionsAfter plan) /\ ~ In c (completedCollections plan).
Proof.
  unfold remainingCollections. rewrite filter_In, negb_true_iff. split.
  - intros [Hin Hnot]. split; [exact Hin |]. intros H.
    apply includes_In in H. congruence.
  - intros [Hin Hnot]. split; [exact Hin |].
    destruct (includes (completedCollections plan) c) eqn:E; [| reflexivity].
    apply includes_In in E. contradiction.
Qed.

(** ** The loop when errors are not thrown again *)

Lemma exportLoop_continues env (remaining : list string) :
  (forall k, writeFileSync env k = None) ->
  forall currentState m,
    snd (exportLoop env true remaining currentState m) = None
    /\ streamed (events (fst (exportLoop env true remaining currentState m)))
       = (streamed (events m) ++ remaining)%list.
Proof.
  intros Hw.
  induction remaining as [| name rest IH]; intros currentState m; cbn [exportLoop].
  - cbn. now rewrite app_nil_r.
  - unfold now. cbn [ticks file events].
    destruct (stream env name) as [message |]; rewrite !saveState_written by exact Hw;
      cbv beta iota zeta; cbn [ticks file events];
      rewrite ?saveState_written by exact Hw; cbv beta iota zeta;
      match goal with |- context [exportLoop env true rest ?st ?m1] =>
        destruct (IH st m1) as [Hret Hev] end;
      (split; [exact Hret |]); rewrite Hev; cbn [events];
      rewrite !streamed_app; cbn; now rewrite app_nil_r, <- app_assoc.
Qed.

(** ** The loop when an error is thrown again *)


(** An environment in which only the exports of the collections can
    fail. *)
Definition steady (env : Environment) : Prop :=
  initializeFirebase env = None
  /\ (forall k, writeFileSync env k = None)
  /\ (forall k, unlinkSync env k = None).

(** The machine and the state with which [main] enters the loop. *)
Lemma main_unfold env continueOnError options requested collectionsToExport m :
  steady env ->
  Index.collectionsToExport env requested = inl collectionsToExport ->
  let m0 := if opt_reset options then fst (clearState env m) else m in
  let plan := resumeCheck options collectionsToExport m0 in
  (remainingCollections plan = [] /\ resuming plan = true
   /\ main env continueOnError options requested m
      = {| machine := fst (clearState env m0); exitCode := 0 |})
  \/ (exists currentState m1,
        format currentState = opt_format options
        /\ requestedCollections currentState = collectionsAfter plan
        /\ completed currentState = completedCollections plan
        /\ events m1 = events m0
        /\ main env continueOnError options requested m
           = match exportLoop env continueOnError (remainingCollections plan)
                     currentState m1 with
             | (m2, Some _) => {| machine := m2; exitCode := 1 |}
             | (m2, None) => {| machine := fst (clearState env m2); exitCode := 0 |}
             end).
Proof.
  intros [Hinit [Hw Hu]] Hlisted m0 plan. unfold main.
  assert (Hreset : (if opt_reset options then clearState env m else (m, None))
                   = (m0, None)).
  { subst m0. destruct (opt_reset options); [| reflexivity].
    destruct (clearState_unlinked env m Hu) as [H _].
    destruct (clearState env m) as [m' thrown]. cbn [fst snd] in *. now subst thrown. }
  rewrite Hreset. unfold main_try. rewrite Hinit, Hlisted. fold plan.
  assert (Hclear : forall m', clearState env m' = (fst (clearState env m'), None)).
  { intros m'. destruct (clearState_unlinked env m' Hu) as [H _].
    destruct (clearState env m') as [m'' thrown]. cbn [fst snd] in *. now subst thrown. }
  destruct ((List.length (remainingCollections plan) =? 0)%nat && resuming plan) eqn:Hall.
  - left. apply andb_prop in Hall as [Hlen Hres]. apply Nat.eqb_eq in Hlen.
    split; [now destruct (remainingCollections plan) |]. split; [exact Hres |].
    now rewrite Hclear.
  - right.
    destruct (if resuming plan
              then (match loadState m0 with
                    | Some savedState => startedAt savedState
                    | None => ""
                    end, m0)
              else now env m0) as [started m1] eqn:Hstart.
    assert (Hev1 : events m1 = events m0).
    { destruct (resuming plan); unfold now in Hstart; injection Hstart as _ <-; reflexivity. }
    unfold now. cbn [ticks file events].
    exists {| format := opt_format options;
              requestedCollections := collectionsAfter plan;
              completed := completedCollections plan;
              startedAt := started;
              lastUpdated := clock env (ticks m1);
              lastError := None |},
           {| file := file m1; events := events m1; ticks := S (ticks m1) |}.
    cbn [format requestedCollections completed events].
    split; [reflexivity |]. split; [reflexivity |]. split; [reflexivity |].
    split; [exact Hev1 |].
    match goal with
    | |- context [exportLoop env continueOnError ?r ?st ?m2] =>
        destruct (exportLoop env continueOnError r st m2) as [m3 [thrown |]]
    end; [reflexivity |].
    now rewrite Hclear.
Qed.

(** X16.  With [continueOnError] set, as [src/config.js] sets it, when
    [initializeFirebase] and the listing of the root collections return
    and no write or removal of the state file fails, a run of [main]
    hands to [streamCollections] exactly the collections to export that
    the resume check did not find completed, each in its turn, whichever
    of their exports fail; every collection to export is either among
    them or among the completed ones, never both; and the run ends with
    exit code 0 and without a state file. *)
Theorem main_exports_every_remaining_collection
    (env : Environment) (options : Options) (requested collectionsToExport : list string)
    (m : Machine)
    (Hsteady : steady env)
    (Hlisted : Index.collectionsToExport env requested = inl collectionsToExport) :
  let m0 := if opt_reset options then fst (clearState env m) else m in
  let plan := resumeCheck options collectionsToExport m0 in
  let out := main env true options requested m in
  streamed (events (machine out))
  = (streamed (events m) ++ remainingCollections plan)%list
  /\ (forall c, In c collectionsToExport <->
                (In c (remainingCollections plan) /\ ~ In c (completedCollections plan))
                \/ (In c collectionsToExport /\ In c (completedCollections plan)))
  /\ exitCode out = 0%nat
  /\ file (machine out) = None.
Proof.
  intros m0 plan out.
  assert (Hm0 : streamed (events m0) = streamed (events m)).
  { subst m0. destruct (opt_reset options); [apply clearState_streamed | reflexivity]. }
  assert (Hsplit : forall c, In c collectionsToExport <->
            (In c (remainingCollections plan) /\ ~ In c (completedCollections plan))
            \/ (In c collectionsToExport /\ In c (completedCollections plan))).
  { intros c. rewrite remainingCollections_In.
    assert (Hperm : In c (collectionsAfter plan) <-> In c collectionsToExport).
    { split; apply Permutation_in;
        [| symmetry]; apply collectionsAfter_permutation. }
    rewrite Hperm.
    destruct (includes (completedCollections plan) c) eqn:E.
    - apply includes_In in E. tauto.
    - assert (~ In c (completedCollections plan))
        by (intros H; apply includes_In in H; congruence).
      tauto. }
  pose proof Hsteady as [_ [Hw Hu]].
  destruct (main_unfold env true options requested collectionsToExport m Hsteady Hlisted)
    as [[Hnone [_ Hmain]] | [currentState [m1 [_ [_ [_ [Hev1 Hmain]]]]]]];
    fold m0 in Hmain; fold plan in Hmain; subst out; rewrite Hmain.
  - fold m0 in Hnone. fold plan in Hnone. cbn [machine exitCode].
    split; [| split; [exact Hsplit | split; [reflexivity |]]].
    + now rewrite clearState_streamed, Hm0, Hnone, app_nil_r.
    + apply (clearState_unlinked env m0 Hu).
  - destruct (exportLoop_continues env (remainingCollections plan) Hw currentState m1)
      as [Hret Hev].
    destruct (exportLoop env true (remainingCollections plan) currentState m1)
      as [m2 thrown].
    cbn [fst snd] in Hret, Hev. subst thrown. cbn [machine exitCode].
    split; [| split; [exact Hsplit | split; [reflexivity |]]].
    + fold m0 in Hev1. now rewrite clearState_streamed, Hev, Hev1, Hm0.
    + apply (clearState_unlinked env m2 Hu).
Qed.


(** X26.  When [initializeFirebase] throws, or the root collections are
    needed and their listing throws, the run of [main] ends with exit
    code 1 before any collection is handed to [streamCollections], and
    without [--reset] it leaves the state file as it found it.  A failed
    removal of the state file does the same, and so does, even with
    [continueOnError], a failed write of the state after a failed
    export. *)
Theorem main_fails_outside_the_exports
    (env : Environment) (continueOnError : bool) (options : Options)
    (requested : list string) (m : Machine) :
  ((exists message,
      initializeFirebase env = Some message
      \/ Index.collectionsToExport env requested = inr message) ->
   let out := main env continueOnError options requested m in
   exitCode out = 1%nat
   /\ streamed (events (machine out)) = streamed (events m)
   /\ (opt_reset options = false -> machine out = m))
  /\ (forall message state,
        opt_reset options = true -> file m = Some state ->
        unlinkSync env (List.length (events m)) = Some message ->
        main env continueOnError options requested m
        = {| machine := {| file := Some state;
                           events := (events m ++ [ClearFailed message])%list;
                           ticks := ticks m |};
             exitCode := 1 |})
  /\ (forall name rest currentState thrown message,
        stream env name = Some thrown ->
        writeFileSync env (S (List.length (events m))) = Some message ->
        exportLoop env continueOnError (name :: rest) currentState m
        = ({| file := file m;
              events := (events m
                         ++ [ Streamed name (Some thrown);
                              SaveFailed (with_error currentState name thrown
                                            (clock env (ticks m))) message ])%list;
              ticks := S (ticks m) |},
           Some message)).
Proof.
  split; [| split].
  - intros [message Hfail] out. subst out. unfold main.
    assert (Htry : forall m', main_try env continueOnError options requested m'
                              = (m', Some message)
                              \/ exists other,
                                   main_try env continueOnError options requested m'
                                   = (m', Some other)).
    { intros m'. unfold main_try. destruct (initializeFirebase env) as [other |].
      - right. now exists other.
      - destruct Hfail as [Hfail | Hfail]; [discriminate |]. rewrite Hfail. now left. }
    destruct (opt_reset options).
    + pose proof (clearState_streamed env m) as Hs.
      destruct (clearState env m) as [m' [failure |]]; cbn [fst] in Hs.
      * cbn [machine exitCode]. repeat split; [exact Hs | discriminate].
      * destruct (Htry m') as [-> | [other ->]]; cbn [machine exitCode];
          repeat split; try exact Hs; discriminate.
    + destruct (Htry m) as [-> | [other ->]]; cbn [machine exitCode]; now repeat split.
  - intros message state Hreset Hfile Hunlink. unfold main, clearState.
    now rewrite Hreset, Hfile, Hunlink.
  - intros name rest currentState thrown message Hstream Hwrite.
    cbn [exportLoop]. rewrite Hstream. unfold now, saveState. cbn [ticks file events].
    rewrite length_app, Nat.add_comm. cbn [List.length Nat.add]. rewrite Hwrite.
    now rewrite <- app_assoc.
Qed.

(** Three collections, the second of which cannot be read. *)
Definition flaky_env : Environment := {|
  initializeFirebase := None;
  getRootCollections := inl ["items"; "orders"; "users"];
  stream := fun c => if String.eqb c "orders" then Some "permission denied" else None;
  clock := fun _ => "2024-01-15T10:30:00.000Z";
  writeFileSync := fun _ => None;
  unlinkSync := fun _ => None
|}.

Lemma flaky_env_steady : steady flaky_env.
Proof. repeat split. Qed.

(** No collection is requested: the root collections are listed. *)
Lemma main_exports_every_remaining_collection_witness :
  streamed (events (machine (main flaky_env true fresh_options [] no_file)))
  = ["items"; "orders"; "users"]
  /\ exitCode (main flaky_env true fresh_options [] no_file) = 0%nat.
Proof.
  destruct (main_exports_every_remaining_collection flaky_env fresh_options []
              ["items"; "orders"; "users"] no_file flaky_env_steady eq_refl)
    as [H [_ [Hexit _]]].
  split; [exact H | exact Hexit].
Defined.


Lemma main_fails_outside_the_exports_witness :
  exitCode (main {| initializeFirebase := Some "service account key not found";
                    getRootCollections := inl [];
                    stream := fun _ => None;
                    clock := fun _ => "2024-01-15T10:30:00.000Z";
                    writeFileSync := fun _ => None;
                    unlinkSync := fun _ => None |}
              true fresh_options ["users"] no_file) = 1%nat.
Proof.
  refine (proj1 (proj1 (main_fails_outside_the_exports _ true fresh_options ["users"]
                          no_file) _)).
  exists "service account key not found". now left.
Defined.

End Driver.
(* ===================================================================== *)
(** * The converter against the exporter *)
(* ===================================================================== *)

Module Reconversion.

Import Js Transformers SanitizedNames.

(** What [JSON.parse] reads back from the text [JSON.stringify] wrote for
    a value: a number that is not finite was written as null, negative
    zero was written as 0, every other value comes back as it was. *)
Fixpoint parsed (v : jsval) : Convert.json :=
  match v with
  | JNull => Convert.JsonNull
  | JNumber x =>
      match x with
      | S754_zero _ => Convert.JsonNumber (S754_zero false)
      | S754_finite _ _ _ => Convert.JsonNumber x
      | S754_infinity _ | S754_nan => Convert.JsonNull
      end
  | JString s => Convert.JsonString s
  | JArray l => Convert.JsonArray (map parsed l)
  | JObject l => Convert.JsonObject (map (fun kv => (fst kv, parsed (snd kv))) l)
  end.

(** The laws of [WidenLaws.lattice_laws_at], for the converter. *)
Definition agrees_at (a b c : string) : bool :=
  String.eqb (Convert.getWiderType a b) (getWiderType a b)
  && String.eqb (Convert.getWiderType a a) a
  && String.eqb (Convert.getWiderType a b) (Convert.getWiderType b a)
  && String.eqb (Convert.getWiderType (Convert.getWiderType a b) c)
                (Convert.getWiderType a (Convert.getWiderType b c))
  && includes Convert.typeOrder (Convert.getWiderType a b).

Definition agrees_on (l : list string) : bool :=
  forallb (fun a => forallb (fun b => forallb (agrees_at a b) l) l) l.

Lemma agrees_on_typeOrder : agrees_on Convert.typeOrder = true.
Proof. vm_compute. reflexivity. Qed.

(** X18.  On the ten types the converter knows, its own [getWiderType]
    returns what the [getWiderType] of the exporter returns, stays within
    the ten types, and is idempotent, commutative and associative. *)
Theorem converter_getWiderType_agrees (a b c : string)
    (Ha : In a Convert.typeOrder) (Hb : In b Convert.typeOrder)
    (Hc : In c Convert.typeOrder) :
  Convert.getWiderType a b = getWiderType a b
  /\ In (Convert.getWiderType a b) Convert.typeOrder
  /\ Convert.getWiderType a a = a
  /\ Convert.getWiderType a b = Convert.getWiderType b a
  /\ Convert.getWiderType (Convert.getWiderType a b) c
     = Convert.getWiderType a (Convert.getWiderType b c).
Proof.
  pose proof agrees_on_typeOrder as H. unfold agrees_on in H.
  rewrite forallb_forall in H. specialize (H a Ha).
  rewrite forallb_forall in H. specialize (H b Hb).
  rewrite forallb_forall in H. specialize (H c Hc).
  unfold agrees_at in H.
  apply andb_prop in H as [H Hin]. apply andb_prop in H as [H Hassoc].
  apply andb_prop in H as [H Hcomm]. apply andb_prop in H as [Hsame Hidem].
  apply String.eqb_eq in Hsame, Hidem, Hcomm, Hassoc.
  apply Checkpoint.includes_In in Hin. auto.
Qed.

Lemma converter_getWiderType_agrees_witness :
  Convert.getWiderType "INT" "NVARCHAR(50)" = getWiderType "INT" "NVARCHAR(50)".
Proof.
  assert (Ha : In "INT" Convert.typeOrder) by (apply Checkpoint.includes_In; reflexivity).
  assert (Hb : In "NVARCHAR(50)" Convert.typeOrder)
    by (apply Checkpoint.includes_In; reflexivity).
  exact (proj1 (converter_getWiderType_agrees "INT" "NVARCHAR(50)" "INT" Ha Hb Ha)).
Defined.

(** ** The schema of a converted file *)

Lemma inferSqlType_known (value : option Convert.json) :
  In (Convert.inferSqlType value) Convert.typeOrder.
Proof.
  apply Checkpoint.includes_In.
  destruct value as [[| b | x | s | l | l] |]; cbn [Convert.inferSqlType];
    repeat match goal with
           | |- context [if ?c then _ else _] => destruct c
           end; reflexivity.
Qed.

Lemma converter_getWiderType_known a b :
  In a Convert.typeOrder -> In b Convert.typeOrder ->
  In (Convert.getWiderType a b) Convert.typeOrder.
Proof.
  pose proof agrees_on_typeOrder as H. unfold agrees_on in H.
  rewrite forallb_forall in H. intros Ha Hb. specialize (H a Ha).
  rewrite forallb_forall in H. specialize (H b Hb).
  rewrite forallb_forall in H. specialize (H a Ha).
  unfold agrees_at in H. apply andb_prop in H as [_ Hin].
  now apply Checkpoint.includes_In.
Qed.

Definition known (schema : obj string) : Prop :=
  NoDup (keys schema) /\ Forall (fun kv => In (snd kv) Convert.typeOrder) schema.

Lemma getWiderType_member_known t :
  In t Convert.typeOrder -> In (Convert.getWiderType_member t) Convert.typeOrder.
Proof.
  assert (H : forallb (fun t => includes Convert.typeOrder (Convert.getWiderType_member t))
                Convert.typeOrder = true) by (vm_compute; reflexivity).
  rewrite forallb_forall in H. intros Ht. apply Checkpoint.includes_In, H, Ht.
Qed.

Lemma assign_known schema key t :
  known schema -> In t Convert.typeOrder -> known (assign key t schema).
Proof.
  intros [Hnd Hty] Ht.
  destruct (ObjectFacts.assign_cases schema key t) as [[_ [_ ->]] | ->]; [now split |].
  split; [now apply ObjectFacts.NoDup_keys_set |].
  now apply (ObjectFacts.Forall_values_set (fun t => In t Convert.typeOrder)).
Qed.

Lemma schemaField_known schema entry : known schema -> known (Convert.schemaField schema entry).
Proof.
  intros Hk. unfold Convert.schemaField, read.
  destruct (get (fst entry) schema) as [t |] eqn:Hget; [destruct (String.eqb t "") |].
  - apply assign_known; [exact Hk | apply inferSqlType_known].
  - apply assign_known; [exact Hk |].
    apply converter_getWiderType_known; [| apply inferSqlType_known].
    destruct Hk as [_ Hty].
    apply ObjectFacts.get_In in Hget. rewrite Forall_forall in Hty. apply (Hty _ Hget).
  - destruct (includes Object_prototype (fst entry)).
    + apply assign_known; [exact Hk |].
      apply getWiderType_member_known, inferSqlType_known.
    + apply assign_known; [exact Hk | apply inferSqlType_known].
Qed.

Lemma schemaField_keys schema entry k :
  In k (keys (Convert.schemaField schema entry))
  <-> In k (keys schema) \/ (k = fst entry /\ k <> "__proto__").
Proof.
  assert (H : forall t, In k (keys (assign (fst entry) t schema))
                        <-> In k (keys schema) \/ (k = fst entry /\ k <> "__proto__")).
  { intros t. rewrite ObjectFacts.keys_assign.
    destruct (hasOwnProperty schema (fst entry)) eqn:E.
    - apply ObjectFacts.hasOwnProperty_keys in E. split; [tauto |].
      intros [Hin | [-> _]]; assumption.
    - destruct (String.eqb_spec (fst entry) "__proto__") as [Hp | Hp].
      + split; [tauto |]. intros [Hin | [-> Hne]]; [assumption | contradiction].
      + rewrite in_app_iff. cbn. split.
        * intros [Hin | [Hin | []]]; [now left | right]. subst k. now split.
        * intros [Hin | [-> _]]; auto. }
  unfold Convert.schemaField.
  destruct (read (fst entry) schema) as [t | m |]; [destruct (String.eqb t "") | |];
    apply H.
Qed.

Lemma schema_of_document doc : forall schema,
  known schema ->
  known (fold_left Convert.schemaField doc schema)
  /\ forall k, In k (keys (fold_left Convert.schemaField doc schema))
               <-> In k (keys schema) \/ (In k (keys doc) /\ k <> "__proto__").
Proof.
  induction doc as [| entry doc IH]; intros schema Hk; cbn [fold_left].
  - split; [exact Hk |]. intros k. cbn. tauto.
  - destruct (IH _ (schemaField_known schema entry Hk)) as [Hk' Hkeys].
    split; [exact Hk' |]. intros k. rewrite Hkeys, schemaField_keys. cbn.
    split.
    + intros [[H | [H Hne]] | [H Hne]]; auto.
    + intros [H | [[H | H] Hne]]; auto.
Qed.

(** X21.  The schema [convertJsonToSql] builds from the documents of a
    file has pairwise distinct columns, gives each a type among the ten
    the converter knows, and has a column for exactly the keys that occur
    in some document, except the key [__proto__], for which it never has
    a column.  A key named like a member of [Object.prototype] is
    compared with that member where it first occurs: a number or a
    boolean under the key [constructor] gives the column NVARCHAR(MAX). *)
Theorem converter_schema (documents : list (obj Convert.json)) :
  let schema := Convert.buildSchema documents in
  NoDup (keys schema)
  /\ (forall column type, get column schema = Some type -> In type Convert.typeOrder)
  /\ (forall column, In column (keys schema)
                     <-> column <> "__proto__"
                         /\ exists doc, In doc documents /\ In column (keys doc))
  /\ (forall x,
        Convert.buildSchema [[("constructor", Convert.JsonNumber x)]]
        = [("constructor", "NVARCHAR(MAX)")])
  /\ (forall b,
        Convert.buildSchema [[("constructor", Convert.JsonBoolean b)]]
        = [("constructor", "NVARCHAR(MAX)")]).
Proof.
  intros schema. subst schema. unfold Convert.buildSchema.
  assert (H : forall docs start, known start ->
            known (fold_left (fun schema doc => fold_left Convert.schemaField doc schema)
                     docs start)
            /\ forall k,
                 In k (keys (fold_left
                               (fun schema doc => fold_left Convert.schemaField doc schema)
                               docs start))
                 <-> In k (keys start)
                     \/ (k <> "__proto__" /\ exists doc, In doc docs /\ In k (keys doc))).
  { induction docs as [| doc docs IH]; intros start Hk; cbn [fold_left].
    - split; [exact Hk |]. intros k.
      split; [auto | intros [Hin | [_ [doc [[] _]]]]; exact Hin].
    - destruct (schema_of_document doc start Hk) as [Hk1 Hkeys1].
      destruct (IH _ Hk1) as [Hk2 Hkeys2]. split; [exact Hk2 |].
      intros k. rewrite Hkeys2, Hkeys1. split.
      + intros [[Hin | [Hin Hne]] | [Hne [d [Hd Hin]]]]; [now left | right | right].
        * split; [exact Hne |]. exists doc. split; [now left | exact Hin].
        * split; [exact Hne |]. exists d. split; [now right | exact Hin].
      + intros [Hin | [Hne [d [[<- | Hd] Hin]]]]; [now left; left | now left; right |].
        right. split; [exact Hne |]. now exists d. }
  destruct (H documents [] (conj (NoDup_nil _) (Forall_nil _))) as [[Hnd Hty] Hkeys].
  split; [exact Hnd |]. split; [| split; [| split]].
  - intros column type Hget. apply ObjectFacts.get_In in Hget.
    rewrite Forall_forall in Hty. apply (Hty _ Hget).
  - intros column. rewrite Hkeys. cbn. split; [intros [[] | Hin]; exact Hin | auto].
  - intros x.
    assert (Ht : In (Convert.inferSqlType (Some (Convert.JsonNumber x)))
                    ["INT"; "BIGINT"; "FLOAT"]).
    { unfold Convert.inferSqlType.
      repeat match goal with
             | |- context [if ?c then _ else _] => destruct c
             end; cbn; auto. }
    cbn [fold_left]. unfold Convert.schemaField. cbn [fst snd].
    destruct Ht as [<- | [<- | [<- | []]]]; reflexivity.
  - intros b. reflexivity.
Qed.

Section WithPlatform.
Context {P : Platform}.

(** X19.  The converter infers the column types again from the values of
    the JSON file.  For a finite number it infers the type the exporter
    declared, and so it does for a string that does not begin like a date
    and time; a boolean, which the exporter writes as 1 or 0 and declares
    BIT, is inferred as INT. *)
Theorem converter_infers_types_again (x : number) (s : string) (b : bool)
    (Hfinite : Number_isFinite x = true)
    (Hplain : Convert.test_prefix Convert.datetime_pattern s = false) :
  Convert.inferSqlType (Some (parsed (value (transformValue (FNumber x)))))
  = sqlType (transformValue (FNumber x))
  /\ Convert.inferSqlType (Some (parsed (value (transformValue (FString s)))))
     = sqlType (transformValue (FString s))
  /\ sqlType (transformValue (FBoolean b)) = "BIT"
  /\ Convert.inferSqlType (Some (parsed (value (transformValue (FBoolean b))))) = "INT".
Proof.
  split; [| split; [| split]].
  - cbn [transformValue]. rewrite Hfinite. cbn [negb].
    destruct x as [sg | sg | | sg m e]; try discriminate.
    + destruct sg; reflexivity.
    + destruct (Number_isInteger (S754_finite sg m e)) eqn:Hint.
      * destruct (Number_geb (S754_finite sg m e) (Number_of_Z (-2147483648))
                  && Number_leb (S754_finite sg m e) (Number_of_Z 2147483647)) eqn:Hrange;
          cbn [value sqlType parsed Convert.inferSqlType]; now rewrite Hint, Hrange.
      * cbn [value sqlType parsed Convert.inferSqlType]. now rewrite Hint.
  - cbn [transformValue].
    repeat match goal with
           | |- context [if (?n <=? ?k)%nat then _ else _] =>
               destruct (n <=? k)%nat eqn:?
           end;
      cbn [value sqlType parsed Convert.inferSqlType]; rewrite Hplain;
      repeat match goal with
             | H : (_ <=? _)%nat = _ |- _ => rewrite H; clear H
             end; reflexivity.
  - reflexivity.
  - destruct b; reflexivity.
Qed.

Lemma stringify_parsed (v : jsval) :
  Convert.JSON_stringify (parsed v) = JSON_stringify v.
Proof.
  revert v. fix IH 1. intros [| x | s | l | l].
  - reflexivity.
  - destruct x as [[] | [] | | [] m e]; reflexivity.
  - reflexivity.
  - cbn [parsed Convert.JSON_stringify JSON_stringify]. rewrite map_map.
    assert (E : map (fun x => Convert.JSON_stringify (parsed x)) l = map JSON_stringify l).
    { induction l as [| a l IHl]; [reflexivity |].
      cbn [map]. now rewrite (IH a), IHl. }
    now rewrite E.
  - cbn [parsed Convert.JSON_stringify JSON_stringify]. rewrite map_map.
    assert (E : map (fun kv : string * jsval =>
                       JSON_quote (fst (fst kv, parsed (snd kv))) ++ ":"
                       ++ Convert.JSON_stringify (snd (fst kv, parsed (snd kv)))) l
                = map (fun kv => JSON_quote (fst kv) ++ ":" ++ JSON_stringify (snd kv)) l).
    { induction l as [| [k a] l IHl]; [reflexivity |].
      cbn [map]. f_equal; [| exact IHl]. cbn [fst snd]. now rewrite (IH a). }
    now rewrite E.
Qed.

(** X23.  For every value of an exported JSON file, the converter writes
    the same text into its INSERT statement as the exporter wrote into
    the SQL file for the value before it was serialized: NULL for null
    and for a number that is not finite, the same digits for a number,
    the same literal for a string, an array or an object. *)
Theorem converter_writes_same_cells (v : jsval) :
  Convert.escapeSqlValue (Some (parsed v)) = SqlExporter.escapeSqlValue (Some v).
Proof.
  destruct v as [| x | s | l | l].
  - reflexivity.
  - destruct x as [[] | [] | | [] m e]; reflexivity.
  - reflexivity.
  - change (parsed (JArray l)) with (Convert.JsonArray (map parsed l)).
    cbn [Convert.escapeSqlValue SqlExporter.escapeSqlValue].
    change (Convert.JsonArray (map parsed l)) with (parsed (JArray l)).
    now rewrite stringify_parsed.
  - change (parsed (JObject l))
      with (Convert.JsonObject (map (fun kv => (fst kv, parsed (snd kv))) l)).
    cbn [Convert.escapeSqlValue SqlExporter.escapeSqlValue].
    change (Convert.JsonObject (map (fun kv => (fst kv, parsed (snd kv))) l))
      with (parsed (JObject l)).
    now rewrite stringify_parsed.
Qed.

(** X20.  A column named by [sanitizeFieldName] is quoted by the
    converter exactly as by the exporter, unless its upper-cased name is
    one of the reserved words that only the exporter lists: such a
    column is bracketed in the exported SQL file and left bare in the
    converted one.  Every reserved word of the converter is one of the
    exporter. *)
Theorem converter_quotes_columns (fieldName : string) :
  let column := sanitizeFieldName fieldName in
  (forall word, In word Convert.RESERVED_WORDS -> In word SqlExporter.RESERVED_WORDS)
  /\ (Convert.quoteName column = SqlExporter.quoteName column
      \/ (includes Convert.RESERVED_WORDS (toUpperCase column) = false
          /\ includes SqlExporter.RESERVED_WORDS (toUpperCase column) = true
          /\ Convert.quoteName column = column
          /\ SqlExporter.quoteName column = "[" ++ column ++ "]")).
Proof.
  intros column.
  assert (Hsub : forall word, In word Convert.RESERVED_WORDS ->
                              In word SqlExporter.RESERVED_WORDS).
  { assert (H : forallb (includes SqlExporter.RESERVED_WORDS) Convert.RESERVED_WORDS = true)
      by (vm_compute; reflexivity).
    rewrite forallb_forall in H. intros word Hin.
    apply Checkpoint.includes_In, H, Hin. }
  split; [exact Hsub |].
  destruct (sanitizeFieldName_identifier fieldName) as [Hne [Hw Hd]].
  fold column in Hne, Hw, Hd.
  assert (Hsome : some_char (fun c => negb (is_word c)) column = false).
  { clear Hne Hd. induction column as [| c s IH]; cbn in *; [reflexivity |].
    apply andb_prop in Hw as [Hc Hs]. now rewrite Hc, IH. }
  assert (Hescape : replace_class_str (fun c => Ascii.eqb c "]") "]]" column = column).
  { clear -Hw. induction column as [| c s IH]; cbn in *; [reflexivity |].
    apply andb_prop in Hw as [Hc Hs].
    destruct (Ascii.eqb_spec c "]") as [-> | _]; [discriminate | now rewrite IH]. }
  unfold Convert.quoteName, SqlExporter.quoteName, SqlExporter.needsQuoting.
  rewrite Hsome, Hd, Hescape, orb_false_r.
  destruct (includes Convert.RESERVED_WORDS (toUpperCase column)) eqn:Hc.
  - apply Checkpoint.includes_In, Hsub, Checkpoint.includes_In in Hc. rewrite Hc. now left.
  - destruct (includes SqlExporter.RESERVED_WORDS (toUpperCase column)) eqn:Hs.
    + right. now repeat split.
    + now left.
Qed.

End WithPlatform.

Lemma converter_infers_types_again_witness :
  Convert.inferSqlType
    (Some (parsed (value (@transformValue Examples.example_platform
                            (FNumber (Number_of_Z 7))))))
  = "INT".
Proof.
  exact (proj1 (@converter_infers_types_again Examples.example_platform
                  (Number_of_Z 7) "abc" true eq_refl eq_refl)).
Defined.

End Reconversion.
